(** * HTTP traffic sanitizer: a shallow embedding of httpclient's
    Sanitizer, SanitizerNoRegex and LoggingRoundTripper.

    Go strings and byte slices are lists of 8-bit characters.  Library
    functions that are Unicode-aware in Go (strings.ToLower,
    strings.TrimSpace, the case folding of the regexp package) are
    modelled on their ASCII range; bytes above 127 are left as they are. *)

From Stdlib Require Import Ascii String DecimalString.
From Stdlib Require Import List ZArith NArith Lia Bool Arith Permutation.
Import ListNotations.
Open Scope list_scope.

Set Implicit Arguments.

(** ** Bytes and the strings package *)

Definition bytes := list ascii.

Definition lit (s : string) : bytes := list_ascii_of_string s.

Definition dquote : ascii := "034"%char.
Definition squote : ascii := "'"%char.
Definition bslash : ascii := "\"%char.
Definition newline : ascii := "010"%char.
Definition tab : ascii := "009"%char.
Definition cr : ascii := "013"%char.

(** Source literals that contain double quotes are written with single
    quotes and converted by [jq]. *)
Definition jq (s : string) : bytes :=
  map (fun c => if Ascii.eqb c squote then dquote else c) (lit s).

Definition code (c : ascii) : N := N_of_ascii c.

Definition in_range (lo hi c : ascii) : bool :=
  (code lo <=? code c)%N && (code c <=? code hi)%N.

Definition is_upper (c : ascii) : bool := in_range "A" "Z" c.
Definition is_lower (c : ascii) : bool := in_range "a" "z" c.
Definition is_digit (c : ascii) : bool := in_range "0" "9" c.
Definition is_alpha (c : ascii) : bool := is_upper c || is_lower c.
Definition is_alnum (c : ascii) : bool := is_alpha c || is_digit c.

Definition lower_char (c : ascii) : ascii :=
  if is_upper c then ascii_of_N (code c + 32) else c.

(** strings.ToLower *)
Definition ToLower (s : bytes) : bytes := map lower_char s.

Fixpoint bytes_eqb (a b : bytes) : bool :=
  match a, b with
  | [], [] => true
  | x :: a', y :: b' => Ascii.eqb x y && bytes_eqb a' b'
  | _, _ => false
  end.

(** strings.HasPrefix *)
Fixpoint HasPrefix (s p : bytes) {struct p} : bool :=
  match p, s with
  | [], _ => true
  | x :: p', y :: s' => Ascii.eqb x y && HasPrefix s' p'
  | _ :: _, [] => false
  end.

(** strings.HasSuffix *)
Definition HasSuffix (s p : bytes) : bool := HasPrefix (rev s) (rev p).

(** strings.Index: the offset of the first occurrence, [None] for -1. *)
Fixpoint Index (s sub : bytes) : option nat :=
  if HasPrefix s sub then Some 0
  else match s with
       | [] => None
       | _ :: s' => option_map S (Index s' sub)
       end.

(** strings.Contains *)
Definition Contains (s sub : bytes) : bool :=
  match Index s sub with Some _ => true | None => false end.

Definition is_space (c : ascii) : bool :=
  Ascii.eqb c " " || Ascii.eqb c tab || Ascii.eqb c newline || Ascii.eqb c cr
  || Ascii.eqb c "011" || Ascii.eqb c "012".

Fixpoint trim_left (s : bytes) : bytes :=
  match s with
  | c :: s' => if is_space c then trim_left s' else s
  | [] => []
  end.

(** strings.TrimSpace *)
Definition TrimSpace (s : bytes) : bytes := rev (trim_left (rev (trim_left s))).

(** strings.Join *)
Fixpoint Join (l : list bytes) (sep : bytes) : bytes :=
  match l with
  | [] => []
  | [x] => x
  | x :: l' => x ++ sep ++ Join l' sep
  end.

(** strings.Split on a one-byte separator. *)
Fixpoint Split (s : bytes) (sep : ascii) : list bytes :=
  match s with
  | [] => [[]]
  | c :: s' =>
      if Ascii.eqb c sep then [] :: Split s' sep
      else match Split s' sep with
           | l :: ls => (c :: l) :: ls
           | [] => [[c]]
           end
  end.

(** strings.ReplaceAll for a non-empty [old]; the fuel is the length of
    the text, enough for every position. *)
Fixpoint replace_all_from (fuel : nat) (s old new : bytes) : bytes :=
  match fuel with
  | 0 => s
  | S n =>
      match s with
      | [] => []
      | c :: s' =>
          if HasPrefix s old
          then new ++ replace_all_from n (skipn (length old) s) old new
          else c :: replace_all_from n s' old new
      end
  end.

Definition ReplaceAll (s old new : bytes) : bytes :=
  match old with
  | [] => s
  | _ => replace_all_from (length s) s old new
  end.

(** s[a:b] for 0 <= a <= b <= len(s). *)
Definition slice (s : bytes) (a b : nat) : bytes := firstn (b - a) (skipn a s).

(** fmt.Sprintf("%d", n) *)
Definition Sprint_int (n : Z) : bytes :=
  lit (NilZero.string_of_int (Z.to_int n)).

(** ** The regexp package

    A compiled pattern is its syntax tree.  Matching is Go's leftmost-first
    (Perl-like) backtracking order: alternatives left to right, [Star]
    greedy.  Case-insensitive literals carry both cases in their class. *)

Inductive re : Type :=
| Eps
| Chr (p : ascii -> bool)
| Cat (a b : re)
| Alt (a b : re)
| Star (a : re)
| Grp (i : N) (a : re)
| WordB.

Record mstate : Type := MState {
  m_pos : nat;
  m_prev : option ascii;
  m_rest : bytes;
  m_caps : list (N * (nat * nat))
}.

Definition is_word (c : ascii) : bool := is_alnum c || Ascii.eqb c "_".

Definition opt_word (o : option ascii) : bool :=
  match o with Some c => is_word c | None => false end.

(** \b: an ASCII word boundary. *)
Definition at_boundary (s : mstate) : bool :=
  xorb (opt_word (m_prev s)) (opt_word (hd_error (m_rest s))).

Definition set_cap (i : N) (start : nat) (s : mstate) : mstate :=
  MState (m_pos s) (m_prev s) (m_rest s) ((i, (start, m_pos s)) :: m_caps s).

Fixpoint rmatch (r : re) (k : mstate -> option mstate) (s : mstate)
  {struct r} : option mstate :=
  match r with
  | Eps => k s
  | Chr p =>
      match m_rest s with
      | c :: t => if p c then k (MState (S (m_pos s)) (Some c) t (m_caps s)) else None
      | [] => None
      end
  | Cat a b => rmatch a (fun s' => rmatch b k s') s
  | Alt a b =>
      match rmatch a k s with
      | Some x => Some x
      | None => rmatch b k s
      end
  | Star a =>
      (fix loop (n : nat) (s : mstate) {struct n} : option mstate :=
         match n with
         | 0 => k s
         | S n' =>
             match rmatch a (fun s' => if m_pos s <? m_pos s' then loop n' s' else None) s with
             | Some x => Some x
             | None => k s
             end
         end) (S (length (m_rest s))) s
  | Grp i a => rmatch a (fun s' => k (set_cap i (m_pos s) s')) s
  | WordB => if at_boundary s then k s else None
  end.

(** Derived forms of the syntax. *)
Definition Opt (a : re) : re := Alt a Eps.
Definition Plus (a : re) : re := Cat a (Star a).

Fixpoint Rep (n : nat) (a : re) : re :=
  match n with
  | 0 => Eps
  | S n' => Cat a (Rep n' a)
  end.

(** x{n,} *)
Definition RepMin (n : nat) (a : re) : re := Cat (Rep n a) (Star a).

Fixpoint Cats (l : list re) : re :=
  match l with
  | [] => Eps
  | [a] => a
  | a :: l' => Cat a (Cats l')
  end.

Fixpoint Alts (l : list re) : re :=
  match l with
  | [] => Eps
  | [a] => a
  | a :: l' => Alt a (Alts l')
  end.

(** A literal, matched byte for byte. *)
Definition Lit (s : bytes) : re := Cats (map (fun c => Chr (Ascii.eqb c)) s).

(** A literal under (?i). *)
Definition LitI (s : bytes) : re :=
  Cats (map (fun c => Chr (fun x => Ascii.eqb (lower_char x) (lower_char c))) s).

Definition OneOf (s : string) : ascii -> bool :=
  fun c => existsb (Ascii.eqb c) (lit s).

Definition cls_or (p q : ascii -> bool) : ascii -> bool := fun c => p c || q c.
Definition cls_not (p : ascii -> bool) : ascii -> bool := fun c => negb (p c).

(** \s of RE2: [\t\n\f\r ]. *)
Definition cls_space : ascii -> bool :=
  fun c => Ascii.eqb c " " || Ascii.eqb c tab || Ascii.eqb c newline
           || Ascii.eqb c cr || Ascii.eqb c "012".

(** The leftmost match at or after the current position:
    (start, end, captures). *)
Fixpoint search (r : re) (pos : nat) (prev : option ascii) (rest : bytes)
  : option (nat * nat * list (N * (nat * nat))) :=
  match rmatch r (fun s => Some s) (MState pos prev rest []) with
  | Some s => Some (pos, m_pos s, m_caps s)
  | None =>
      match rest with
      | [] => None
      | c :: t => search r (S pos) (Some c) t
      end
  end.

Definition search_from (r : re) (src : bytes) (pos : nat) :=
  search r pos (match pos with 0 => None | S p => nth_error src p end) (skipn pos src).

Fixpoint cap_lookup (i : N) (caps : list (N * (nat * nat))) : option (nat * nat) :=
  match caps with
  | [] => None
  | (j, se) :: t => if (i =? j)%N then Some se else cap_lookup i t
  end.

(** The text of submatch [i]; submatch 0 is the whole match. *)
Definition submatch (src : bytes) (m : nat * nat * list (N * (nat * nat))) (i : N) : bytes :=
  match m with
  | (st, en, caps) =>
      if (i =? 0)%N then slice src st en
      else match cap_lookup i caps with
           | Some (a, b) => slice src a b
           | None => []
           end
  end.

(** regexp's extract: the name after a dollar sign, bare or in braces.
    Returns the name, its number when it is one, and the rest. *)
Fixpoint span (p : ascii -> bool) (s : bytes) : bytes * bytes :=
  match s with
  | c :: t => if p c then let (a, b) := span p t in (c :: a, b) else ([], s)
  | [] => ([], [])
  end.

Fixpoint digits_value (s : bytes) (acc : N) : option N :=
  match s with
  | [] => Some acc
  | c :: t =>
      if is_digit c && (acc <? 100000000)%N
      then digits_value t (acc * 10 + (code c - 48))%N
      else None
  end.

Definition name_number (name : bytes) : option N :=
  match name with
  | c :: _ :: _ => if Ascii.eqb c "0" then None else digits_value name 0
  | _ => digits_value name 0
  end.

Definition extract (str : bytes) : option (bytes * option N * bytes) :=
  match str with
  | [] => None
  | c :: t =>
      let brace := Ascii.eqb c "{" in
      let body := if brace then t else str in
      let (name, rest) := span is_word body in
      match name with
      | [] => None
      | _ =>
          if brace then
            match rest with
            | c' :: rest' =>
                if Ascii.eqb c' "}" then Some (name, name_number name, rest') else None
            | [] => None
            end
          else Some (name, name_number name, rest)
      end
  end.

(** regexp's expand.  The patterns of this model have numbered groups
    only, so a reference by name expands to nothing. *)
Fixpoint expand (fuel : nat) (template src : bytes)
  (m : nat * nat * list (N * (nat * nat))) : bytes :=
  match fuel with
  | 0 => template
  | S n =>
      match template with
      | [] => []
      | c :: t =>
          if Ascii.eqb c "$" then
            match t with
            | c' :: t' =>
                if Ascii.eqb c' "$" then c' :: expand n t' src m
                else match extract t with
                     | None => c :: expand n t src m
                     | Some (_, Some num, rest) => submatch src m num ++ expand n rest src m
                     | Some (_, None, rest) => expand n rest src m
                     end
            | [] => [c]
            end
          else c :: expand n t src m
      end
  end.

Definition Expand (template src : bytes) m : bytes :=
  expand (S (length template)) template src m.

(** Regexp.ReplaceAllString: the loop of regexp.replaceAll. *)
Fixpoint replace_loop (fuel : nat) (r : re) (src repl : bytes)
  (searchPos lastMatchEnd : nat) : bytes :=
  match fuel with
  | 0 => skipn lastMatchEnd src
  | S n =>
      if length src <? searchPos then skipn lastMatchEnd src
      else
        match search_from r src searchPos with
        | None => skipn lastMatchEnd src
        | Some (a0, a1, caps) =>
            let before := slice src lastMatchEnd a0 in
            let ins := if (lastMatchEnd <? a1) || (a0 =? 0)
                       then Expand repl src (a0, a1, caps) else [] in
            let width := if searchPos <? length src then 1 else 0 in
            let next :=
              if a1 <? searchPos + width then searchPos + width
              else if a1 <? searchPos + 1 then searchPos + 1
              else a1 in
            before ++ ins ++ replace_loop n r src repl next a1
        end
  end.

Definition ReplaceAllString (r : re) (src repl : bytes) : bytes :=
  replace_loop (length src + 2) r src repl 0 0.

(** regexp.QuoteMeta followed by compilation is the literal itself. *)
Definition QuotedI (s : bytes) : re := LitI s.

(** ** Go maps with string keys

    A map is represented by its entries in increasing key order (the order
    of sort.Strings), one entry per key.  [map_set] is the assignment
    m[k] = v.  A [range] loop visits the entries in an order chosen by the
    runtime: a [range_order] is one such choice, a permutation of the
    entries. *)

Fixpoint bytes_cmp (a b : bytes) : comparison :=
  match a, b with
  | [], [] => Eq
  | [], _ :: _ => Lt
  | _ :: _, [] => Gt
  | x :: a', y :: b' =>
      match N.compare (code x) (code y) with
      | Eq => bytes_cmp a' b'
      | c => c
      end
  end.

Section GoMap.
Variable V : Type.

Definition gomap := list (bytes * V).

Fixpoint map_set (k : bytes) (v : V) (m : gomap) : gomap :=
  match m with
  | [] => [(k, v)]
  | (k', v') :: t =>
      match bytes_cmp k k' with
      | Lt => (k, v) :: m
      | Eq => (k, v) :: t
      | Gt => (k', v') :: map_set k v t
      end
  end.

Fixpoint map_get (k : bytes) (m : gomap) : option V :=
  match m with
  | [] => None
  | (k', v') :: t => if bytes_eqb k k' then Some v' else map_get k t
  end.

(** The assignments m[k] = v for the entries of [l], in that order. *)
Definition map_assign (m : gomap) (l : list (bytes * V)) : gomap :=
  fold_left (fun acc kv => map_set (fst kv) (snd kv) acc) l m.

Fixpoint keys_sorted (m : gomap) : bool :=
  match m with
  | [] => true
  | (k, _) :: t =>
      match t with
      | [] => true
      | (k', _) :: _ =>
          match bytes_cmp k k' with Lt => keys_sorted t | _ => false end
      end
  end.

End GoMap.

Unset Implicit Arguments.

Record range_order : Type := RangeOrder {
  ro_visit : forall V : Type, list (bytes * V) -> list (bytes * V);
  ro_perm : forall (V : Type) (l : list (bytes * V)), Permutation (ro_visit V l) l
}.

Set Implicit Arguments.

Definition in_key_order : range_order :=
  RangeOrder (fun _ l => l) (fun _ l => Permutation_refl l).

Definition in_reverse_order : range_order :=
  RangeOrder (fun _ l => rev l) (fun _ l => Permutation_sym (Permutation_rev l)).

(** ** encoding/json

    json.Valid, json.Unmarshal into interface{} and json.MarshalIndent of
    the result.  A decoded number is held as its literal and written back
    as such: Unmarshal fails on a literal beyond the range of float64, as
    Go does, but the rounding to float64 and the shortest form in which Go
    prints it (1.0 as 1) are not modelled.  Bytes above 127 are copied as
    they are (Go replaces ill-formed UTF-8 by U+FFFD and escapes U+2028
    and U+2029). *)

Unset Elimination Schemes.

Inductive JValue : Type :=
| JNull
| JBool (b : bool)
| JNumber (lit : bytes)
| JString (s : bytes)
| JArray (l : list JValue)
| JObject (m : list (bytes * JValue)).

Set Elimination Schemes.

Definition is_ws (c : ascii) : bool :=
  Ascii.eqb c " " || Ascii.eqb c tab || Ascii.eqb c newline || Ascii.eqb c cr.

Fixpoint skip_ws (s : bytes) : bytes :=
  match s with
  | c :: t => if is_ws c then skip_ws t else s
  | [] => []
  end.

Definition hex_val (c : ascii) : option N :=
  if is_digit c then Some (code c - 48)%N
  else if in_range "a" "f" c then Some (code c - 87)%N
  else if in_range "A" "F" c then Some (code c - 55)%N
  else None.

Definition hex4 (a b c d : ascii) : option N :=
  match hex_val a, hex_val b, hex_val c, hex_val d with
  | Some x, Some y, Some z, Some w => Some (((x * 16 + y) * 16 + z) * 16 + w)%N
  | _, _, _, _ => None
  end.

(** utf8.EncodeRune *)
Definition utf8 (r : N) : bytes :=
  if (r <? 128)%N then [ascii_of_N r]
  else if (r <? 2048)%N then
    [ascii_of_N (192 + r / 64); ascii_of_N (128 + r mod 64)]
  else if (r <? 65536)%N then
    [ascii_of_N (224 + r / 4096); ascii_of_N (128 + (r / 64) mod 64);
     ascii_of_N (128 + r mod 64)]
  else
    [ascii_of_N (240 + r / 262144); ascii_of_N (128 + (r / 4096) mod 64);
     ascii_of_N (128 + (r / 64) mod 64); ascii_of_N (128 + r mod 64)].

Definition is_surrogate (r : N) : bool := (55296 <=? r)%N && (r <? 57344)%N.

(** utf16.DecodeRune of a \uXXXX escape and the escape that follows it, if
    the two form a surrogate pair. *)
Definition surrogate_pair (r : N) (next : bytes) : option N :=
  if is_surrogate r then
    match next with
    | b :: u :: h1 :: h2 :: h3 :: h4 :: _ =>
        if Ascii.eqb b bslash && Ascii.eqb u "u" then
          match hex4 h1 h2 h3 h4 with
          | Some r2 =>
              if (r <? 56320)%N && (56320 <=? r2)%N && (r2 <? 57344)%N
              then Some (65536 + (r - 55296) * 1024 + (r2 - 56320))%N
              else None
          | None => None
          end
        else None
    | _ => None
    end
  else None.

Definition simple_escape (e : ascii) : option ascii :=
  if Ascii.eqb e dquote then Some dquote
  else if Ascii.eqb e bslash then Some bslash
  else if Ascii.eqb e "/" then Some "/"%char
  else if Ascii.eqb e "b" then Some "008"%char
  else if Ascii.eqb e "f" then Some "012"%char
  else if Ascii.eqb e "n" then Some newline
  else if Ascii.eqb e "r" then Some cr
  else if Ascii.eqb e "t" then Some tab
  else None.

Definition prepend (pre : bytes) (r : option (bytes * bytes)) : option (bytes * bytes) :=
  match r with
  | Some (s, rest) => Some (pre ++ s, rest)
  | None => None
  end.

(** A string literal after its opening quote: the decoded text and what
    follows the closing quote. *)
Fixpoint parse_string (s : bytes) : option (bytes * bytes) :=
  match s with
  | [] => None
  | c :: t =>
      if Ascii.eqb c dquote then Some ([], t)
      else if Ascii.eqb c bslash then
        match t with
        | [] => None
        | e :: t1 =>
            if Ascii.eqb e "u" then
              match t1 with
              | h1 :: h2 :: h3 :: h4 :: t2 =>
                  match hex4 h1 h2 h3 h4 with
                  | None => None
                  | Some r =>
                      match surrogate_pair r t2 with
                      | Some dec =>
                          match t2 with
                          | _ :: _ :: _ :: _ :: _ :: _ :: t3 => prepend (utf8 dec) (parse_string t3)
                          | _ => None
                          end
                      | None =>
                          prepend (utf8 (if is_surrogate r then 65533%N else r)) (parse_string t2)
                      end
                  end
              | _ => None
              end
            else
              match simple_escape e with
              | Some x => prepend [x] (parse_string t1)
              | None => None
              end
        end
      else if (code c <? 32)%N then None
      else prepend [c] (parse_string t)
  end.

Definition is_num_char (c : ascii) : bool :=
  is_digit c || Ascii.eqb c "-" || Ascii.eqb c "+" || Ascii.eqb c "."
  || Ascii.eqb c "e" || Ascii.eqb c "E".

Fixpoint all_digits (s : bytes) : bool :=
  match s with
  | [] => true
  | c :: t => is_digit c && all_digits t
  end.

Definition nonempty_digits (s : bytes) : bool :=
  match s with [] => false | _ => all_digits s end.

(** [eE][+-]?[0-9]+ or nothing *)
Definition is_exponent (s : bytes) : bool :=
  match s with
  | [] => true
  | c :: t =>
      (Ascii.eqb c "e" || Ascii.eqb c "E") &&
      match t with
      | x :: t' => if Ascii.eqb x "+" || Ascii.eqb x "-" then nonempty_digits t'
                   else nonempty_digits t
      | [] => false
      end
  end.

(** (\.[0-9]+)?([eE][+-]?[0-9]+)? *)
Definition is_frac_exp (s : bytes) : bool :=
  match s with
  | c :: t =>
      if Ascii.eqb c "." then
        let (ds, rest) := span is_digit t in
        nonempty_digits ds && is_exponent rest
      else is_exponent s
  | [] => true
  end.

(** An optional minus sign, then 0 or a digit string without leading
    zero, then [is_frac_exp]. *)
Definition is_number (s : bytes) : bool :=
  let body := match s with
              | c :: t => if Ascii.eqb c "-" then t else s
              | [] => []
              end in
  match body with
  | c :: t =>
      if Ascii.eqb c "0" then is_frac_exp t
      else if is_digit c then let (_, rest) := span is_digit t in is_frac_exp rest
      else false
  | [] => false
  end.

Definition parse_number (s : bytes) : option (bytes * bytes) :=
  let (l, rest) := span is_num_char s in
  if is_number l then Some (l, rest) else None.

Definition decimal_digits (s : bytes) : Z :=
  fold_left (fun acc c => (10 * acc + Z.of_N (code c - 48))%Z) s 0%Z.

(** The magnitude of a number literal, as a mantissa and a power of ten. *)
Definition decimal_of (l : bytes) : Z * Z :=
  let body := match l with
              | c :: t => if Ascii.eqb c "-" then t else l
              | [] => []
              end in
  let (int_part, r1) := span is_digit body in
  let (frac_part, r2) :=
    match r1 with
    | c :: t => if Ascii.eqb c "." then span is_digit t else ([], r1)
    | [] => ([], [])
    end in
  let e := match r2 with
           | _ :: c :: ds =>
               if Ascii.eqb c "-" then (- decimal_digits ds)%Z
               else if Ascii.eqb c "+" then decimal_digits ds
               else decimal_digits (c :: ds)
           | _ => 0%Z
           end in
  (decimal_digits (int_part ++ frac_part), (e - Z.of_nat (length frac_part))%Z).

(** Half a unit in the last place above the largest float64: from here
    on a magnitude rounds to an infinity. *)
Definition float64_limit : Z := (2 ^ 1024 - 2 ^ 970)%Z.

(** Whether strconv.ParseFloat(l, 64) answers without a range error (an
    underflow is none).  The value is compared exactly; Go reads at most
    800 digits of the mantissa and caps the exponent near 10000. *)
Definition fits_float64 (l : bytes) : bool :=
  let (m, e) := decimal_of l in
  if (0 <=? e)%Z then (m * 10 ^ e <? float64_limit)%Z
  else (m <? float64_limit * 10 ^ (- e))%Z.

(** The scanner refuses an array or object nested deeper than this. *)
Definition maxNestingDepth : N := 10000.

Definition parse_word (w : bytes) (v : JValue) (s : bytes) : option (JValue * bytes) :=
  if HasPrefix s w then Some (v, skipn (length w) s) else None.

Definition parser : Type := bytes -> option (JValue * bytes).

(** The elements of an array after the first bracket, up to the closing
    one. *)
Fixpoint parse_elems (pv : parser) (k : nat) (s : bytes) : option (list JValue * bytes) :=
  match k with
  | 0 => None
  | S k' =>
      match pv s with
      | None => None
      | Some (v, r) =>
          match skip_ws r with
          | c :: r' =>
              if Ascii.eqb c "," then
                match parse_elems pv k' r' with
                | Some (vs, r'') => Some (v :: vs, r'')
                | None => None
                end
              else if Ascii.eqb c "]" then Some ([v], r')
              else None
          | [] => None
          end
      end
  end.

(** The members of an object, in source order. *)
Fixpoint parse_members (pv : parser) (k : nat) (s : bytes)
  : option (list (bytes * JValue) * bytes) :=
  match k with
  | 0 => None
  | S k' =>
      match skip_ws s with
      | q :: s1 =>
          if Ascii.eqb q dquote then
            match parse_string s1 with
            | None => None
            | Some (key, s2) =>
                match skip_ws s2 with
                | c :: s3 =>
                    if Ascii.eqb c ":" then
                      match pv s3 with
                      | None => None
                      | Some (v, r) =>
                          match skip_ws r with
                          | c' :: r' =>
                              if Ascii.eqb c' "," then
                                match parse_members pv k' r' with
                                | Some (ms, r'') => Some ((key, v) :: ms, r'')
                                | None => None
                                end
                              else if Ascii.eqb c' "}" then Some ([(key, v)], r')
                              else None
                          | [] => None
                          end
                      end
                    else None
                | [] => None
                end
            end
          else None
      | [] => None
      end
  end.

(** A value at nesting depth [depth]; [num_ok] tells whether the decoder
    takes a number literal. *)
Fixpoint parse_value (num_ok : bytes -> bool) (fuel : nat) (depth : N) (s : bytes)
  : option (JValue * bytes) :=
  match fuel with
  | 0 => None
  | S n =>
      match skip_ws s with
      | [] => None
      | c :: t =>
          if Ascii.eqb c "{" then
            if (maxNestingDepth <=? depth)%N then None
            else
            match skip_ws t with
            | c' :: t' =>
                if Ascii.eqb c' "}" then Some (JObject [], t')
                else match parse_members (parse_value num_ok n (depth + 1)) n t with
                     | Some (ms, r) => Some (JObject (map_assign [] ms), r)
                     | None => None
                     end
            | [] => None
            end
          else if Ascii.eqb c "[" then
            if (maxNestingDepth <=? depth)%N then None
            else
            match skip_ws t with
            | c' :: t' =>
                if Ascii.eqb c' "]" then Some (JArray [], t')
                else match parse_elems (parse_value num_ok n (depth + 1)) n t with
                     | Some (vs, r) => Some (JArray vs, r)
                     | None => None
                     end
            | [] => None
            end
          else if Ascii.eqb c dquote then
            match parse_string t with
            | Some (str, r) => Some (JString str, r)
            | None => None
            end
          else if Ascii.eqb c "t" then parse_word (lit "true") (JBool true) (c :: t)
          else if Ascii.eqb c "f" then parse_word (lit "false") (JBool false) (c :: t)
          else if Ascii.eqb c "n" then parse_word (lit "null") JNull (c :: t)
          else match parse_number (c :: t) with
               | Some (l, r) => if num_ok l then Some (JNumber l, r) else None
               | None => None
               end
      end
  end.

(** A whole text as one value.  Every level of nesting and every element
    or member takes at least one byte, so that fuel beyond the length of
    the text changes nothing (lemma parse_value_fuel). *)
Definition parse_text (num_ok : bytes -> bool) (data : bytes) : option JValue :=
  match parse_value num_ok (S (length data)) 0 data with
  | Some (v, rest) => match skip_ws rest with [] => Some v | _ => None end
  | None => None
  end.

(** json.Unmarshal(data, &v) for v of type interface{}: [None] is an
    error, of syntax or of a number out of range. *)
Definition Unmarshal (data : bytes) : option JValue := parse_text fits_float64 data.

Definition hex_digit (n : N) : ascii :=
  if (n <? 10)%N then ascii_of_N (48 + n) else ascii_of_N (87 + n).

(** The encoder's string escaping, HTML escaping on. *)
Definition escape_char (c : ascii) : bytes :=
  if Ascii.eqb c dquote || Ascii.eqb c bslash then [bslash; c]
  else if Ascii.eqb c "008" then [bslash; "b"%char]
  else if Ascii.eqb c "012" then [bslash; "f"%char]
  else if Ascii.eqb c newline then [bslash; "n"%char]
  else if Ascii.eqb c cr then [bslash; "r"%char]
  else if Ascii.eqb c tab then [bslash; "t"%char]
  else if (code c <? 32)%N || Ascii.eqb c "<" || Ascii.eqb c ">" || Ascii.eqb c "&"
  then [bslash; "u"%char; "0"%char; "0"%char; hex_digit (code c / 16); hex_digit (code c mod 16)]
  else [c].

Definition quote_string (s : bytes) : bytes :=
  dquote :: flat_map escape_char s ++ [dquote].

Definition indent (d : nat) : bytes := concat (repeat (lit "  ") d).

(** The text MarshalIndent writes for [v] at nesting depth [d], with an
    empty prefix and two spaces of indentation; the entries of a map are
    written in key order. *)
Fixpoint marshal (d : nat) (v : JValue) : bytes :=
  match v with
  | JNull => lit "null"
  | JBool true => lit "true"
  | JBool false => lit "false"
  | JNumber l => l
  | JString s => quote_string s
  | JArray [] => lit "[]"
  | JArray (x :: xs) =>
      lit "[" ++ newline :: indent (S d) ++ marshal (S d) x
      ++ flat_map (fun y => lit "," ++ newline :: indent (S d) ++ marshal (S d) y) xs
      ++ newline :: indent d ++ lit "]"
  | JObject [] => lit "{}"
  | JObject ((k, x) :: ms) =>
      lit "{" ++ newline :: indent (S d) ++ quote_string k ++ lit ": " ++ marshal (S d) x
      ++ flat_map (fun '(k', y) =>
                     lit "," ++ newline :: indent (S d) ++ quote_string k' ++ lit ": "
                     ++ marshal (S d) y) ms
      ++ newline :: indent d ++ lit "}"
  end.

(** json.MarshalIndent never fails on a value built from Unmarshal's
    output (maps, slices, strings, finite numbers, booleans, nil). *)
Definition MarshalIndent (v : JValue) : option bytes := Some (marshal 0 v).

(** json.Valid: the syntax alone. *)
Definition Valid (data : bytes) : bool :=
  match parse_text (fun _ => true) data with Some _ => true | None => false end.

(** The values Unmarshal builds: every number is a number literal (made
    of the bytes a number may hold) and every map has its keys in
    increasing order. *)
Fixpoint wf_value (v : JValue) : bool :=
  match v with
  | JNumber l => is_number l && forallb is_num_char l
  | JArray l => forallb (fun x => wf_value x) l
  | JObject m => keys_sorted m && forallb (fun '(_, x) => wf_value x) m
  | _ => true
  end.

(** ** net/url: ParseQuery and Values.Encode *)

Definition is_hex (c : ascii) : bool :=
  match hex_val c with Some _ => true | None => false end.

(** url.QueryUnescape: [None] is an EscapeError. *)
Fixpoint QueryUnescape (s : bytes) : option bytes :=
  match s with
  | [] => Some []
  | c :: t =>
      if Ascii.eqb c "%" then
        match t with
        | h1 :: h2 :: t' =>
            match hex_val h1, hex_val h2, QueryUnescape t' with
            | Some x, Some y, Some r => Some (ascii_of_N (x * 16 + y) :: r)
            | _, _, _ => None
            end
        | _ => None
        end
      else
        match QueryUnescape t with
        | Some r => Some ((if Ascii.eqb c "+" then " "%char else c) :: r)
        | None => None
        end
  end.

Definition upper_hex (n : N) : ascii :=
  if (n <? 10)%N then ascii_of_N (48 + n) else ascii_of_N (55 + n).

Definition query_unreserved (c : ascii) : bool :=
  is_alnum c || Ascii.eqb c "-" || Ascii.eqb c "_" || Ascii.eqb c "." || Ascii.eqb c "~".

(** url.QueryEscape *)
Definition QueryEscape (s : bytes) : bytes :=
  flat_map (fun c =>
    if query_unreserved c then [c]
    else if Ascii.eqb c " " then ["+"%char]
    else ["%"%char; upper_hex (code c / 16); upper_hex (code c mod 16)]) s.

(** strings.Cut(s, "=") *)
Definition cut_eq (s : bytes) : bytes * bytes :=
  match Index s (lit "=") with
  | Some i => (firstn i s, skipn (S i) s)
  | None => (s, [])
  end.

(** url.Values: a map from a key to its values in order of appearance. *)
Definition Values := gomap (list bytes).

Definition values_add (m : Values) (k v : bytes) : Values :=
  map_set k (match map_get k m with Some vs => vs ++ [v] | None => [v] end) m.

(** The loop of url.parseQuery over the pieces between ampersands: the map
    built from the well-formed pieces, and whether an error was met. *)
Fixpoint parse_pieces (pieces : list bytes) (m : Values) (err : bool) : Values * bool :=
  match pieces with
  | [] => (m, err)
  | piece :: rest =>
      if Contains piece (lit ";") then parse_pieces rest m true
      else match piece with
           | [] => parse_pieces rest m err
           | _ =>
               let (k, v) := cut_eq piece in
               match QueryUnescape k with
               | None => parse_pieces rest m true
               | Some key =>
                   match QueryUnescape v with
                   | None => parse_pieces rest m true
                   | Some value => parse_pieces rest (values_add m key value) err
                   end
               end
           end
  end.

(** url.ParseQuery: [None] when err != nil. *)
Definition ParseQuery (query : bytes) : option Values :=
  match parse_pieces (Split query "&") [] false with
  | (m, false) => Some m
  | (_, true) => None
  end.

(** Values.Encode: key=value pairs joined by ampersands, sorted by key. *)
Definition Encode (v : Values) : bytes :=
  Join (flat_map (fun kvs =>
          map (fun x => QueryEscape (fst kvs) ++ lit "=" ++ QueryEscape x) (snd kvs)) v)
       (lit "&").

(** ** Outcomes

    A call returns, panics (a run-time error of Go), or needs more fuel
    than the model was given. *)

Inductive outcome (A : Type) : Type :=
| Ret (a : A)
| Panic
| OutOfFuel.

Arguments Ret {A} a.
Arguments Panic {A}.
Arguments OutOfFuel {A}.

Definition bind {A B : Type} (x : outcome A) (f : A -> outcome B) : outcome B :=
  match x with
  | Ret a => f a
  | Panic => Panic
  | OutOfFuel => OutOfFuel
  end.

Notation "x <- c ;; k" := (bind c (fun x => k))
  (at level 61, c at next level, right associativity).

Section MapM.
Variables A B : Type.
Variable f : A -> outcome B.

(** The loop for _, x := range l over a slice, collecting f(x). *)
Fixpoint mapM (l : list A) : outcome (list B) :=
  match l with
  | [] => Ret []
  | x :: l' => y <- f x ;; ys <- mapM l' ;; Ret (y :: ys)
  end.

End MapM.

(** ** Configuration (sanitizer.go) *)

Definition BodyAction := bytes.
Definition BodyActionSkip : BodyAction := lit "skip".
Definition BodyActionTruncate : BodyAction := lit "truncate".
Definition BodyActionSummarize : BodyAction := lit "summarize".
Definition BodyActionSanitize : BodyAction := lit "sanitize".

(** The values of the string type HeaderMaskMode. *)
Definition HeaderMaskFull : bytes := lit "full".
Definition HeaderMaskPartial : bytes := lit "partial".

(** Condition takes the content type, the body and its size. *)
Record BodyProcessingRule : Type := Rule {
  Condition : bytes -> bytes -> Z -> bool;
  Action : BodyAction;
  Message : bytes
}.

Record SanitizerConfig : Type := Config {
  SensitiveFields : list bytes;
  SensitivePatterns : list re;
  Mask : bytes;
  MaxBodySize : Z;
  BodyRules : list BodyProcessingRule;
  HeaderMaskMode : bytes;
  SensitiveHeaders : list bytes
}.

(** *** Helpers *)

Definition isJSON (contentType : bytes) : bool :=
  let ct := ToLower contentType in
  Contains ct (lit "application/json") ||
  Contains ct (lit "application/vnd.api+json") ||
  Contains ct (lit "text/json") ||
  HasSuffix ct (lit "+json").

Definition isXML (contentType : bytes) : bool :=
  let ct := ToLower contentType in
  Contains ct (lit "application/xml") ||
  Contains ct (lit "text/xml") ||
  HasSuffix ct (lit "+xml").

Definition isFormURLEncoded (contentType : bytes) : bool :=
  Contains (ToLower contentType) (lit "application/x-www-form-urlencoded").

Definition isMultipartForm (contentType : bytes) : bool :=
  Contains (ToLower contentType) (lit "multipart/form-data").

Definition binaryTypes : list bytes :=
  [lit "application/octet-stream"; lit "application/pdf";
   lit "image/"; lit "audio/"; lit "video/";
   lit "application/zip"; lit "application/gzip"; lit "application/x-tar"].

Definition isBinaryContent (contentType : bytes) : bool :=
  let ct := ToLower contentType in
  existsb (fun bt => Contains ct bt) binaryTypes.

Definition looksLikeJSON (body : bytes) : bool :=
  let trimmed := TrimSpace body in
  match trimmed with
  | [] => false
  | first :: _ =>
      let last := List.last trimmed first in
      (Ascii.eqb first "{" && Ascii.eqb last "}") ||
      (Ascii.eqb first "[" && Ascii.eqb last "]")
  end.

Definition looksLikeXML (body : bytes) : bool :=
  let trimmed := TrimSpace body in
  HasPrefix trimmed (lit "<") && HasSuffix trimmed (lit ">").

Definition base64Chars : bytes :=
  lit "ABCDEFGHIJKLMNOPQRSTUVWXYZabcdefghijklmnopqrstuvwxyz0123456789+/=".

(** float64(validChars)/float64(len(sample)) > 0.9 compares two integers
    of at most 1000 with nine tenths: 10 * validChars > 9 * len(sample)
    decides it exactly. *)
Definition looksLikeBase64 (body : bytes) : bool :=
  if length body <? 100 then false
  else
    let sample := if 1000 <? length body then firstn 1000 body else body in
    let validChars :=
      length (filter (fun b => existsb (Ascii.eqb b) base64Chars
                               || Ascii.eqb b newline || Ascii.eqb b cr) sample) in
    9 * length sample <? 10 * validChars.

Definition formatInt (n : Z) : bytes :=
  ReplaceAll (ReplaceAll (Sprint_int n) (lit ",") []) (lit ".") (lit ",").

Definition formatSize (size : Z) : bytes :=
  if (size <? 1024)%Z then formatInt size ++ lit " bytes"
  else if (size <? 1024 * 1024)%Z then formatInt (Z.quot size 1024) ++ lit " KB"
  else formatInt (Z.quot size (1024 * 1024)) ++ lit " MB".

Definition len (s : bytes) : Z := Z.of_nat (length s).

(** ** Sanitizer (the pattern-engine implementation) *)

Section Sanitizer.
Variable ord : range_order.
Variable config : SanitizerConfig.

(** sanitizeText *)
Definition sanitizeText (text : bytes) : bytes :=
  fold_left (fun result pattern =>
               ReplaceAllString pattern result (lit "$1" ++ Mask config))
            (SensitivePatterns config) text.

(** isSensitiveField *)
Definition isSensitiveField (fieldName : bytes) : bool :=
  let lower := ToLower fieldName in
  existsb (fun sensitive => Contains lower (ToLower sensitive)) (SensitiveFields config).

(** isSensitiveHeader *)
Definition isSensitiveHeader (headerName : bytes) : bool :=
  let lower := ToLower headerName in
  existsb (fun sensitive => bytes_eqb (ToLower sensitive) lower) (SensitiveHeaders config).

(** maskHeaderValue *)
Definition maskHeaderValue (values : list bytes) : bytes :=
  match values with
  | [] => []
  | _ =>
      let value := Join values (lit ", ") in
      if bytes_eqb (HeaderMaskMode config) HeaderMaskFull then Mask config
      else if length value <=? 8 then Mask config
      else firstn 4 value ++ Mask config ++ skipn (length value - 4) value
  end.

(** SanitizeHeaders: the loop assigns result[key] for each entry, in the
    order the runtime visits the map. *)
Definition SanitizeHeaders (headers : gomap (list bytes)) : gomap bytes :=
  map_assign []
    (map (fun kv =>
            (fst kv, if isSensitiveHeader (fst kv) then maskHeaderValue (snd kv)
                     else Join (snd kv) (lit ", ")))
         (ro_visit ord _ headers)).

(** sanitizeValue, over the function [nested] that sanitizes a string
    holding JSON (sanitizeJSON).  The value stored for an entry does not
    depend on the entries visited before it, so the entries are computed
    first and assigned in the order of the visit. *)
Fixpoint sanitizeValue (nested : bytes -> outcome bytes) (value : JValue)
  : outcome JValue :=
  match value with
  | JObject v =>
      entries <-
        mapM (fun '(key, val) =>
                x <- (if isSensitiveField key then Ret (JString (Mask config))
                      else sanitizeValue nested val) ;;
                Ret (key, x)) v ;;
      Ret (JObject (map_assign [] (ro_visit ord _ entries)))
  | JArray v =>
      result <- mapM (fun val => sanitizeValue nested val) v ;;
      Ret (JArray result)
  | JString v =>
      if looksLikeJSON v then s <- nested v ;; Ret (JString s)
      else Ret (JString (sanitizeText v))
  | _ => Ret value
  end.

(** sanitizeJSON *)
Fixpoint sanitizeJSON (fuel : nat) (body : bytes) : outcome bytes :=
  match fuel with
  | 0 => OutOfFuel
  | S n =>
      match Unmarshal body with
      | None => Ret (sanitizeText body)
      | Some data =>
          sanitized <- sanitizeValue (sanitizeJSON n) data ;;
          match MarshalIndent sanitized with
          | None => Ret (sanitizeText body)
          | Some result => Ret result
          end
      end
  end.

Definition not_char (x : ascii) : ascii -> bool := fun c => negb (Ascii.eqb c x).

Definition quote_class : ascii -> bool :=
  fun c => Ascii.eqb c dquote || Ascii.eqb c squote.

(** (?i)(<FIELD[^>]*>)([^<]+)(</FIELD>) *)
Definition xml_tag_pattern (field : bytes) : re :=
  Cats [Grp 1 (Cats [Lit (lit "<"); QuotedI field; Star (Chr (not_char ">")); Lit (lit ">")]);
        Grp 2 (Plus (Chr (not_char "<")));
        Grp 3 (Cats [Lit (lit "</"); QuotedI field; Lit (lit ">")])].

(** (?i)(FIELD\s*=\s*[Q'])([^Q']+)([Q']), where Q is the double quote *)
Definition xml_attr_pattern (field : bytes) : re :=
  Cats [Grp 1 (Cats [QuotedI field; Star (Chr cls_space); Lit (lit "=");
                     Star (Chr cls_space); Chr quote_class]);
        Grp 2 (Plus (Chr (cls_not quote_class)));
        Grp 3 (Chr quote_class)].

(** sanitizeXML *)
Definition sanitizeXML (body : bytes) : bytes :=
  let result :=
    fold_left (fun result field =>
      let result := ReplaceAllString (xml_tag_pattern field) result
                      (lit "${1}" ++ Mask config ++ lit "${3}") in
      ReplaceAllString (xml_attr_pattern field) result
        (lit "${1}" ++ Mask config ++ lit "${3}"))
      (SensitiveFields config) body in
  fold_left (fun result pattern =>
               ReplaceAllString pattern result (lit "$1" ++ Mask config))
            (SensitivePatterns config) result.

(** sanitizeFormURLEncoded *)
Definition sanitizeFormURLEncoded (body : bytes) : bytes :=
  match ParseQuery body with
  | None => sanitizeText body
  | Some values =>
      let sanitized :=
        map_assign []
          (map (fun kv =>
                  (fst kv, if isSensitiveField (fst kv) then [Mask config]
                           else map sanitizeText (snd kv)))
               (ro_visit ord _ values)) in
      Encode sanitized
  end.

(** name=Q([^Q]+)Q, where Q is the double quote *)
Definition name_pattern : re :=
  Cats [Lit (lit "name="); Chr (Ascii.eqb dquote);
        Grp 1 (Plus (Chr (not_char dquote))); Chr (Ascii.eqb dquote)].

(** The loop of sanitizeMultipartForm over the lines. *)
Fixpoint multipart_lines (lines : list bytes) (inSensitiveField : bool) : list bytes :=
  match lines with
  | [] => []
  | line :: rest =>
      if Contains line (lit "Content-Disposition") then
        let inSensitiveField :=
          match search_from name_pattern line 0 with
          | Some m => isSensitiveField (submatch line m 1)
          | None => inSensitiveField
          end in
        line :: multipart_lines rest inSensitiveField
      else if HasPrefix line (lit "--") then
        line :: multipart_lines rest false
      else if inSensitiveField && negb (bytes_eqb line [])
              && negb (HasPrefix line (lit "Content-")) then
        Mask config :: multipart_lines rest inSensitiveField
      else line :: multipart_lines rest inSensitiveField
  end.

(** sanitizeMultipartForm *)
Definition sanitizeMultipartForm (body : bytes) : bytes :=
  Join (multipart_lines (Split body newline) false) [newline].

(** summarizeBody *)
Definition summarizeBody (body contentType : bytes) (size : Z) : bytes :=
  let summary := lit "[Large body - " ++ formatSize size ++ lit "]" in
  let summary :=
    if isJSON contentType then
      match Unmarshal body with
      | Some (JObject v) => summary ++ lit " Object with " ++ formatInt (Z.of_nat (length v)) ++ lit " keys"
      | Some (JArray v) => summary ++ lit " Array with " ++ formatInt (Z.of_nat (length v)) ++ lit " items"
      | _ => summary
      end
    else summary in
  if isXML contentType then summary ++ lit " XML document" else summary.

(** truncateBody, over the function [again] it calls when the body fits
    (SanitizeBody).  body[:maxSize] panics for a negative maxSize. *)
Definition truncateBody (again : bytes -> bytes -> outcome bytes)
  (body contentType : bytes) : outcome bytes :=
  let maxSize := MaxBodySize config in
  if (len body <=? maxSize)%Z then again body contentType
  else if (maxSize <? 0)%Z then Panic
  else
    let truncated := firstn (Z.to_nat maxSize) body in
    Ret (truncated ++ newline :: lit "... [truncated, total: " ++ formatSize (len body) ++ lit "]").

(** The format dispatch at the end of SanitizeBody. *)
Definition sanitizeByFormat (fuel : nat) (body contentType : bytes) : outcome bytes :=
  if isJSON contentType || looksLikeJSON body then sanitizeJSON fuel body
  else if isXML contentType || looksLikeXML body then Ret (sanitizeXML body)
  else if isFormURLEncoded contentType then Ret (sanitizeFormURLEncoded body)
  else if isMultipartForm contentType then Ret (sanitizeMultipartForm body)
  else Ret (sanitizeText body).

(** The rule loop of SanitizeBody; a rule whose action is none of skip,
    summarize and truncate leaves the switch and the loop goes on. *)
Fixpoint applyRules (again : bytes -> bytes -> outcome bytes) (fuel : nat)
  (rules : list BodyProcessingRule) (body contentType : bytes) : outcome bytes :=
  match rules with
  | [] => sanitizeByFormat fuel body contentType
  | rule :: rest =>
      if Condition rule contentType body (len body) then
        if bytes_eqb (Action rule) BodyActionSkip then
          if negb (bytes_eqb (Message rule) []) then Ret (Message rule)
          else Ret (lit "[Body not logged]")
        else if bytes_eqb (Action rule) BodyActionSummarize then
          Ret (summarizeBody body contentType (len body))
        else if bytes_eqb (Action rule) BodyActionTruncate then
          truncateBody again body contentType
        else applyRules again fuel rest body contentType
      else applyRules again fuel rest body contentType
  end.

(** SanitizeBody.  The fuel bounds the calls of SanitizeBody from
    truncateBody and the nesting of JSON held in strings. *)
Fixpoint SanitizeBody (fuel : nat) (body contentType : bytes) : outcome bytes :=
  match fuel with
  | 0 => OutOfFuel
  | S n =>
      if length body =? 0 then Ret []
      else applyRules (SanitizeBody n) (S n) (BodyRules config) body contentType
  end.

End Sanitizer.

(** DefaultSanitizerConfig.  In the patterns quoted in the comments, Q
    stands for the double quote. *)
Definition alnum_or (s : string) : ascii -> bool := cls_or is_alnum (OneOf s).

Definition assign_prefix : list re :=
  [Opt (Chr quote_class); Star (Chr cls_space); Chr (OneOf ":=");
   Star (Chr cls_space); Opt (Chr quote_class)].

Definition digit : re := Chr is_digit.

Definition defaultPatterns : list re :=
  [ (* (?i)(bearer\s+)[a-zA-Z0-9\-._~+/]+=* *)
    Cats [Grp 1 (Cat (LitI (lit "bearer")) (Plus (Chr cls_space)));
          Plus (Chr (alnum_or "-._~+/")); Star (Chr (OneOf "="))];
    (* (?i)(api[_-]?key[Q']?\s*[:=]\s*[Q']?)[a-zA-Z0-9\-_]{20,} *)
    Cats [Grp 1 (Cats ([LitI (lit "api"); Opt (Chr (OneOf "_-")); LitI (lit "key")]
                       ++ assign_prefix));
          RepMin 20 (Chr (alnum_or "-_"))];
    (* (?i)(x-api-key:\s* )[a-zA-Z0-9\-_]{20,}, without the blank *)
    Cats [Grp 1 (Cat (LitI (lit "x-api-key:")) (Star (Chr cls_space)));
          RepMin 20 (Chr (alnum_or "-_"))];
    (* (AKIA[0-9A-Z]{16}) *)
    Grp 1 (Cat (Lit (lit "AKIA")) (Rep 16 (Chr (cls_or is_digit is_upper))));
    (* (?i)(aws[_-]?secret[_-]?access[_-]?key[Q']?\s*[:=]\s*[Q']?)([a-zA-Z0-9/+=]{40}) *)
    Cats [Grp 1 (Cats ([LitI (lit "aws"); Opt (Chr (OneOf "_-")); LitI (lit "secret");
                        Opt (Chr (OneOf "_-")); LitI (lit "access");
                        Opt (Chr (OneOf "_-")); LitI (lit "key")] ++ assign_prefix));
          Grp 2 (Rep 40 (Chr (alnum_or "/+=")))];
    (* (AIza[0-9A-Za-z\-_]{35}) *)
    Grp 1 (Cat (Lit (lit "AIza")) (Rep 35 (Chr (alnum_or "-_"))));
    (* (gh[ps]_[a-zA-Z0-9]{36}) *)
    Grp 1 (Cats [Lit (lit "gh"); Chr (OneOf "ps"); Lit (lit "_"); Rep 36 (Chr is_alnum)]);
    (* (eyJ[a-zA-Z0-9_-]*\.eyJ[a-zA-Z0-9_-]*\.[a-zA-Z0-9_-]* ) *)
    Grp 1 (Cats [Lit (lit "eyJ"); Star (Chr (alnum_or "_-")); Lit (lit ".");
                 Lit (lit "eyJ"); Star (Chr (alnum_or "_-")); Lit (lit ".");
                 Star (Chr (alnum_or "_-"))]);
    (* -----BEGIN (RSA |EC |OPENSSH )?PRIVATE KEY----- *)
    Cats [Lit (lit "-----BEGIN ");
          Opt (Grp 1 (Alts [Lit (lit "RSA "); Lit (lit "EC "); Lit (lit "OPENSSH ")]));
          Lit (lit "PRIVATE KEY-----")];
    (* \b(?:4[0-9]{12}(?:[0-9]{3})?|5[1-5][0-9]{14}|3[47][0-9]{13}
          |3(?:0[0-5]|[68][0-9])[0-9]{11}|6(?:011|5[0-9]{2})[0-9]{12})\b *)
    Cats [WordB;
          Alts [Cats [Lit (lit "4"); Rep 12 digit; Opt (Rep 3 digit)];
                Cats [Lit (lit "5"); Chr (in_range "1" "5"); Rep 14 digit];
                Cats [Lit (lit "3"); Chr (OneOf "47"); Rep 13 digit];
                Cats [Lit (lit "3");
                      Alt (Cat (Lit (lit "0")) (Chr (in_range "0" "5")))
                          (Cat (Chr (OneOf "68")) digit);
                      Rep 11 digit];
                Cats [Lit (lit "6");
                      Alt (Lit (lit "011")) (Cat (Lit (lit "5")) (Rep 2 digit));
                      Rep 12 digit]];
          WordB] ].

Definition defaultSensitiveHeaders : list bytes :=
  map lit ["authorization"; "proxy-authorization"; "cookie"; "set-cookie";
           "x-api-key"; "x-auth-token"; "x-access-token"; "api-key"; "apikey"]%string.

Definition defaultRules : list BodyProcessingRule :=
  [ Rule (fun contentType _ _ => isBinaryContent contentType)
         BodyActionSkip (lit "[Binary content - not logged]");
    Rule (fun _ body size => (1024 <? size)%Z && looksLikeBase64 body)
         BodyActionSkip (lit "[Base64 encoded data - not logged]");
    Rule (fun contentType _ size =>
            (500 * 1024 <? size)%Z && (isJSON contentType || isXML contentType))
         BodyActionSummarize [];
    Rule (fun _ _ size => (100 * 1024 <? size)%Z) BodyActionTruncate [] ].

Definition DefaultSanitizerConfig : SanitizerConfig :=
  Config
    (map lit ["password"; "passwd"; "pwd"; "secret"; "token";
              "api_key"; "apikey"; "api_secret"; "access_token"; "refresh_token";
              "client_secret"; "client_id"; "authorization"; "auth";
              "bearer"; "session"; "session_id"; "cookie";
              "ssn"; "social_security"; "passport"; "driver_license";
              "tax_id"; "ein"; "vat";
              "credit_card"; "card_number"; "card_num"; "cvv"; "cvc";
              "pin"; "account_number"; "routing_number"; "iban"; "swift";
              "private_key"; "public_key"; "encryption_key"; "signing_key";
              "certificate"; "cert"; "key"; "pem";
              "stripe_key"; "aws_secret"; "gcp_key"; "azure_key";
              "webhook_secret"; "signing_secret"]%string)
    defaultPatterns
    (lit "***REDACTED***")
    (100 * 1024)
    defaultRules
    HeaderMaskPartial
    defaultSensitiveHeaders.

(** NewSanitizer: a nil config is the default one, and an empty header
    list is replaced by the default list.  A sanitizer is its config. *)
Definition NewSanitizer (config : option SanitizerConfig) : SanitizerConfig :=
  let config := match config with Some c => c | None => DefaultSanitizerConfig end in
  match SensitiveHeaders config with
  | [] => Config (SensitiveFields config) (SensitivePatterns config) (Mask config)
                 (MaxBodySize config) (BodyRules config) (HeaderMaskMode config)
                 defaultSensitiveHeaders
  | _ => config
  end.

(** ** SanitizerNoRegex (the scan-based implementation) *)

Record SanitizerConfigNoRegex : Type := ConfigNoRegex {
  nr_SensitiveFields : list bytes;
  nr_Mask : bytes;
  nr_MaxBodySize : Z;
  nr_BodyRules : list BodyProcessingRule;
  nr_HeaderMaskMode : bytes;
  nr_SensitiveHeaders : list bytes;
  EnableBearerTokenDetection : bool;
  EnableAPIKeyDetection : bool;
  EnableJWTDetection : bool;
  EnableCreditCardDetection : bool;
  EnableEmailDetection : bool;
  EnableAWSKeyDetection : bool
}.

(** s[:n] and s[n:], which panic out of range. *)
Definition slice_to (s : bytes) (n : nat) : outcome bytes :=
  if n <=? length s then Ret (firstn n s) else Panic.

Definition slice_from (s : bytes) (n : nat) : outcome bytes :=
  if n <=? length s then Ret (skipn n s) else Panic.

(** The first index from [i] on where [p] fails or the text ends: the
    loops for i < len(text) && p(text[i]) { i++ }. *)
Definition scan_while (p : ascii -> bool) (text : bytes) (i : nat) : nat :=
  i + length (fst (span p (skipn i text))).

Definition isWhitespace (ch : ascii) : bool :=
  Ascii.eqb ch " " || Ascii.eqb ch tab || Ascii.eqb ch newline || Ascii.eqb ch cr.

Definition isBase64Char (ch : ascii) : bool :=
  is_upper ch || is_lower ch || is_digit ch ||
  Ascii.eqb ch "+" || Ascii.eqb ch "/" || Ascii.eqb ch "=" ||
  Ascii.eqb ch "_" || Ascii.eqb ch "-".

Definition extractDigits (text : bytes) : bytes := filter is_digit text.

Definition formatCard (digits separator : bytes) : bytes :=
  if negb (length digits =? 16) then digits
  else slice digits 0 4 ++ separator ++ slice digits 4 8 ++ separator
       ++ slice digits 8 12 ++ separator ++ slice digits 12 16.

Definition indexCaseInsensitive (text substr : bytes) : option nat :=
  Index (ToLower text) (ToLower substr).

Section SanitizerNoRegex.
Variable ord : range_order.
Variable config : SanitizerConfigNoRegex.

Definition nr_isSensitiveField (fieldName : bytes) : bool :=
  let lower := ToLower fieldName in
  existsb (fun sensitive => Contains lower (ToLower sensitive)) (nr_SensitiveFields config).

(** hideBearerTokens: the token is delimited in the original [text], the
    replacement is made in [result]. *)
Fixpoint bearer_loop (fuel : nat) (text result lower : bytes) (idx : nat) : outcome bytes :=
  match fuel with
  | 0 => OutOfFuel
  | S n =>
      match Index (skipn idx lower) (lit "bearer ") with
      | None => Ret result
      | Some p =>
          let pos := p + idx in
          let tokenStart := pos + 7 in
          let tokenEnd := scan_while (fun c => negb (isWhitespace c)) text tokenStart in
          result' <-
            (if tokenStart <? tokenEnd then
               a <- slice_to result tokenStart ;;
               b <- slice_from result tokenEnd ;;
               Ret (a ++ nr_Mask config ++ b)
             else Ret result) ;;
          let lower' := if tokenStart <? tokenEnd then ToLower result' else lower in
          let idx := pos + 7 in
          if length lower' <=? idx then Ret result'
          else bearer_loop n text result' lower' idx
      end
  end.

Definition hideBearerTokens (fuel : nat) (text : bytes) : outcome bytes :=
  bearer_loop fuel text text (ToLower text) 0.

Definition apiKeyPatterns : list bytes :=
  [lit "api_key:"; lit "apikey="; lit "api-key:"; lit "api_key=";
   jq "'api_key':"; lit "'api_key':"].

Definition api_skip (c : ascii) : bool :=
  isWhitespace c || Ascii.eqb c dquote || Ascii.eqb c squote.

Definition api_stop (c : ascii) : bool :=
  isWhitespace c || Ascii.eqb c dquote || Ascii.eqb c squote
  || Ascii.eqb c "," || Ascii.eqb c "}" || Ascii.eqb c "&".

Fixpoint apikey_loop (fuel : nat) (pattern text result lower : bytes) (idx : nat)
  : outcome (bytes * bytes) :=
  match fuel with
  | 0 => OutOfFuel
  | S n =>
      match Index (skipn idx lower) pattern with
      | None => Ret (result, lower)
      | Some p =>
          let pos := p + idx in
          let valueStart := scan_while api_skip text (pos + length pattern) in
          let valueEnd := scan_while (fun c => negb (api_stop c)) text valueStart in
          let hit := (valueStart <? valueEnd) && (10 <? valueEnd - valueStart) in
          result' <-
            (if hit then
               a <- slice_to result valueStart ;;
               b <- slice_from result valueEnd ;;
               Ret (a ++ nr_Mask config ++ b)
             else Ret result) ;;
          let lower' := if hit then ToLower result' else lower in
          let idx := pos + length pattern in
          if length lower' <=? idx then Ret (result', lower')
          else apikey_loop n pattern text result' lower' idx
      end
  end.

(** hideAPIKeys *)
Definition hideAPIKeys (fuel : nat) (text : bytes) : outcome bytes :=
  r <- fold_left (fun acc pattern =>
                    st <- acc ;;
                    apikey_loop fuel pattern text (fst st) (snd st) 0)
                 apiKeyPatterns (Ret (text, ToLower text)) ;;
  Ret (fst r).

(** The scan of a JWT candidate from [i]: where it ends and how many dots
    it holds. *)
Fixpoint jwt_scan (s : bytes) (tokenEnd dotCount : nat) : nat * nat :=
  match s with
  | ch :: s' =>
      if isBase64Char ch || Ascii.eqb ch "." then
        jwt_scan s' (S tokenEnd) (if Ascii.eqb ch "." then S dotCount else dotCount)
      else (tokenEnd, dotCount)
  | [] => (tokenEnd, dotCount)
  end.

Fixpoint jwt_loop (fuel : nat) (result : bytes) (idx : nat) : outcome bytes :=
  match fuel with
  | 0 => OutOfFuel
  | S n =>
      match Index (skipn idx result) (lit "eyJ") with
      | None => Ret result
      | Some p =>
          let pos := p + idx in
          let (tokenEnd, dotCount) := jwt_scan (skipn (pos + 3) result) (pos + 3) 0 in
          result' <-
            (if (dotCount =? 2) && (50 <? tokenEnd - pos) then
               a <- slice_to result pos ;;
               b <- slice_from result tokenEnd ;;
               Ret (a ++ nr_Mask config ++ b)
             else Ret result) ;;
          let idx := pos + 3 in
          if length result' <=? idx then Ret result'
          else jwt_loop n result' idx
      end
  end.

(** hideJWTTokens *)
Definition hideJWTTokens (fuel : nat) (text : bytes) : outcome bytes :=
  jwt_loop fuel text 0.

(** The scan of an AWS key candidate: at most 20 bytes from [pos]. *)
Fixpoint aws_scan (s : bytes) (pos keyEnd : nat) : nat :=
  match s with
  | ch :: s' =>
      if (keyEnd - pos <? 20) && (is_upper ch || is_digit ch)
      then aws_scan s' pos (S keyEnd) else keyEnd
  | [] => keyEnd
  end.

Fixpoint aws_loop (fuel : nat) (result : bytes) (idx : nat) : outcome bytes :=
  match fuel with
  | 0 => OutOfFuel
  | S n =>
      match Index (skipn idx result) (lit "AKIA") with
      | None => Ret result
      | Some p =>
          let pos := p + idx in
          let keyEnd := aws_scan (skipn (pos + 4) result) pos (pos + 4) in
          result' <-
            (if keyEnd - pos =? 20 then
               a <- slice_to result pos ;;
               b <- slice_from result keyEnd ;;
               Ret (a ++ nr_Mask config ++ b)
             else Ret result) ;;
          let idx := pos + 4 in
          if length result' <=? idx then Ret result'
          else aws_loop n result' idx
      end
  end.

(** hideAWSKeys *)
Definition hideAWSKeys (fuel : nat) (text : bytes) : outcome bytes :=
  aws_loop fuel text 0.

Definition looksLikeCreditCard (digits : bytes) : bool :=
  if (length digits <? 13) || (19 <? length digits) then false
  else HasPrefix digits (lit "4") || HasPrefix digits (lit "5") || HasPrefix digits (lit "3").

Definition replaceCreditCardInText (text cardDigits : bytes) : bytes :=
  fold_left (fun result pattern =>
               if Contains result pattern then ReplaceAll result pattern (nr_Mask config)
               else result)
            [cardDigits; formatCard cardDigits (lit "-"); formatCard cardDigits (lit " ")]
            text.

(** hideCreditCards: i runs below len(digits)-12 and length from 13 to 19
    while i+length <= len(digits). *)
Definition hideCreditCards (text : bytes) : bytes :=
  let digits := extractDigits text in
  fold_left (fun result i =>
    fold_left (fun result length_ =>
      if i + length_ <=? length digits then
        let cardNum := slice digits i (i + length_) in
        if looksLikeCreditCard cardNum then replaceCreditCardInText result cardNum
        else result
      else result)
      (seq 13 7) result)
    (seq 0 (length digits - 12)) text.

(** sanitizeText *)
Definition nr_sanitizeText (fuel : nat) (text : bytes) : outcome bytes :=
  result <- (if EnableBearerTokenDetection config then hideBearerTokens fuel text else Ret text) ;;
  result <- (if EnableAPIKeyDetection config then hideAPIKeys fuel result else Ret result) ;;
  result <- (if EnableJWTDetection config then hideJWTTokens fuel result else Ret result) ;;
  let result := if EnableCreditCardDetection config then hideCreditCards result else result in
  if EnableAWSKeyDetection config then hideAWSKeys fuel result else Ret result.

(** sanitizeValue *)
Fixpoint nr_sanitizeValue (fuel : nat) (nested : bytes -> outcome bytes) (value : JValue)
  : outcome JValue :=
  match value with
  | JObject v =>
      entries <-
        mapM (fun '(key, val) =>
                x <- (if nr_isSensitiveField key then Ret (JString (nr_Mask config))
                      else nr_sanitizeValue fuel nested val) ;;
                Ret (key, x)) v ;;
      Ret (JObject (map_assign [] (ro_visit ord _ entries)))
  | JArray v =>
      result <- mapM (fun val => nr_sanitizeValue fuel nested val) v ;;
      Ret (JArray result)
  | JString v =>
      if looksLikeJSON v then s <- nested v ;; Ret (JString s)
      else s <- nr_sanitizeText fuel v ;; Ret (JString s)
  | _ => Ret value
  end.

(** sanitizeJSON *)
Fixpoint nr_sanitizeJSON (fuel : nat) (body : bytes) : outcome bytes :=
  match fuel with
  | 0 => OutOfFuel
  | S n =>
      match Unmarshal body with
      | None => nr_sanitizeText (S n) body
      | Some data =>
          sanitized <- nr_sanitizeValue (S n) (nr_sanitizeJSON n) data ;;
          match MarshalIndent sanitized with
          | None => nr_sanitizeText (S n) body
          | Some result => Ret result
          end
      end
  end.

(** replaceXMLTag: each turn of the loop searches from the start of
    [result] again. *)
Fixpoint replaceXMLTag_loop (fuel : nat) (openTag closeTag result : bytes) : outcome bytes :=
  match fuel with
  | 0 => OutOfFuel
  | S n =>
      match (match Index result openTag with
             | Some i => Some i
             | None => indexCaseInsensitive result openTag
             end) with
      | None => Ret result
      | Some start =>
          match Index (skipn start result) closeTag with
          | None => Ret result
          | Some end_ =>
              beforeValue <- slice_to result (start + length openTag) ;;
              afterValue <- slice_from result (start + end_) ;;
              replaceXMLTag_loop n openTag closeTag (beforeValue ++ nr_Mask config ++ afterValue)
          end
      end
  end.

Definition replaceXMLTag (fuel : nat) (text fieldName : bytes) : outcome bytes :=
  replaceXMLTag_loop fuel (lit "<" ++ fieldName ++ lit ">")
                     (lit "</" ++ fieldName ++ lit ">") text.

Fixpoint replaceXMLAttribute_loop (fuel : nat) (pattern quote result : bytes) : outcome bytes :=
  match fuel with
  | 0 => OutOfFuel
  | S n =>
      match indexCaseInsensitive result pattern with
      | None => Ret result
      | Some start =>
          let valueStart := start + length pattern in
          match Index (skipn valueStart result) quote with
          | None => Ret result
          | Some valueEnd =>
              before <- slice_to result valueStart ;;
              after <- slice_from result (valueStart + valueEnd) ;;
              replaceXMLAttribute_loop n pattern quote (before ++ nr_Mask config ++ after)
          end
      end
  end.

Definition replaceXMLAttribute (fuel : nat) (text fieldName : bytes) : outcome bytes :=
  fold_left (fun acc quote =>
               result <- acc ;;
               replaceXMLAttribute_loop fuel (fieldName ++ lit "=" ++ quote) quote result)
            [[dquote]; [squote]] (Ret text).

(** sanitizeXML *)
Definition nr_sanitizeXML (fuel : nat) (body : bytes) : outcome bytes :=
  result <- fold_left (fun acc field =>
                         result <- acc ;;
                         result <- replaceXMLTag fuel result field ;;
                         replaceXMLAttribute fuel result field)
                      (nr_SensitiveFields config) (Ret body) ;;
  nr_sanitizeText fuel result.

(** sanitizeFormURLEncoded *)
Definition nr_sanitizeFormURLEncoded (fuel : nat) (body : bytes) : outcome bytes :=
  match ParseQuery body with
  | None => nr_sanitizeText fuel body
  | Some values =>
      entries <- mapM (fun kv =>
                         if nr_isSensitiveField (fst kv) then Ret (fst kv, [nr_Mask config])
                         else newVals <- mapM (nr_sanitizeText fuel) (snd kv) ;;
                              Ret (fst kv, newVals))
                      values ;;
      Ret (Encode (map_assign [] (ro_visit ord _ entries)))
  end.

Definition nr_summarizeBody (body contentType : bytes) (size : Z) : bytes :=
  let summary := lit "[Large body - " ++ formatSize size ++ lit "]" in
  if isJSON contentType then
    match Unmarshal body with
    | Some (JObject v) => summary ++ lit " Object with " ++ Sprint_int (Z.of_nat (length v)) ++ lit " keys"
    | Some (JArray v) => summary ++ lit " Array with " ++ Sprint_int (Z.of_nat (length v)) ++ lit " items"
    | _ => summary
    end
  else summary.

Definition nr_truncateBody (again : bytes -> bytes -> outcome bytes)
  (body contentType : bytes) : outcome bytes :=
  let maxSize := nr_MaxBodySize config in
  if (len body <=? maxSize)%Z then again body contentType
  else if (maxSize <? 0)%Z then Panic
  else
    let truncated := firstn (Z.to_nat maxSize) body in
    Ret (truncated ++ newline :: lit "... [truncated, total: " ++ formatSize (len body) ++ lit "]").

Definition nr_sanitizeByFormat (fuel : nat) (body contentType : bytes) : outcome bytes :=
  if isJSON contentType || looksLikeJSON body then nr_sanitizeJSON fuel body
  else if isXML contentType || looksLikeXML body then nr_sanitizeXML fuel body
  else if isFormURLEncoded contentType then nr_sanitizeFormURLEncoded fuel body
  else nr_sanitizeText fuel body.

Fixpoint nr_applyRules (again : bytes -> bytes -> outcome bytes) (fuel : nat)
  (rules : list BodyProcessingRule) (body contentType : bytes) : outcome bytes :=
  match rules with
  | [] => nr_sanitizeByFormat fuel body contentType
  | rule :: rest =>
      if Condition rule contentType body (len body) then
        if bytes_eqb (Action rule) BodyActionSkip then
          if negb (bytes_eqb (Message rule) []) then Ret (Message rule)
          else Ret (lit "[Body not logged]")
        else if bytes_eqb (Action rule) BodyActionSummarize then
          Ret (nr_summarizeBody body contentType (len body))
        else if bytes_eqb (Action rule) BodyActionTruncate then
          nr_truncateBody again body contentType
        else nr_applyRules again fuel rest body contentType
      else nr_applyRules again fuel rest body contentType
  end.

(** SanitizerNoRegex.SanitizeBody *)
Fixpoint nr_SanitizeBody (fuel : nat) (body contentType : bytes) : outcome bytes :=
  match fuel with
  | 0 => OutOfFuel
  | S n =>
      if length body =? 0 then Ret []
      else nr_applyRules (nr_SanitizeBody n) (S n) (nr_BodyRules config) body contentType
  end.

End SanitizerNoRegex.

(** DefaultSanitizerConfigNoRegex *)
Definition DefaultSanitizerConfigNoRegex : SanitizerConfigNoRegex :=
  ConfigNoRegex
    (map lit ["password"; "passwd"; "pwd"; "secret"; "token";
              "api_key"; "apikey"; "api_secret"; "access_token"; "refresh_token";
              "client_secret"; "authorization"; "auth";
              "bearer"; "session"; "session_id"; "cookie";
              "ssn"; "credit_card"; "card_number"; "cvv"; "cvc";
              "private_key"; "encryption_key"]%string)
    (lit "***REDACTED***")
    (100 * 1024)
    [ Rule (fun contentType _ _ => isBinaryContent contentType)
           BodyActionSkip (lit "[Binary content - not logged]");
      Rule (fun _ body size => (1024 <? size)%Z && looksLikeBase64 body)
           BodyActionSkip (lit "[Base64 encoded data - not logged]");
      Rule (fun _ _ size => (100 * 1024 <? size)%Z) BodyActionTruncate [] ]
    HeaderMaskPartial
    []
    true true true true false true.

(** NewSanitizerNoRegex *)
Definition NewSanitizerNoRegex (config : option SanitizerConfigNoRegex) : SanitizerConfigNoRegex :=
  match config with Some c => c | None => DefaultSanitizerConfigNoRegex end.

(** ** The methods of the two sanitizers

    *Sanitizer declares SanitizeBody and SanitizeHeaders;
    *SanitizerNoRegex declares SanitizeBody only: no function reads the
    HeaderMaskMode and SensitiveHeaders of its configuration. *)

Record SanitizerMethods : Type := Methods {
  api_SanitizeBody : nat -> bytes -> bytes -> outcome bytes;
  api_SanitizeHeaders : option (gomap (list bytes) -> gomap bytes)
}.

Definition Sanitizer_methods (ord : range_order) (config : SanitizerConfig)
  : SanitizerMethods :=
  Methods (SanitizeBody ord config) (Some (SanitizeHeaders ord config)).

Definition SanitizerNoRegex_methods (ord : range_order) (config : SanitizerConfigNoRegex)
  : SanitizerMethods :=
  Methods (nr_SanitizeBody ord config) None.

(** ** LoggingRoundTripper (the transport interceptor)

    An io.ReadCloser is the list of what its Read calls return, data or an
    error, until end of file.  A Logger is the list of entries written to
    it.  The wrapped transport is a function of the request it is handed. *)

Inductive chunk : Type :=
| Data (b : bytes)
| ReadError.

Definition reader := list chunk.

(** io.ReadAll: the data read, whether an error stopped the reading, and
    the reader afterwards. *)
Fixpoint ReadAll (r : reader) : bytes * bool * reader :=
  match r with
  | [] => ([], false, [])
  | Data b :: r' => let '(d, e, r'') := ReadAll r' in (b ++ d, e, r'')
  | ReadError :: r' => ([], true, r')
  end.

(** What a consumer of the stream gets: the bytes, and whether they end in
    an error. *)
Definition stream_content (r : option reader) : bytes * bool :=
  match r with
  | None => ([], false)
  | Some r => let '(d, e, _) := ReadAll r in (d, e)
  end.

(** io.NopCloser(bytes.NewBuffer(b)) *)
Definition NewBuffer (b : bytes) : reader := [Data b].

Record URL : Type := MkURL {
  Scheme : bytes;
  UHost : bytes;
  Path : bytes;
  RawQuery : bytes;
  Fragment : bytes
}.

Definition Header := gomap (list bytes).

(** Header.Get for a key in canonical form. *)
Definition Header_Get (h : Header) (key : bytes) : bytes :=
  match map_get key h with
  | Some (v :: _) => v
  | _ => []
  end.

Record Request : Type := MkRequest {
  Method : bytes;
  ReqURL : URL;
  Host : bytes;
  ReqHeader : Header;
  ReqBody : option reader
}.

Record Response : Type := MkResponse {
  StatusCode : Z;
  Status : bytes;
  ContentLength : Z;
  RespHeader : Header;
  RespBody : option reader
}.

(** An error value, by its message. *)
Definition error := bytes.

Definition RoundTripper := Request -> option Response * option error.

Inductive field : Type :=
| FString (s : bytes)
| FInt (n : Z)
| FHeaders (h : gomap bytes).

Inductive level : Type := LDebug | LInfo | LError.

Definition log_entry : Type := level * bytes * list (bytes * field).

Record LoggingConfig : Type := MkLoggingConfig {
  HasLogger : bool;
  LSanitizerConfig : option SanitizerConfig;
  LogRequestBody : bool;
  LogResponseBody : bool;
  LogHeaders : bool;
  ShouldLog : option (Request -> bool);
  ShouldLogBody : option (Request -> bytes -> Z -> bool);
  Verbose : bool
}.

Record LoggingRoundTripper : Type := MkLRT {
  next : RoundTripper;
  logger : bool;
  sanitizer : SanitizerConfig;
  lconfig : LoggingConfig
}.

(** NewLoggingRoundTripper, for a transport that is not nil. *)
Definition NewLoggingRoundTripper (next : RoundTripper) (config : option LoggingConfig)
  : LoggingRoundTripper :=
  let config := match config with
                | Some c => c
                | None => MkLoggingConfig false None true true true None None false
                end in
  MkLRT next (HasLogger config) (NewSanitizer (LSanitizerConfig config)) config.

(** What RoundTrip returns, the request as the wrapped transport received
    it, and the entries logged. *)
Record Exchange : Type := MkExchange {
  ex_resp : option Response;
  ex_err : option error;
  ex_sent : Request;
  ex_log : list log_entry
}.

Section Interceptor.
Variable ord : range_order.
(** URL.String of net/url and the elapsed time in milliseconds. *)
Variable URL_String : URL -> bytes.
Variable duration_ms : Z.
Variable l : LoggingRoundTripper.

(** readAndRestoreBody: the bytes read and the stream left in place. *)
Definition readAndRestoreBody (body : option reader) : bytes * option reader :=
  match body with
  | None => ([], None)
  | Some r =>
      let '(bodyBytes, err, r') := ReadAll r in
      if err then ([], Some r')
      else (bodyBytes, Some (NewBuffer bodyBytes))
  end.

(** sanitizeQuery *)
Definition sanitizeQuery (rawQuery : bytes) : bytes :=
  match ParseQuery rawQuery with
  | None => rawQuery
  | Some values =>
      Encode (map_assign []
                (map (fun kv =>
                        (fst kv, if isSensitiveField (sanitizer l) (fst kv)
                                 then [Mask (sanitizer l)] else snd kv))
                     (ro_visit ord _ values)))
  end.

(** sanitizeURL *)
Definition sanitizeURL (u : URL) : bytes :=
  match RawQuery u with
  | [] => URL_String u
  | _ =>
      let sanitizedQuery := sanitizeQuery (RawQuery u) in
      let result := Scheme u ++ lit "://" ++ UHost u ++ Path u in
      let result := match sanitizedQuery with
                    | [] => result
                    | _ => result ++ lit "?" ++ sanitizedQuery
                    end in
      match Fragment u with
      | [] => result
      | _ => result ++ lit "#" ++ Fragment u
      end
  end.

(** The body field shared by logRequest and logResponse. *)
Definition body_field (fuel : nat) (req : Request) (contentType body : bytes)
  : outcome (list (bytes * field)) :=
  match body with
  | [] => Ret []
  | _ =>
      let shouldLog := match ShouldLogBody (lconfig l) with
                       | Some f => f req contentType (len body)
                       | None => true
                       end in
      if shouldLog then
        sanitized <- SanitizeBody ord (sanitizer l) fuel body contentType ;;
        Ret [(lit "body", FString sanitized)]
      else
        Ret [(lit "body", FString (lit "[Body not logged - size: "
                                        ++ formatSize (len body) ++ lit "]"))]
  end.

(** logRequest: the request with its body stream as left by the call, and
    the entry written. *)
Definition logRequest (fuel : nat) (req : Request) : outcome (Request * list log_entry) :=
  if negb (logger l) then Ret (req, [])
  else
    let fields := [(lit "method", FString (Method req));
                   (lit "url", FString (sanitizeURL (ReqURL req)));
                   (lit "host", FString (Host req))] in
    let fields :=
      if Verbose (lconfig l) then
        fields ++ [(lit "path", FString (Path (ReqURL req)))]
        ++ match RawQuery (ReqURL req) with
           | [] => []
           | q => [(lit "query", FString (sanitizeQuery q))]
           end
      else fields in
    let fields :=
      if LogHeaders (lconfig l) && (0 <? length (ReqHeader req)) then
        fields ++ [(lit "headers", FHeaders (SanitizeHeaders ord (sanitizer l) (ReqHeader req)))]
      else fields in
    match (if LogRequestBody (lconfig l) then ReqBody req else None) with
    | Some _ =>
        let (body, restored) := readAndRestoreBody (ReqBody req) in
        let req' := MkRequest (Method req) (ReqURL req) (Host req) (ReqHeader req) restored in
        bf <- body_field fuel req' (Header_Get (ReqHeader req) (lit "Content-Type")) body ;;
        Ret (req', [(LInfo, lit "→ HTTP Request", fields ++ bf)])
    | None => Ret (req, [(LInfo, lit "→ HTTP Request", fields)])
    end.

(** logResponse *)
Definition logResponse (fuel : nat) (req : Request) (resp : Response)
  : outcome (Response * list log_entry) :=
  if negb (logger l) then Ret (resp, [])
  else
    let fields := [(lit "method", FString (Method req));
                   (lit "url", FString (sanitizeURL (ReqURL req)));
                   (lit "status", FInt (StatusCode resp));
                   (lit "status_text", FString (Status resp));
                   (lit "duration_ms", FInt duration_ms)] in
    let fields :=
      if Verbose (lconfig l) && (0 <? ContentLength resp)%Z then
        fields ++ [(lit "content_length", FString (formatSize (ContentLength resp)))]
      else fields in
    let fields :=
      if LogHeaders (lconfig l) && (0 <? length (RespHeader resp)) then
        fields ++ [(lit "headers", FHeaders (SanitizeHeaders ord (sanitizer l) (RespHeader resp)))]
      else fields in
    let lvl := if (500 <=? StatusCode resp)%Z then LError
               else if (400 <=? StatusCode resp)%Z then LInfo
               else LDebug in
    match (if LogResponseBody (lconfig l) then RespBody resp else None) with
    | Some _ =>
        let (body, restored) := readAndRestoreBody (RespBody resp) in
        let resp' := MkResponse (StatusCode resp) (Status resp) (ContentLength resp)
                                (RespHeader resp) restored in
        bf <- body_field fuel req (Header_Get (RespHeader resp) (lit "Content-Type")) body ;;
        Ret (resp', [(lvl, lit "← HTTP Response", fields ++ bf)])
    | None => Ret (resp, [(lvl, lit "← HTTP Response", fields)])
    end.

(** logError *)
Definition logError (req : Request) (err : error) : list log_entry :=
  if negb (logger l) then []
  else [(LError, lit "✗ HTTP Request Failed",
         [(lit "method", FString (Method req));
          (lit "url", FString (sanitizeURL (ReqURL req)));
          (lit "error", FString err);
          (lit "duration_ms", FInt duration_ms)])].

(** RoundTrip.  A nil response with a nil error is dereferenced by
    logResponse when there is a logger. *)
Definition RoundTrip (fuel : nat) (req : Request) : outcome Exchange :=
  let skip := match ShouldLog (lconfig l) with
              | Some f => negb (f req)
              | None => false
              end in
  if skip then
    let (resp, err) := next l req in Ret (MkExchange resp err req [])
  else
    logged <- logRequest fuel req ;;
    let (req', log1) := logged in
    let (resp, err) := next l req' in
    match err with
    | Some e => Ret (MkExchange None (Some e) req' (log1 ++ logError req' e))
    | None =>
        match resp with
        | Some r =>
            answered <- logResponse fuel req' r ;;
            let (r', log2) := answered in
            Ret (MkExchange (Some r') None req' (log1 ++ log2))
        | None =>
            if logger l then Panic
            else Ret (MkExchange None None req' log1)
        end
    end.

End Interceptor.

Unset Implicit Arguments.
(** ** The other methods of LoggingRoundTripper *)

(** DefaultLoggingConfig: every request is logged; bodies of binary
    content and bodies over 10MB are not. *)
Definition DefaultLoggingConfig : LoggingConfig :=
  MkLoggingConfig true None true true true
    (Some (fun _ => true))
    (Some (fun _ contentType size =>
             if isBinaryContent contentType then false
             else if (10 * 1024 * 1024 <? size)%Z then false
             else true))
    false.

(** WithLogger: a copy of the config with the given logger (nil or not) in
    it, and a new interceptor around the same transport. *)
Definition WithLogger (l : LoggingRoundTripper) (logger : bool) : LoggingRoundTripper :=
  let c := lconfig l in
  NewLoggingRoundTripper (next l)
    (Some (MkLoggingConfig logger (LSanitizerConfig c) (LogRequestBody c)
             (LogResponseBody c) (LogHeaders c) (ShouldLog c) (ShouldLogBody c)
             (Verbose c))).

(** WithoutBodyLogging *)
Definition WithoutBodyLogging (l : LoggingRoundTripper) : LoggingRoundTripper :=
  let c := lconfig l in
  NewLoggingRoundTripper (next l)
    (Some (MkLoggingConfig (HasLogger c) (LSanitizerConfig c) false false
             (LogHeaders c) (ShouldLog c) (ShouldLogBody c) (Verbose c))).

(** ** SimpleLogger

    LogLevel is an int: DEBUG = 0, INFO = 1, ERROR = 2.  The logger writes
    lines; [now] is time.Now() in the layout of the log. *)

Definition LogLevel := Z.
Definition DEBUG : LogLevel := 0%Z.
Definition INFO : LogLevel := 1%Z.
Definition ERROR : LogLevel := 2%Z.

(** fmt's %v of the values that the interceptor logs; a map is printed
    with its keys in increasing order. *)
Definition field_text (f : field) : bytes :=
  match f with
  | FString s => s
  | FInt n => Sprint_int n
  | FHeaders h =>
      lit "map[" ++ Join (map (fun kv => fst kv ++ lit ":" ++ snd kv) h) (lit " ") ++ lit "]"
  end.

(** The loop of SimpleLogger.log over fields[i], fields[i+1]: a last field
    without a partner is not printed. *)
Fixpoint field_pairs (fields : list field) : bytes :=
  match fields with
  | k :: v :: rest => lit " " ++ field_text k ++ lit "=" ++ field_text v ++ field_pairs rest
  | _ => []
  end.

(** SimpleLogger.log: the line handed to Println. *)
Definition SimpleLogger_log (now level msg : bytes) (fields : list field) : bytes :=
  let output := lit "[" ++ now ++ lit "] " ++ level ++ lit ": " ++ msg in
  match fields with
  | [] => output
  | _ => output ++ lit " |" ++ field_pairs fields
  end.

(** SimpleLogger.Debug, Info and Error: the lines written. *)
Definition SimpleLogger_Debug (level : LogLevel) (now msg : bytes) (fields : list field)
  : list bytes :=
  if (level <=? DEBUG)%Z then [SimpleLogger_log now (lit "DEBUG") msg fields] else [].

Definition SimpleLogger_Info (level : LogLevel) (now msg : bytes) (fields : list field)
  : list bytes :=
  if (level <=? INFO)%Z then [SimpleLogger_log now (lit "INFO") msg fields] else [].

Definition SimpleLogger_Error (level : LogLevel) (now msg : bytes) (fields : list field)
  : list bytes :=
  if (level <=? ERROR)%Z then [SimpleLogger_log now (lit "ERROR") msg fields] else [].

(** The variadic arguments of a call of the interceptor to its logger. *)
Definition call_fields (fields : list (bytes * field)) : list field :=
  flat_map (fun kv => [FString (fst kv); snd kv]) fields.

(** What a SimpleLogger writes when the interceptor's logger is one. *)
Definition SimpleLogger_write (level : LogLevel) (now : bytes) (e : log_entry) : list bytes :=
  match e with
  | (LDebug, msg, fields) => SimpleLogger_Debug level now msg (call_fields fields)
  | (LInfo, msg, fields) => SimpleLogger_Info level now msg (call_fields fields)
  | (LError, msg, fields) => SimpleLogger_Error level now msg (call_fields fields)
  end.

(** ** The errors package

    An *AppError is an address in a heap of AppError records; the error
    values of the package (ErrValidation and the others) are allocated
    once, at fixed addresses, and shared by all that use them. *)

Module errors.

Definition ptr := nat.

(** A value of type error: nil, an *AppError, or an error of another
    type, known by its text. *)
Inductive err_value : Type :=
| NilError
| AppErrorAt (p : ptr)
| ForeignError (text : bytes).

Record AppError : Type := MkAppError {
  Code : bytes;
  Message : bytes;
  AppStatusCode : Z;
  Details : option (gomap bytes);
  Err : err_value
}.

Definition heap := list AppError.

Definition deref (h : heap) (p : ptr) : option AppError := nth_error h p.

Fixpoint store (h : heap) (p : ptr) (e : AppError) : heap :=
  match h, p with
  | [], _ => []
  | _ :: t, 0 => e :: t
  | x :: t, S p' => x :: store t p' e
  end.

(** errors.New and errors.Wrap: a new record at the end of the heap. *)
Definition New (code message : bytes) (statusCode : Z) (h : heap) : ptr * heap :=
  (length h, h ++ [MkAppError code message statusCode None NilError]).

Definition Wrap (err : err_value) (code message : bytes) (statusCode : Z) (h : heap)
  : ptr * heap :=
  (length h, h ++ [MkAppError code message statusCode None err]).

(** WithDetails: e.Details = details; return e. *)
Definition WithDetails (e : ptr) (details : gomap bytes) (h : heap) : ptr * heap :=
  match deref h e with
  | Some a =>
      (e, store h e (MkAppError (Code a) (Message a) (AppStatusCode a) (Some details) (Err a)))
  | None => (e, h)
  end.

(** The package's variables, in the order of their declaration. *)
Definition package_errors : heap :=
  map (fun '(code, message, status) => MkAppError (lit code) (lit message) status None NilError)
    [ ("bad_request", "Bad request", 400%Z);
      ("unauthorized", "Unauthorized", 401%Z);
      ("forbidden", "Forbidden", 403%Z);
      ("not_found", "Resource not found", 404%Z);
      ("conflict", "Resource already exists", 409%Z);
      ("validation_error", "Validation failed", 422%Z);
      ("too_many_requests", "Too many requests", 429%Z);
      ("internal_error", "Internal server error", 500%Z);
      ("not_implemented", "Not implemented", 501%Z);
      ("service_unavailable", "Service unavailable", 503%Z) ]%string.

Definition ErrValidation : ptr := 5.

(** AppError.Error; an error wrapped in it is printed by its own Error.
    The fuel bounds the chain of wrapped errors. *)
Fixpoint Error (fuel : nat) (h : heap) (e : ptr) : bytes :=
  match fuel with
  | 0 => []
  | S n =>
      match deref h e with
      | None => []
      | Some a =>
          match Err a with
          | NilError => Message a
          | AppErrorAt p => Message a ++ lit ": " ++ Error n h p
          | ForeignError text => Message a ++ lit ": " ++ text
          end
      end
  end.

(** IsAppError and GetAppError *)
Definition IsAppError (err : err_value) : bool :=
  match err with AppErrorAt _ => true | _ => false end.

Definition GetAppError (err : err_value) (h : heap) : ptr * heap :=
  match err with
  | AppErrorAt p => (p, h)
  | _ => Wrap err (lit "internal_error") (lit "Internal server error") 500 h
  end.

End errors.

(** ** The validator package

    What formatFieldError reads of a validator.FieldError, and what
    validate.Struct answers: nil, the list of the failed fields, or an
    error of another kind. *)

Record FieldError : Type := MkFieldError {
  Field : bytes;
  Tag : bytes;
  Param : bytes
}.

Inductive struct_result : Type :=
| StructValid
| ValidationErrors (l : list FieldError)
| InvalidValidationError (text : bytes).

(** formatFieldError *)
Definition formatFieldError (e : FieldError) : bytes :=
  let tag := Tag e in
  if bytes_eqb tag (lit "required") then Field e ++ lit " is required"
  else if bytes_eqb tag (lit "email") then Field e ++ lit " must be a valid email address"
  else if bytes_eqb tag (lit "min") then
    Field e ++ lit " must be at least " ++ Param e ++ lit " characters long"
  else if bytes_eqb tag (lit "max") then
    Field e ++ lit " must be at most " ++ Param e ++ lit " characters long"
  else if bytes_eqb tag (lit "gt") then Field e ++ lit " must be greater than " ++ Param e
  else if bytes_eqb tag (lit "gte") then
    Field e ++ lit " must be greater than or equal to " ++ Param e
  else if bytes_eqb tag (lit "lt") then Field e ++ lit " must be less than " ++ Param e
  else if bytes_eqb tag (lit "lte") then
    Field e ++ lit " must be less than or equal to " ++ Param e
  else if bytes_eqb tag (lit "oneof") then
    Field e ++ lit " must be one of [" ++ Param e ++ lit "]"
  else if bytes_eqb tag (lit "url") then Field e ++ lit " must be a valid URL"
  else if bytes_eqb tag (lit "uuid") then Field e ++ lit " must be a valid UUID"
  else Field e ++ lit " failed on " ++ tag ++ lit " validation".

(** The details that formatValidationError collects: details[field] is
    assigned for each error in turn. *)
Definition validation_details (validationErrors : list FieldError) : gomap bytes :=
  map_assign [] (map (fun e => (ToLower (Field e), formatFieldError e)) validationErrors).

(** formatValidationError *)
Definition formatValidationError (err : struct_result) (h : errors.heap)
  : errors.err_value * errors.heap :=
  match err with
  | ValidationErrors validationErrors =>
      let (p, h') :=
        errors.WithDetails errors.ErrValidation (validation_details validationErrors) h in
      (errors.AppErrorAt p, h')
  | InvalidValidationError text =>
      let (p, h') :=
        errors.Wrap (errors.ForeignError text) (lit "validation_error")
                    (lit "Validation failed") 400 h in
      (errors.AppErrorAt p, h')
  | StructValid =>
      let (p, h') :=
        errors.Wrap errors.NilError (lit "validation_error") (lit "Validation failed") 400 h in
      (errors.AppErrorAt p, h')
  end.

(** Validate, given what validate.Struct answered. *)
Definition Validate (answer : struct_result) (h : errors.heap)
  : errors.err_value * errors.heap :=
  match answer with
  | StructValid => (errors.NilError, h)
  | _ => formatValidationError answer h
  end.

(** * Properties *)

Unset Implicit Arguments.

(** ** Bytes and key order *)

Lemma code_inj (a b : ascii) : code a = code b -> a = b.
Proof.
  unfold code; intro H.
  rewrite <- (ascii_N_embedding a), <- (ascii_N_embedding b).
  now rewrite H.
Qed.

Lemma bytes_eqb_eq (a b : bytes) : bytes_eqb a b = true <-> a = b.
Proof.
  revert b; induction a as [|x a IH]; intros [|y b]; simpl; split;
    try easy; intro H.
  - apply andb_true_iff in H as [Hx Hr].
    apply Ascii.eqb_eq in Hx; apply IH in Hr; now subst.
  - injection H as -> ->. rewrite Ascii.eqb_refl. now apply IH.
Qed.

Lemma bytes_eqb_refl (a : bytes) : bytes_eqb a a = true.
Proof. now apply bytes_eqb_eq. Qed.

Lemma bytes_eqb_neq (a b : bytes) : bytes_eqb a b = false <-> a <> b.
Proof.
  split.
  - intros H ->. now rewrite bytes_eqb_refl in H.
  - intro H. destruct (bytes_eqb a b) eqn:E; [|reflexivity].
    apply bytes_eqb_eq in E; contradiction.
Qed.

Lemma bytes_cmp_eq (a b : bytes) : bytes_cmp a b = Eq -> a = b.
Proof.
  revert b; induction a as [|x a IH]; intros [|y b]; simpl; try easy.
  destruct (N.compare (code x) (code y)) eqn:E; try easy.
  intro H. apply N.compare_eq in E. apply code_inj in E.
  f_equal; auto.
Qed.

Lemma bytes_cmp_refl (a : bytes) : bytes_cmp a a = Eq.
Proof.
  induction a as [|x a IH]; simpl; [reflexivity|].
  now rewrite N.compare_refl.
Qed.

Lemma bytes_cmp_antisym (a b : bytes) : bytes_cmp b a = CompOpp (bytes_cmp a b).
Proof.
  revert b; induction a as [|x a IH]; intros [|y b]; simpl; try reflexivity.
  rewrite (N.compare_antisym (code x) (code y)).
  destruct (N.compare (code x) (code y)); simpl; auto.
Qed.

Lemma bytes_cmp_lt_trans (a b c : bytes) :
  bytes_cmp a b = Lt -> bytes_cmp b c = Lt -> bytes_cmp a c = Lt.
Proof.
  revert b c; induction a as [|x a IH]; intros [|y b] [|z c]; simpl; try easy.
  destruct (N.compare (code x) (code y)) eqn:E1;
    destruct (N.compare (code y) (code z)) eqn:E2; try easy; intros H1 H2.
  - apply N.compare_eq in E1, E2. rewrite E1, E2, N.compare_refl. eauto.
  - apply N.compare_eq in E1. now rewrite E1, E2.
  - apply N.compare_eq in E2. now rewrite <- E2, E1.
  - rewrite N.compare_lt_iff in E1, E2.
    assert (E : (code x ?= code z)%N = Lt) by (apply N.compare_lt_iff; lia).
    now rewrite E.
Qed.

Lemma bytes_cmp_gt_lt (a b : bytes) : bytes_cmp a b = Gt -> bytes_cmp b a = Lt.
Proof. intro H. now rewrite bytes_cmp_antisym, H. Qed.

Lemma bytes_cmp_lt_gt (a b : bytes) : bytes_cmp a b = Lt -> bytes_cmp b a = Gt.
Proof. intro H. now rewrite bytes_cmp_antisym, H. Qed.

Lemma bytes_cmp_neq (a b : bytes) : a <> b -> bytes_cmp a b <> Eq.
Proof. intros H E. now apply bytes_cmp_eq in E. Qed.

(** ** Go maps *)

Section GoMapFacts.
Variable V : Type.
Implicit Types (m : gomap V) (k : bytes) (v : V).

Lemma map_get_set_same k v m : map_get k (map_set k v m) = Some v.
Proof.
  induction m as [|[k' v'] t IH]; simpl.
  - now rewrite bytes_eqb_refl.
  - destruct (bytes_cmp k k') eqn:E; simpl; rewrite ?bytes_eqb_refl; auto.
    destruct (bytes_eqb k k') eqn:E'; auto.
    apply bytes_eqb_eq in E'; subst. now rewrite bytes_cmp_refl in E.
Qed.

Lemma map_get_set_other k k' v m :
  k <> k' -> map_get k (map_set k' v m) = map_get k m.
Proof.
  intro Hne. apply bytes_eqb_neq in Hne.
  induction m as [|[k0 v0] t IH]; simpl.
  - now rewrite Hne.
  - destruct (bytes_cmp k' k0) eqn:E; simpl.
    + apply bytes_cmp_eq in E; subst. now rewrite Hne.
    + now rewrite Hne.
    + now rewrite IH.
Qed.

Ltac cmp_norm :=
  repeat match goal with
         | H : bytes_cmp ?a ?b = Eq |- _ => apply bytes_cmp_eq in H; subst
         | H : bytes_cmp ?a ?a = Lt |- _ => rewrite bytes_cmp_refl in H; discriminate
         | H : bytes_cmp ?a ?a = Gt |- _ => rewrite bytes_cmp_refl in H; discriminate
         | H : bytes_cmp ?a ?b = Gt |- _ => apply bytes_cmp_gt_lt in H
         | H : ?a <> ?a |- _ => now destruct H
         end.

Ltac cmp_step :=
  match goal with
  | |- context [bytes_cmp ?a ?a] => rewrite (bytes_cmp_refl a)
  | H : bytes_cmp ?a ?b = Lt |- context [bytes_cmp ?a ?b] => rewrite H
  | H : bytes_cmp ?b ?a = Lt |- context [bytes_cmp ?a ?b] =>
      rewrite (bytes_cmp_lt_gt _ _ H)
  | H1 : bytes_cmp ?a ?b = Lt, H2 : bytes_cmp ?b ?c = Lt |- context [bytes_cmp ?a ?c] =>
      rewrite (bytes_cmp_lt_trans _ _ _ H1 H2)
  | H1 : bytes_cmp ?a ?b = Lt, H2 : bytes_cmp ?b ?c = Lt |- context [bytes_cmp ?c ?a] =>
      rewrite (bytes_cmp_lt_gt _ _ (bytes_cmp_lt_trans _ _ _ H1 H2))
  | |- context [bytes_cmp ?a ?b] =>
      let E := fresh "E" in destruct (bytes_cmp a b) eqn:E; cmp_norm
  end.

Lemma map_set_comm k1 k2 v1 v2 m :
  k1 <> k2 ->
  map_set k1 v1 (map_set k2 v2 m) = map_set k2 v2 (map_set k1 v1 m).
Proof.
  intro Hne.
  induction m as [|[k0 v0] t IH]; simpl; repeat (cmp_step; simpl); try reflexivity;
    try congruence.
Qed.

Lemma map_assign_cons m kv l :
  map_assign m (kv :: l) = map_assign (map_set (fst kv) (snd kv) m) l.
Proof. reflexivity. Qed.

(** The order of assignments to distinct keys does not matter. *)
Lemma map_assign_perm l l' :
  Permutation l l' -> NoDup (map fst l) ->
  forall m, map_assign m l = map_assign m l'.
Proof.
  induction 1 as [|x l l' HP IH|x y l|l l' l'' HP1 IH1 HP2 IH2]; intros ND m.
  - reflexivity.
  - rewrite !map_assign_cons. apply IH. now inversion ND.
  - rewrite !map_assign_cons. f_equal. apply map_set_comm.
    simpl in ND. inversion ND as [|? ? Hin _]; subst.
    intro E. apply Hin. left. now symmetry.
  - rewrite IH1 by assumption. apply IH2.
    eapply Permutation_NoDup; [|exact ND]. now apply Permutation_map.
Qed.

Lemma map_get_assign_notin k l :
  ~ In k (map fst l) -> forall m, map_get k (map_assign m l) = map_get k m.
Proof.
  induction l as [|[k' v'] l IH]; intros Hn m; [reflexivity|].
  rewrite map_assign_cons, IH; simpl in *; [|tauto].
  apply map_get_set_other. intro E; apply Hn; left; now symmetry.
Qed.

Lemma map_get_assign_in k v l :
  NoDup (map fst l) -> In (k, v) l ->
  forall m, map_get k (map_assign m l) = Some v.
Proof.
  induction l as [|[k' v'] l IH]; intros ND Hin m; [easy|].
  simpl in ND. inversion ND as [|? ? Hn ND']; subst.
  rewrite map_assign_cons. destruct Hin as [E|Hin].
  - injection E as -> ->. simpl.
    rewrite map_get_assign_notin by assumption. apply map_get_set_same.
  - now apply IH.
Qed.

(** Strictly increasing keys *)

Definition key_below k m : Prop :=
  match m with
  | [] => True
  | (k', _) :: _ => bytes_cmp k k' = Lt
  end.

Lemma keys_sorted_cons k v m :
  keys_sorted ((k, v) :: m) = true <-> key_below k m /\ keys_sorted m = true.
Proof.
  destruct m as [|[k' v'] t]; simpl; [tauto|].
  destruct (bytes_cmp k k'); split; intros; try tauto; try easy.
  all: destruct H; easy.
Qed.

Lemma map_set_sorted k v m :
  keys_sorted m = true -> keys_sorted (map_set k v m) = true.
Proof.
  induction m as [|[k' v'] t IH]; intro Hs; [reflexivity|].
  apply keys_sorted_cons in Hs as [Hb Ht].
  simpl. destruct (bytes_cmp k k') eqn:E; cmp_norm.
  - apply keys_sorted_cons. auto.
  - apply keys_sorted_cons. split; [exact E|].
    apply keys_sorted_cons. auto.
  - apply keys_sorted_cons. split; [|auto].
    destruct t as [|[k'' v''] t']; simpl in *; [assumption|].
    destruct (bytes_cmp k k''); simpl; assumption.
Qed.

Lemma map_assign_sorted l :
  forall m, keys_sorted m = true -> keys_sorted (map_assign m l) = true.
Proof.
  induction l as [|kv l IH]; intros m Hs; [exact Hs|].
  rewrite map_assign_cons. apply IH. now apply map_set_sorted.
Qed.

Lemma key_below_all k m :
  key_below k m -> keys_sorted m = true ->
  forall k', In k' (map fst m) -> bytes_cmp k k' = Lt.
Proof.
  induction m as [|[k0 v0] t IH]; intros Hb Hs k' Hin; [easy|].
  apply keys_sorted_cons in Hs as [Hb' Hs'].
  simpl in Hin, Hb. destruct Hin as [<-|Hin]; [exact Hb|].
  apply IH; auto.
  destruct t as [|[k1 v1] t']; simpl in *; [easy|].
  eapply bytes_cmp_lt_trans; eauto.
Qed.

Lemma keys_sorted_NoDup m : keys_sorted m = true -> NoDup (map fst m).
Proof.
  induction m as [|[k v] t IH]; intro Hs; [constructor|].
  apply keys_sorted_cons in Hs as [Hb Hs].
  simpl. constructor; [|auto].
  intro Hin. pose proof (@key_below_all k t Hb Hs k Hin) as E.
  now rewrite bytes_cmp_refl in E.
Qed.

Lemma map_set_In k v m k' v' :
  In (k', v') (map_set k v m) -> (k', v') = (k, v) \/ In (k', v') m.
Proof.
  induction m as [|[k0 v0] t IH]; simpl.
  - intros [H|[]]; left; now symmetry.
  - destruct (bytes_cmp k k0); simpl; intros [H|H]; auto;
      try (left; now symmetry).
    destruct (IH H); auto.
Qed.

Lemma map_assign_In l :
  forall m k v, In (k, v) (map_assign m l) -> In (k, v) m \/ In (k, v) l.
Proof.
  induction l as [|[k0 v0] l IH]; intros m k v Hin; [auto|].
  rewrite map_assign_cons in Hin. apply IH in Hin as [Hin|Hin]; [|simpl; auto].
  apply map_set_In in Hin as [E|Hin]; simpl; auto.
Qed.

End GoMapFacts.

(** ** Headers *)

Lemma isSensitiveHeader_iff (config : SanitizerConfig) (name : bytes) :
  isSensitiveHeader config name = true <->
  exists s, In s (SensitiveHeaders config) /\ ToLower s = ToLower name.
Proof.
  unfold isSensitiveHeader. rewrite existsb_exists.
  split; intros (s & Hin & H); exists s; split; auto; now apply bytes_eqb_eq.
Qed.

Lemma SanitizeHeaders_get (ord : range_order) (config : SanitizerConfig)
  (headers : gomap (list bytes)) (key : bytes) (values : list bytes) :
  NoDup (map fst headers) -> In (key, values) headers ->
  map_get key (SanitizeHeaders ord config headers) =
  Some (if isSensitiveHeader config key then maskHeaderValue config values
        else Join values (lit ", ")).
Proof.
  intros ND Hin. unfold SanitizeHeaders.
  set (f := fun kv : bytes * list bytes =>
              (fst kv, if isSensitiveHeader config (fst kv)
                       then maskHeaderValue config (snd kv)
                       else Join (snd kv) (lit ", "))).
  pose proof (ro_perm ord _ headers) as HP.
  apply map_get_assign_in.
  - rewrite map_map. simpl.
    eapply Permutation_NoDup; [|exact ND].
    apply Permutation_sym. now apply Permutation_map.
  - change (In (f (key, values)) (map f (ro_visit ord _ headers))).
    apply in_map. eapply Permutation_in; [apply Permutation_sym; exact HP|exact Hin].
Qed.

Lemma firstn_mid_lastn (s : bytes) :
  8 < length s ->
  exists mid, s = firstn 4 s ++ mid ++ skipn (length s - 4) s
              /\ length (firstn 4 s) = 4 /\ length (skipn (length s - 4) s) = 4.
Proof.
  intro H. exists (firstn (length s - 8) (skipn 4 s)).
  split; [|split].
  - rewrite <- (firstn_skipn 4 s) at 1. f_equal.
    rewrite <- (firstn_skipn (length s - 8) (skipn 4 s)) at 1. f_equal.
    rewrite skipn_skipn. f_equal. lia.
  - rewrite length_firstn. lia.
  - rewrite length_skipn. lia.
Qed.

(** C7 (as amended): for a header map with one entry per key, a header
    whose name equals a configured sensitive name up to ASCII case gets,
    when it has at least one value, the mask alone under full mode, the
    mask alone under partial mode when the joined value has at most 8
    bytes, and otherwise the first 4 bytes, the mask and the last 4 bytes;
    with no value at all it gets the empty string.  Any other header keeps
    its values joined by a comma and a space. *)
Theorem SanitizeHeaders_masking (ord : range_order) (config : SanitizerConfig)
  (headers : gomap (list bytes)) (key : bytes) (values : list bytes) :
  NoDup (map fst headers) -> In (key, values) headers ->
  let value := Join values (lit ", ") in
  let out := map_get key (SanitizeHeaders ord config headers) in
  ((exists s, In s (SensitiveHeaders config) /\ ToLower s = ToLower key) ->
     (values = [] -> out = Some []) /\
     (values <> [] -> HeaderMaskMode config = HeaderMaskFull ->
        out = Some (Mask config)) /\
     (values <> [] -> HeaderMaskMode config = HeaderMaskPartial ->
        length value <= 8 -> out = Some (Mask config)) /\
     (values <> [] -> HeaderMaskMode config = HeaderMaskPartial ->
        8 < length value ->
        exists pre mid suf,
          value = pre ++ mid ++ suf /\ length pre = 4 /\ length suf = 4 /\
          out = Some (pre ++ Mask config ++ suf))) /\
  ((forall s, In s (SensitiveHeaders config) -> ToLower s <> ToLower key) ->
     out = Some value).
Proof.
  intros ND Hin value out. unfold out.
  rewrite (SanitizeHeaders_get ord config headers key values ND Hin).
  split.
  - intro Hs. apply isSensitiveHeader_iff in Hs. rewrite Hs.
    unfold maskHeaderValue. fold value.
    repeat split.
    + now intros ->.
    + intros Hv Hm. destruct values; [easy|].
      now rewrite Hm, bytes_eqb_refl.
    + intros Hv Hm Hl. destruct values; [easy|].
      rewrite Hm. change (bytes_eqb HeaderMaskPartial HeaderMaskFull) with false.
      apply Nat.leb_le in Hl. now rewrite Hl.
    + intros Hv Hm Hl. destruct values as [|v0 vs]; [easy|].
      rewrite Hm. change (bytes_eqb HeaderMaskPartial HeaderMaskFull) with false.
      assert (E : (length value <=? 8) = false) by (apply Nat.leb_gt; lia).
      rewrite E.
      destruct (firstn_mid_lastn value Hl) as (mid & Hsplit & H4 & H4').
      exists (firstn 4 value), mid, (skipn (length value - 4) value). auto.
  - intro Hn.
    destruct (isSensitiveHeader config key) eqn:E; [|reflexivity].
    apply isSensitiveHeader_iff in E as (s & Hs & Hl). now apply Hn in Hs.
Qed.

Definition scenario5_headers : gomap (list bytes) :=
  [(lit "Accept", [lit "text/html"; lit "*/*"]);
   (lit "Authorization", [lit "Bearer sk-1234567890abcdefghijklmnop"])].

Lemma SanitizeHeaders_masking_witness :
  NoDup (map fst scenario5_headers) /\
  In (lit "Authorization", [lit "Bearer sk-1234567890abcdefghijklmnop"]) scenario5_headers /\
  (exists pre mid suf,
     lit "Bearer sk-1234567890abcdefghijklmnop" = pre ++ mid ++ suf /\
     length pre = 4 /\ length suf = 4 /\
     map_get (lit "Authorization")
       (SanitizeHeaders in_reverse_order DefaultSanitizerConfig scenario5_headers)
     = Some (pre ++ lit "***REDACTED***" ++ suf)).
Proof.
  assert (ND : NoDup (map fst scenario5_headers)).
  { repeat constructor; simpl; intuition discriminate. }
  assert (Hin : In (lit "Authorization", [lit "Bearer sk-1234567890abcdefghijklmnop"])
                   scenario5_headers) by (right; left; reflexivity).
  split; [exact ND|split; [exact Hin|]].
  destruct (SanitizeHeaders_masking in_reverse_order DefaultSanitizerConfig
              scenario5_headers _ _ ND Hin) as [Hs _].
  destruct Hs as (_ & _ & _ & H).
  - exists (lit "authorization"). split; [left; reflexivity|reflexivity].
  - apply H; [discriminate|reflexivity|simpl; lia].
Defined.

(** C7 as stated fails: the header Authorization is sensitive and its
    (empty) joined value has at most 8 bytes, yet with an empty value list
    the result is the empty string and not the mask. *)
Lemma SanitizeHeaders_no_values :
  isSensitiveHeader DefaultSanitizerConfig (lit "Authorization") = true /\
  (length (Join [] (lit ", ")) <=? 8) = true /\
  map_get (lit "Authorization")
    (SanitizeHeaders in_key_order DefaultSanitizerConfig [(lit "Authorization", [])])
  = Some [] /\
  bytes_eqb [] (Mask DefaultSanitizerConfig) = false.
Proof. repeat split. Qed.

(** ** The rule loop and the format dispatch *)

Lemma applyRules_no_match (ord : range_order) (config : SanitizerConfig)
  (again : bytes -> bytes -> outcome bytes) (fuel : nat)
  (rules : list BodyProcessingRule) (body contentType : bytes) :
  (forall r, In r rules -> Condition r contentType body (len body) = false) ->
  applyRules ord config again fuel rules body contentType
  = sanitizeByFormat ord config fuel body contentType.
Proof.
  induction rules as [|r rules IH]; intro H; simpl; [reflexivity|].
  rewrite (H r) by now left. apply IH. intros r' Hr'. apply H. now right.
Qed.

Lemma SanitizeBody_no_match (ord : range_order) (config : SanitizerConfig)
  (fuel : nat) (body contentType : bytes) :
  body <> [] ->
  (forall r, In r (BodyRules config) -> Condition r contentType body (len body) = false) ->
  SanitizeBody ord config (S fuel) body contentType
  = sanitizeByFormat ord config (S fuel) body contentType.
Proof.
  intros Hb H. simpl. destruct body as [|c body]; [easy|].
  simpl length. cbv beta iota. simpl (S _ =? 0).
  now apply applyRules_no_match.
Qed.

(** C4 (as amended): when no body rule's condition holds, a declared JSON
    content type sends the body to the JSON sanitizer whatever its bytes,
    and so does a body that looks like JSON whatever the declared type; a
    declared XML type reaches the XML sanitizer only for a body that does
    not look like JSON; a declared form or multipart type reaches its
    sanitizer only for a body that looks like neither JSON nor XML. *)
Theorem SanitizeBody_dispatch (ord : range_order) (config : SanitizerConfig)
  (fuel : nat) (body contentType : bytes) :
  body <> [] ->
  (forall r, In r (BodyRules config) -> Condition r contentType body (len body) = false) ->
  let out := SanitizeBody ord config (S fuel) body contentType in
  (isJSON contentType = true -> out = sanitizeJSON ord config (S fuel) body) /\
  (looksLikeJSON body = true -> out = sanitizeJSON ord config (S fuel) body) /\
  (isJSON contentType = false -> looksLikeJSON body = false ->
     (isXML contentType = true -> out = Ret (sanitizeXML config body)) /\
     (looksLikeXML body = true -> out = Ret (sanitizeXML config body)) /\
     (isXML contentType = false -> looksLikeXML body = false ->
        (isFormURLEncoded contentType = true ->
           out = Ret (sanitizeFormURLEncoded ord config body)) /\
        (isFormURLEncoded contentType = false -> isMultipartForm contentType = true ->
           out = Ret (sanitizeMultipartForm config body)) /\
        (isFormURLEncoded contentType = false -> isMultipartForm contentType = false ->
           out = Ret (sanitizeText config body)))).
Proof.
  intros Hb Hr out. unfold out.
  rewrite (SanitizeBody_no_match ord config fuel body contentType Hb Hr).
  unfold sanitizeByFormat.
  split; [intros ->; reflexivity|].
  split; [intros ->; now rewrite orb_true_r|].
  intros -> ->. simpl orb.
  split; [intros ->; reflexivity|].
  split; [intros ->; now rewrite orb_true_r|].
  intros -> ->. simpl orb.
  split; [intros ->; reflexivity|].
  split; intros -> ->; reflexivity.
Qed.

Lemma SanitizeBody_dispatch_witness :
  lit "<a>1</a>" <> [] /\
  (forall r, In r (BodyRules DefaultSanitizerConfig) ->
     Condition r (lit "application/xml") (lit "<a>1</a>") (len (lit "<a>1</a>")) = false) /\
  SanitizeBody in_key_order DefaultSanitizerConfig 1 (lit "<a>1</a>") (lit "application/xml")
  = Ret (sanitizeXML DefaultSanitizerConfig (lit "<a>1</a>")).
Proof.
  assert (Hb : lit "<a>1</a>" <> []) by discriminate.
  assert (Hr : forall r, In r (BodyRules DefaultSanitizerConfig) ->
     Condition r (lit "application/xml") (lit "<a>1</a>") (len (lit "<a>1</a>")) = false).
  { intros r [<-|[<-|[<-|[<-|[]]]]]; reflexivity. }
  split; [exact Hb|split; [exact Hr|]].
  destruct (SanitizeBody_dispatch in_key_order DefaultSanitizerConfig 0
              (lit "<a>1</a>") (lit "application/xml") Hb Hr) as (_ & _ & H).
  destruct H as (H & _); reflexivity || (apply H; reflexivity).
Defined.

(** C4 as stated fails: under the declared type application/xml no rule
    fires on the body [1], yet the body is re-indented by the JSON
    sanitizer; the XML sanitizer would have left it as it is. *)
Lemma SanitizeBody_sniffs_before_declared_xml :
  isXML (lit "application/xml") = true /\
  forallb (fun r => negb (Condition r (lit "application/xml") (lit "[1]") (len (lit "[1]"))))
          (BodyRules DefaultSanitizerConfig) = true /\
  SanitizeBody in_key_order DefaultSanitizerConfig 1 (lit "[1]") (lit "application/xml")
  = Ret (lit "[" ++ newline :: lit "  1" ++ newline :: lit "]") /\
  sanitizeXML DefaultSanitizerConfig (lit "[1]") = lit "[1]".
Proof. repeat split. Qed.

(** ** Rules whose action is sanitize, truncation, and re-entry *)

(** A rule set that shows JSON bodies and skips everything else longer
    than ten bytes. *)
Definition json_first_config : SanitizerConfig :=
  Config (SensitiveFields DefaultSanitizerConfig) defaultPatterns
         (lit "***REDACTED***") (100 * 1024)
         [ Rule (fun contentType _ _ => isJSON contentType) BodyActionSanitize [];
           Rule (fun _ _ size => (10 <? size)%Z) BodyActionSkip [] ]
         HeaderMaskPartial defaultSensitiveHeaders.

(** C5 on the code: the first rule whose condition holds asks for
    sanitize, yet the body is skipped by the rule after it. *)
Lemma sanitize_rule_does_not_stop_the_loop :
  Condition (hd (Rule (fun _ _ _ => false) [] []) (BodyRules json_first_config))
            (lit "application/json") (jq "{'user':'ann'}") (len (jq "{'user':'ann'}")) = true /\
  SanitizeBody in_key_order json_first_config 2 (jq "{'user':'ann'}") (lit "application/json")
  = Ret (lit "[Body not logged]") /\
  sanitizeByFormat in_key_order json_first_config 2 (jq "{'user':'ann'}") (lit "application/json")
  = Ret (marshal 0 (JObject [(lit "user", JString (lit "ann"))])).
Proof. repeat split. Qed.

(** A limit of fifty bytes enforced by a truncate rule. *)
Definition truncating_config (maxBodySize : Z) (threshold : Z) : SanitizerConfig :=
  Config (SensitiveFields DefaultSanitizerConfig) defaultPatterns
         (lit "***REDACTED***") maxBodySize
         [ Rule (fun _ _ size => (threshold <? size)%Z) BodyActionTruncate [] ]
         HeaderMaskPartial defaultSensitiveHeaders.

Definition bearer_body : bytes :=
  lit "Authorization: Bearer sk-1234567890abcdef" ++ repeat " "%char 20.

(** C2 on the code: the body exceeds maxBodySize, and its first
    maxBodySize bytes are written as they are, token included; the pattern
    detector would have masked the token in them. *)
Lemma truncateBody_keeps_the_prefix_raw :
  SanitizeBody in_key_order (truncating_config 50 50) 2 bearer_body (lit "text/plain")
  = Ret (firstn 50 bearer_body ++ newline :: lit "... [truncated, total: 61 bytes]") /\
  Contains (firstn 50 bearer_body) (lit "sk-1234567890abcdef") = true /\
  sanitizeText (truncating_config 50 50) (firstn 50 bearer_body)
  = lit "Authorization: Bearer ***REDACTED***" ++ repeat " "%char 9.
Proof. repeat split. Qed.

(** The scenario of a thousand bytes and a limit of fifty: the fifty bytes
    and, on a line of its own, the notice. *)
Lemma truncateBody_thousand :
  SanitizeBody in_key_order (truncating_config 50 50) 2 (repeat "a"%char 1000) (lit "text/plain")
  = Ret (repeat "a"%char 50 ++ newline :: lit "... [truncated, total: 1000 bytes]").
Proof. vm_compute. reflexivity. Qed.

(** C10 on the code: a truncate rule that fires on a body within
    maxBodySize sends truncateBody back to SanitizeBody, which meets the
    same rule again; no amount of fuel gives a result. *)
Lemma truncateBody_reenters_forever (fuel : nat) :
  SanitizeBody in_key_order (truncating_config 100 10) fuel
               (lit "hello, world") (lit "text/plain") = OutOfFuel.
Proof.
  induction fuel as [|n IH]; [reflexivity|].
  change (SanitizeBody in_key_order (truncating_config 100 10) (S n)
            (lit "hello, world") (lit "text/plain"))
    with (SanitizeBody in_key_order (truncating_config 100 10) n
            (lit "hello, world") (lit "text/plain")).
  exact IH.
Qed.

(** A negative maxBodySize makes body[:maxSize] panic. *)
Lemma truncateBody_negative_limit_panics :
  SanitizeBody in_key_order (truncating_config (-1) 10) 2
               (lit "hello, world") (lit "text/plain") = Panic.
Proof. reflexivity. Qed.

(** The default rules with maxBodySize raised to 10MB: a text body of
    102401 blanks is within the limit and over the truncate rule's
    threshold. *)
Definition raised_limit_config : SanitizerConfig :=
  Config (SensitiveFields DefaultSanitizerConfig) defaultPatterns
         (lit "***REDACTED***") (10 * 1024 * 1024) defaultRules
         HeaderMaskPartial defaultSensitiveHeaders.

Definition blanks : bytes := repeat " "%char (100 * 1024 + 1).

Lemma raised_limit_step (again : bytes -> bytes -> outcome bytes) (fuel : nat) :
  applyRules in_key_order raised_limit_config again fuel
             (BodyRules raised_limit_config) blanks (lit "text/plain")
  = again blanks (lit "text/plain").
Proof.
  assert (H1 : isBinaryContent (lit "text/plain") = false) by reflexivity.
  assert (H2 : looksLikeBase64 blanks = false) by (vm_compute; reflexivity).
  assert (H3 : len blanks = 102401%Z) by (vm_compute; reflexivity).
  assert (H4 : isJSON (lit "text/plain") || isXML (lit "text/plain") = false) by reflexivity.
  unfold raised_limit_config, BodyRules, defaultRules, applyRules, Condition, Action.
  rewrite H1, H2, H3, H4. simpl andb.
  cbv [truncateBody MaxBodySize]. rewrite H3. reflexivity.
Qed.

(** C6 on the code: under the default rules with maxBodySize raised to
    10MB, SanitizeBody gives no result on a text body of 102401 bytes,
    whatever the fuel: the call never comes back to its caller. *)
Lemma raised_limit_reenters_forever (fuel : nat) :
  SanitizeBody in_key_order raised_limit_config fuel blanks (lit "text/plain") = OutOfFuel.
Proof.
  induction fuel as [|n IH]; [reflexivity|].
  cbn [SanitizeBody].
  assert (H : (length blanks =? 0) = false) by (vm_compute; reflexivity).
  rewrite H, raised_limit_step. exact IH.
Qed.

(** ** Induction over JSON values *)

Section JValueInd.
Variable P : JValue -> Prop.
Hypothesis HNull : P JNull.
Hypothesis HBool : forall b, P (JBool b).
Hypothesis HNumber : forall l, P (JNumber l).
Hypothesis HString : forall s, P (JString s).
Hypothesis HArray : forall l, Forall P l -> P (JArray l).
Hypothesis HObject : forall m, Forall (fun kv => P (snd kv)) m -> P (JObject m).

Fixpoint JValue_ind (v : JValue) : P v :=
  match v with
  | JNull => HNull
  | JBool b => HBool b
  | JNumber l => HNumber l
  | JString s => HString s
  | JArray l =>
      HArray l ((fix all (l : list JValue) : Forall P l :=
                   match l with
                   | [] => Forall_nil P
                   | x :: l' => Forall_cons x (JValue_ind x) (all l')
                   end) l)
  | JObject m =>
      HObject m ((fix all (l : list (bytes * JValue)) : Forall (fun kv => P (snd kv)) l :=
                    match l with
                    | [] => Forall_nil _
                    | kv :: l' => Forall_cons kv (JValue_ind (snd kv)) (all l')
                    end) m)
  end.

End JValueInd.

Lemma wf_value_array (l : list JValue) :
  wf_value (JArray l) = true <-> Forall (fun x => wf_value x = true) l.
Proof. simpl. rewrite forallb_forall, Forall_forall. reflexivity. Qed.

Lemma wf_value_object (m : list (bytes * JValue)) :
  wf_value (JObject m) = true <->
  keys_sorted m = true /\ Forall (fun kv => wf_value (snd kv) = true) m.
Proof.
  simpl. rewrite andb_true_iff, forallb_forall, Forall_forall.
  split; intros [Hs H]; split; auto; intros [k x] Hin; apply (H (k, x) Hin).
Qed.

(** ** Loops over slices *)

Lemma mapM_ext (A B : Type) (f g : A -> outcome B) (l : list A) :
  (forall x, In x l -> f x = g x) -> mapM f l = mapM g l.
Proof.
  induction l as [|x l IH]; intro H; simpl; [reflexivity|].
  rewrite (H x) by now left. rewrite IH; [reflexivity|].
  intros y Hy. apply H. now right.
Qed.

Lemma mapM_Ret_Forall2 (A B : Type) (f : A -> outcome B) (l : list A) (r : list B) :
  mapM f l = Ret r -> Forall2 (fun x y => f x = Ret y) l r.
Proof.
  revert r; induction l as [|x l IH]; intros r; simpl.
  - intro H; injection H as <-. constructor.
  - destruct (f x) as [y| |] eqn:E; simpl; try discriminate.
    destruct (mapM f l) as [ys| |]; simpl; try discriminate.
    intro H; injection H as <-. constructor; auto.
Qed.

Lemma mapM_entries_keys (V W : Type) (g : bytes -> V -> outcome W)
  (l : list (bytes * V)) (r : list (bytes * W)) :
  mapM (fun '(key, val) => x <- g key val ;; Ret (key, x)) l = Ret r ->
  map fst r = map fst l.
Proof.
  intro H. apply mapM_Ret_Forall2 in H.
  induction H as [|[k v] [k' w] l r Hx _ IH]; [reflexivity|].
  simpl. rewrite IH. f_equal.
  destruct (g k v); simpl in Hx; try discriminate. now injection Hx as <- _.
Qed.

(** ** Unmarshal builds well-formed values *)

Lemma parse_elems_Forall (P : JValue -> Prop) (pv : parser) :
  (forall s v r, pv s = Some (v, r) -> P v) ->
  forall k s vs r, parse_elems pv k s = Some (vs, r) -> Forall P vs.
Proof.
  intros Hpv. induction k as [|k IH]; intros s vs r; simpl; [discriminate|].
  destruct (pv s) as [[v r1]|] eqn:E; [|discriminate].
  destruct (skip_ws r1) as [|c r2]; [discriminate|].
  destruct (Ascii.eqb c ",").
  - destruct (parse_elems pv k r2) as [[vs' r3]|] eqn:E'; [|discriminate].
    intro H; injection H as <- <-. constructor; eauto.
  - destruct (Ascii.eqb c "]"); [|discriminate].
    intro H; injection H as <- <-. constructor; eauto.
Qed.

Lemma parse_members_Forall (P : JValue -> Prop) (pv : parser) :
  (forall s v r, pv s = Some (v, r) -> P v) ->
  forall k s ms r, parse_members pv k s = Some (ms, r) ->
                   Forall (fun kv => P (snd kv)) ms.
Proof.
  intros Hpv. induction k as [|k IH]; intros s ms r; simpl; [discriminate|].
  destruct (skip_ws s) as [|q s1]; [discriminate|].
  destruct (Ascii.eqb q dquote); [|discriminate].
  destruct (parse_string s1) as [[key s2]|]; [|discriminate].
  destruct (skip_ws s2) as [|c s3]; [discriminate|].
  destruct (Ascii.eqb c ":"); [|discriminate].
  destruct (pv s3) as [[v r1]|] eqn:E; [|discriminate].
  destruct (skip_ws r1) as [|c' r2]; [discriminate|].
  destruct (Ascii.eqb c' ",").
  - destruct (parse_members pv k r2) as [[ms' r3]|] eqn:E'; [|discriminate].
    intro H; injection H as <- <-. constructor; eauto.
  - destruct (Ascii.eqb c' "}"); [|discriminate].
    intro H; injection H as <- <-. constructor; eauto.
Qed.

Lemma map_assign_Forall (V : Type) (P : V -> Prop) (l : list (bytes * V)) :
  Forall (fun kv => P (snd kv)) l ->
  Forall (fun kv => P (snd kv)) (map_assign [] l).
Proof.
  intro H. apply Forall_forall. intros [k v] Hin.
  apply map_assign_In in Hin as [[]|Hin].
  rewrite Forall_forall in H. apply (H (k, v) Hin).
Qed.

Lemma span_forallb (p : ascii -> bool) (s : bytes) :
  forallb p (fst (span p s)) = true.
Proof.
  induction s as [|c s IH]; simpl; [reflexivity|].
  destruct (p c) eqn:E; [|reflexivity].
  destruct (span p s) as [a b]. simpl in *. now rewrite E.
Qed.

Lemma parse_number_valid (s l r : bytes) :
  parse_number s = Some (l, r) ->
  is_number l && forallb is_num_char l = true.
Proof.
  unfold parse_number. pose proof (span_forallb is_num_char s) as Hs.
  destruct (span is_num_char s) as [l' r'].
  destruct (is_number l') eqn:E; [|discriminate].
  intro H; injection H as <- _. simpl in Hs. now rewrite E, Hs.
Qed.

Lemma parse_word_wf (w : bytes) (v : JValue) (s : bytes) (v' : JValue) (r : bytes) :
  wf_value v = true -> parse_word w v s = Some (v', r) -> wf_value v' = true.
Proof.
  unfold parse_word. destruct (HasPrefix s w); [|discriminate].
  intros Hv H; now injection H as <- _.
Qed.

Lemma parse_value_wf (ok : bytes -> bool) (fuel : nat) :
  forall d s v r, parse_value ok fuel d s = Some (v, r) -> wf_value v = true.
Proof.
  induction fuel as [|n IH]; intros d s v r; cbn [parse_value]; [discriminate|].
  destruct (skip_ws s) as [|c t]; [discriminate|].
  destruct (Ascii.eqb c "{").
  { destruct (maxNestingDepth <=? d)%N; [discriminate|].
    destruct (skip_ws t) as [|c' t']; [discriminate|].
    destruct (Ascii.eqb c' "}"); [intro H; now injection H as <- _|].
    destruct (parse_members (parse_value ok n (d + 1)) n t) as [[ms r']|] eqn:E;
      [|discriminate].
    intro H; injection H as <- _.
    apply wf_value_object. split.
    - now apply map_assign_sorted.
    - apply (map_assign_Forall JValue (fun x => wf_value x = true)).
      apply (parse_members_Forall (fun x => wf_value x = true) _ (IH _) _ _ _ _ E). }
  destruct (Ascii.eqb c "[").
  { destruct (maxNestingDepth <=? d)%N; [discriminate|].
    destruct (skip_ws t) as [|c' t']; [discriminate|].
    destruct (Ascii.eqb c' "]"); [intro H; now injection H as <- _|].
    destruct (parse_elems (parse_value ok n (d + 1)) n t) as [[vs r']|] eqn:E;
      [|discriminate].
    intro H; injection H as <- _.
    apply wf_value_array.
    apply (parse_elems_Forall (fun x => wf_value x = true) _ (IH _) _ _ _ _ E). }
  destruct (Ascii.eqb c dquote).
  { destruct (parse_string t) as [[str r']|]; [|discriminate].
    intro H; now injection H as <- _. }
  destruct (Ascii.eqb c "t"); [now apply parse_word_wf|].
  destruct (Ascii.eqb c "f"); [now apply parse_word_wf|].
  destruct (Ascii.eqb c "n"); [now apply parse_word_wf|].
  destruct (parse_number (c :: t)) as [[l r']|] eqn:E; [|discriminate].
  destruct (ok l); [|discriminate].
  intro H; injection H as <- _. simpl. eapply parse_number_valid; eauto.
Qed.

Lemma parse_text_Some (ok : bytes -> bool) (data : bytes) (v : JValue) :
  parse_text ok data = Some v ->
  exists r, parse_value ok (S (length data)) 0 data = Some (v, r).
Proof.
  unfold parse_text.
  destruct (parse_value ok (S (length data)) 0 data) as [[v' r]|]; [|discriminate].
  destruct (skip_ws r); [|discriminate].
  intro H; injection H as <-. eauto.
Qed.

Lemma Unmarshal_wf (data : bytes) (v : JValue) :
  Unmarshal data = Some v -> wf_value v = true.
Proof.
  intro H. apply parse_text_Some in H as [r H]. eapply parse_value_wf; eauto.
Qed.

(** ** The order of map iteration does not show in the result *)

Lemma map_assign_visit (ord : range_order) (V : Type) (l : list (bytes * V)) :
  NoDup (map fst l) -> map_assign [] (ro_visit ord V l) = map_assign [] l.
Proof.
  intro ND. symmetry. apply map_assign_perm; [|exact ND].
  apply Permutation_sym. apply ro_perm.
Qed.

Lemma sanitizeValue_order (o1 o2 : range_order) (config : SanitizerConfig)
  (n1 n2 : bytes -> outcome bytes) :
  (forall s, n1 s = n2 s) ->
  forall v, wf_value v = true ->
            sanitizeValue o1 config n1 v = sanitizeValue o2 config n2 v.
Proof.
  intro Hn. induction v as [| | | s |l IH|m IH] using JValue_ind; intro Hwf;
    try reflexivity.
  - simpl. now rewrite Hn.
  - apply wf_value_array in Hwf. simpl.
    rewrite (mapM_ext _ _ (fun val => sanitizeValue o1 config n1 val)
                          (fun val => sanitizeValue o2 config n2 val)); [reflexivity|].
    intros x Hx. rewrite Forall_forall in IH, Hwf. auto.
  - apply wf_value_object in Hwf as [Hs Hwf].
    pose (F := fun (o : range_order) (n : bytes -> outcome bytes)
                   (kv : bytes * JValue) =>
                 let '(key, val) := kv in
                 x <- (if isSensitiveField config key then Ret (JString (Mask config))
                       else sanitizeValue o config n val) ;;
                 Ret (key, x)).
    change (entries <- mapM (F o1 n1) m ;;
            Ret (JObject (map_assign [] (ro_visit o1 _ entries)))
            = entries <- mapM (F o2 n2) m ;;
              Ret (JObject (map_assign [] (ro_visit o2 _ entries)))).
    rewrite (mapM_ext _ _ (F o1 n1) (F o2 n2) m).
    2:{ intros [k x] Hx. rewrite Forall_forall in IH, Hwf.
        pose proof (IH (k, x) Hx (Hwf (k, x) Hx)) as H. cbn [snd] in H.
        unfold F. cbv beta iota. now rewrite H. }
    destruct (mapM (F o2 n2) m) as [entries| |] eqn:E; try reflexivity.
    simpl. apply mapM_entries_keys
      with (g := fun key val => if isSensitiveField config key
                                then Ret (JString (Mask config))
                                else sanitizeValue o2 config n2 val) in E.
    assert (ND : NoDup (map fst entries)).
    { rewrite E. now apply keys_sorted_NoDup. }
    now rewrite !map_assign_visit.
Qed.

Lemma sanitizeJSON_order (o1 o2 : range_order) (config : SanitizerConfig) (fuel : nat) :
  forall body, sanitizeJSON o1 config fuel body = sanitizeJSON o2 config fuel body.
Proof.
  induction fuel as [|n IH]; intro body; simpl; [reflexivity|].
  destruct (Unmarshal body) as [data|] eqn:E; [|reflexivity].
  rewrite (sanitizeValue_order o1 o2 config _ _ IH data (Unmarshal_wf _ _ E)).
  reflexivity.
Qed.

Lemma values_add_sorted (m : Values) (k v : bytes) :
  keys_sorted m = true -> keys_sorted (values_add m k v) = true.
Proof. apply map_set_sorted. Qed.

Lemma parse_pieces_sorted (pieces : list bytes) :
  forall m err m' err',
    keys_sorted m = true -> parse_pieces pieces m err = (m', err') ->
    keys_sorted m' = true.
Proof.
  induction pieces as [|p ps IH]; intros m err m' err' Hs; simpl.
  - intro H; now injection H as <- _.
  - destruct (Contains p _); [now apply IH|].
    destruct p as [|c p']; [now apply IH|].
    destruct (cut_eq (c :: p')) as [k v].
    destruct (QueryUnescape k) as [key|]; [|now apply IH].
    destruct (QueryUnescape v) as [value|]; [|now apply IH].
    apply IH. now apply values_add_sorted.
Qed.

Lemma ParseQuery_sorted (query : bytes) (values : Values) :
  ParseQuery query = Some values -> keys_sorted values = true.
Proof.
  unfold ParseQuery.
  destruct (parse_pieces (Split query "&") [] false) as [m [|]] eqn:E; [discriminate|].
  intro H; injection H as <-. eapply parse_pieces_sorted; [|exact E]. reflexivity.
Qed.

Lemma sanitizeFormURLEncoded_order (o1 o2 : range_order) (config : SanitizerConfig)
  (body : bytes) :
  sanitizeFormURLEncoded o1 config body = sanitizeFormURLEncoded o2 config body.
Proof.
  unfold sanitizeFormURLEncoded.
  destruct (ParseQuery body) as [values|] eqn:E; [|reflexivity].
  apply ParseQuery_sorted, keys_sorted_NoDup in E.
  assert (P : forall o : range_order,
             Permutation
               (map (fun kv : bytes * list bytes =>
                       (fst kv, if isSensitiveField config (fst kv) then [Mask config]
                                else map (sanitizeText config) (snd kv)))
                    (ro_visit o _ values))
               (map (fun kv : bytes * list bytes =>
                       (fst kv, if isSensitiveField config (fst kv) then [Mask config]
                                else map (sanitizeText config) (snd kv)))
                    values)).
  { intro o. apply Permutation_map, ro_perm. }
  f_equal.
  rewrite <- (map_assign_perm _ _ _ (Permutation_sym (P o1))),
          <- (map_assign_perm _ _ _ (Permutation_sym (P o2)));
    try reflexivity; rewrite map_map; exact E.
Qed.

Lemma sanitizeByFormat_order (o1 o2 : range_order) (config : SanitizerConfig)
  (fuel : nat) (body contentType : bytes) :
  sanitizeByFormat o1 config fuel body contentType
  = sanitizeByFormat o2 config fuel body contentType.
Proof.
  unfold sanitizeByFormat.
  rewrite (sanitizeJSON_order o1 o2), (sanitizeFormURLEncoded_order o1 o2).
  reflexivity.
Qed.

Lemma applyRules_order (o1 o2 : range_order) (config : SanitizerConfig)
  (a1 a2 : bytes -> bytes -> outcome bytes) (fuel : nat)
  (rules : list BodyProcessingRule) (body contentType : bytes) :
  (forall b c, a1 b c = a2 b c) ->
  applyRules o1 config a1 fuel rules body contentType
  = applyRules o2 config a2 fuel rules body contentType.
Proof.
  intro Ha. induction rules as [|r rules IH]; simpl.
  - apply sanitizeByFormat_order.
  - rewrite IH. unfold truncateBody. now rewrite Ha.
Qed.

(** C9: SanitizeBody's result does not depend on the order in which the
    runtime visits the entries of the maps it ranges over, so two
    applications to the same body, content type and configuration give the
    same bytes (or fail alike), whatever the two iteration orders. *)
Theorem SanitizeBody_deterministic (o1 o2 : range_order) (config : SanitizerConfig)
  (fuel : nat) (body contentType : bytes) :
  SanitizeBody o1 config fuel body contentType
  = SanitizeBody o2 config fuel body contentType.
Proof.
  revert body contentType. induction fuel as [|n IH]; intros body contentType; simpl;
    [reflexivity|].
  destruct (length body =? 0); [reflexivity|].
  now apply applyRules_order.
Qed.

(** ** MarshalIndent writes text that Unmarshal accepts *)

Ltac ascii_cases c :=
  let b0 := fresh in let b1 := fresh in let b2 := fresh in let b3 := fresh in
  let b4 := fresh in let b5 := fresh in let b6 := fresh in let b7 := fresh in
  destruct c as [b0 b1 b2 b3 b4 b5 b6 b7];
  destruct b0, b1, b2, b3, b4, b5, b6, b7.

Lemma parse_string_escape (s rest : bytes) :
  exists s', parse_string (flat_map escape_char s ++ dquote :: rest) = Some (s', rest).
Proof.
  induction s as [|c s [s' IH]].
  - exists []. reflexivity.
  - cbn [flat_map]. rewrite <- app_assoc.
    ascii_cases c; cbn -[flat_map parse_string app];
      cbn [app parse_string]; cbn -[flat_map parse_string app];
      rewrite IH; eexists; reflexivity.
Qed.

(** The fuel a value takes to parse: one for each value in it. *)
Fixpoint vsize (v : JValue) : nat :=
  match v with
  | JArray l => S (list_sum (map (fun x => vsize x) l))
  | JObject m => S (list_sum (map (fun '(_, x) => vsize x) m))
  | _ => 1
  end.

(** What may follow a value in the text: no byte that a number could
    absorb. *)
Definition follow_ok (rest : bytes) : Prop :=
  match rest with
  | [] => True
  | c :: _ => is_num_char c = false
  end.

Lemma skip_ws_app (w s : bytes) :
  forallb is_ws w = true -> skip_ws (w ++ s) = skip_ws s.
Proof.
  induction w as [|c w IH]; simpl; [reflexivity|].
  intro H. apply andb_true_iff in H as [-> Hw]. auto.
Qed.

Lemma indent_ws (d : nat) : forallb is_ws (indent d) = true.
Proof. induction d as [|d IH]; [reflexivity|exact IH]. Qed.

Lemma skip_ws_line (d : nat) (s : bytes) :
  skip_ws (newline :: indent d ++ s) = skip_ws s.
Proof.
  change (newline :: indent d ++ s) with ((newline :: indent d) ++ s).
  apply skip_ws_app. simpl. apply indent_ws.
Qed.

Lemma parse_value_skip (ok : bytes -> bool) (n : nat) (dp : N) (s : bytes) :
  parse_value ok n dp s = parse_value ok n dp (skip_ws s).
Proof.
  destruct n as [|n]; [reflexivity|]. cbn [parse_value].
  assert (E : skip_ws (skip_ws s) = skip_ws s).
  { induction s as [|c s IH]; simpl; [reflexivity|].
    destruct (is_ws c) eqn:Ec; [exact IH|]. simpl. now rewrite Ec. }
  now rewrite E.
Qed.

Lemma span_exact (p : ascii -> bool) (l rest : bytes) :
  forallb p l = true ->
  match rest with [] => True | c :: _ => p c = false end ->
  span p (l ++ rest) = (l, rest).
Proof.
  intros Hl Hr. induction l as [|c l IH]; simpl in *.
  - destruct rest as [|c rest]; [reflexivity|]. simpl. now rewrite Hr.
  - apply andb_true_iff in Hl as [-> Hl]. now rewrite IH.
Qed.

Lemma parse_number_exact (l rest : bytes) :
  is_number l = true -> forallb is_num_char l = true -> follow_ok rest ->
  parse_number (l ++ rest) = Some (l, rest).
Proof.
  intros Hn Hl Hr. unfold parse_number.
  rewrite (span_exact is_num_char l rest Hl Hr). now rewrite Hn.
Qed.

Lemma is_number_head (l : bytes) :
  is_number l = true ->
  exists c t, l = c :: t /\ (c = "-"%char \/ is_digit c = true).
Proof.
  destruct l as [|c t]; [discriminate|]. intro H. exists c, t. split; [reflexivity|].
  unfold is_number in H. destruct (Ascii.eqb c "-") eqn:E.
  - left. now apply Ascii.eqb_eq.
  - right. destruct (Ascii.eqb c "0") eqn:E0.
    + apply Ascii.eqb_eq in E0. now subst.
    + destruct (is_digit c); [reflexivity|discriminate].
Qed.

Definition any_number : bytes -> bool := fun _ => true.

Lemma parse_value_number (n : nat) (dp : N) (l rest : bytes) :
  is_number l = true -> forallb is_num_char l = true -> follow_ok rest ->
  parse_value any_number (S n) dp (l ++ rest) = Some (JNumber l, rest).
Proof.
  intros Hn Hl Hr.
  destruct (is_number_head l Hn) as (c & t & -> & Hc).
  pose proof (parse_number_exact (c :: t) rest Hn Hl Hr) as E.
  revert E. cbn [app].
  ascii_cases c; destruct Hc as [Hc|Hc]; try discriminate Hc;
    intro E; cbn -[parse_number N.leb]; now rewrite E.
Qed.

(** The arrays and objects of a value at depth [depth] stay within the
    scanner's limit. *)
Fixpoint nests_within (depth : N) (v : JValue) : bool :=
  match v with
  | JArray l =>
      (depth <? maxNestingDepth)%N && forallb (fun x => nests_within (depth + 1) x) l
  | JObject m =>
      (depth <? maxNestingDepth)%N
      && forallb (fun '(_, x) => nests_within (depth + 1) x) m
  | _ => true
  end.

Lemma nests_within_array (dp : N) (l : list JValue) :
  nests_within dp (JArray l) = true <->
  (dp < maxNestingDepth)%N /\ Forall (fun x => nests_within (dp + 1) x = true) l.
Proof.
  cbn [nests_within]. rewrite andb_true_iff, N.ltb_lt, forallb_forall, Forall_forall.
  reflexivity.
Qed.

Lemma nests_within_object (dp : N) (m : list (bytes * JValue)) :
  nests_within dp (JObject m) = true <->
  (dp < maxNestingDepth)%N /\ Forall (fun kv => nests_within (dp + 1) (snd kv) = true) m.
Proof.
  cbn [nests_within]. rewrite andb_true_iff, N.ltb_lt, forallb_forall, Forall_forall.
  split; intros [Hd H]; split; auto; intros [k x] Hin; apply (H (k, x) Hin).
Qed.

Lemma parse_value_nests (ok : bytes -> bool) (fuel : nat) :
  forall d s v r, parse_value ok fuel d s = Some (v, r) -> nests_within d v = true.
Proof.
  induction fuel as [|n IH]; intros d s v r; cbn [parse_value]; [discriminate|].
  destruct (skip_ws s) as [|c t]; [discriminate|].
  destruct (Ascii.eqb c "{").
  { destruct (maxNestingDepth <=? d)%N eqn:Ed; [discriminate|].
    apply N.leb_gt in Ed.
    destruct (skip_ws t) as [|c' t']; [discriminate|].
    destruct (Ascii.eqb c' "}").
    { intro H; injection H as <- _. apply nests_within_object. split; auto. }
    destruct (parse_members (parse_value ok n (d + 1)) n t) as [[ms r']|] eqn:E;
      [|discriminate].
    intro H; injection H as <- _.
    apply nests_within_object. split; [exact Ed|].
    apply (map_assign_Forall JValue (fun x => nests_within (d + 1) x = true)).
    apply (parse_members_Forall (fun x => nests_within (d + 1) x = true) _ (IH _)
             _ _ _ _ E). }
  destruct (Ascii.eqb c "[").
  { destruct (maxNestingDepth <=? d)%N eqn:Ed; [discriminate|].
    apply N.leb_gt in Ed.
    destruct (skip_ws t) as [|c' t']; [discriminate|].
    destruct (Ascii.eqb c' "]").
    { intro H; injection H as <- _. apply nests_within_array. split; auto. }
    destruct (parse_elems (parse_value ok n (d + 1)) n t) as [[vs r']|] eqn:E;
      [|discriminate].
    intro H; injection H as <- _.
    apply nests_within_array. split; [exact Ed|].
    apply (parse_elems_Forall (fun x => nests_within (d + 1) x = true) _ (IH _)
             _ _ _ _ E). }
  destruct (Ascii.eqb c dquote).
  { destruct (parse_string t) as [[str r']|]; [|discriminate].
    intro H; now injection H as <- _. }
  assert (W : forall w v0, nests_within d v0 = true ->
                           parse_word w v0 (c :: t) = Some (v, r) ->
                           nests_within d v = true).
  { intros w v0 Hv. unfold parse_word. destruct (HasPrefix (c :: t) w); [|discriminate].
    intro H; now injection H as <- _. }
  destruct (Ascii.eqb c "t"); [now apply W|].
  destruct (Ascii.eqb c "f"); [now apply W|].
  destruct (Ascii.eqb c "n"); [now apply W|].
  destruct (parse_number (c :: t)) as [[l r']|]; [|discriminate].
  destruct (ok l); [|discriminate].
  intro H; now injection H as <- _.
Qed.

Lemma Unmarshal_nests (data : bytes) (v : JValue) :
  Unmarshal data = Some v -> nests_within 0 v = true.
Proof.
  intro H. apply parse_text_Some in H as [r H]. eapply parse_value_nests; eauto.
Qed.

Definition parses (v : JValue) : Prop :=
  forall d dp fuel rest,
    vsize v <= fuel -> nests_within dp v = true -> follow_ok rest ->
    exists v', parse_value any_number fuel dp (marshal d v ++ rest) = Some (v', rest).

Lemma vsize_pos (v : JValue) : 1 <= vsize v.
Proof. destruct v; simpl; lia. Qed.

Lemma length_le_vsizes (l : list JValue) :
  length l <= list_sum (map (fun x => vsize x) l).
Proof.
  induction l as [|x l IH]; simpl; [lia|]. pose proof (vsize_pos x). lia.
Qed.

Lemma length_le_vsizes_members (m : list (bytes * JValue)) :
  length m <= list_sum (map (fun '(_, x) => vsize x) m).
Proof.
  induction m as [|[k x] m IH]; simpl; [lia|]. pose proof (vsize_pos x). lia.
Qed.

Lemma marshal_head (d : nat) (v : JValue) :
  wf_value v = true ->
  exists c t, marshal d v = c :: t /\ is_ws c = false
              /\ Ascii.eqb c "]" = false /\ Ascii.eqb c "}" = false.
Proof.
  destruct v as [|[|]|l|s|[|x xs]|[|[k x] ms]]; intro Hwf;
    try (eexists; eexists; split; [reflexivity|repeat split]).
  simpl in Hwf. apply andb_true_iff in Hwf as [Hn _].
  destruct (is_number_head l Hn) as (c & t & -> & Hc).
  exists c, t. split; [reflexivity|].
  destruct Hc as [->|Hc]; [repeat split|].
  revert Hc. ascii_cases c; intro Hc; try discriminate Hc; repeat split.
Qed.

Lemma parse_value_array (ok : bytes -> bool) (n : nat) (dp : N) (t : bytes) :
  (dp < maxNestingDepth)%N ->
  parse_value ok (S n) dp ("["%char :: t) =
  match skip_ws t with
  | c' :: t' =>
      if Ascii.eqb c' "]" then Some (JArray [], t')
      else match parse_elems (parse_value ok n (dp + 1)) n t with
           | Some (vs, r) => Some (JArray vs, r)
           | None => None
           end
  | [] => None
  end.
Proof.
  intro H. apply N.leb_gt in H. cbn -[N.leb maxNestingDepth N.add]. now rewrite H.
Qed.

Lemma parse_value_object (ok : bytes -> bool) (n : nat) (dp : N) (t : bytes) :
  (dp < maxNestingDepth)%N ->
  parse_value ok (S n) dp ("{"%char :: t) =
  match skip_ws t with
  | c' :: t' =>
      if Ascii.eqb c' "}" then Some (JObject [], t')
      else match parse_members (parse_value ok n (dp + 1)) n t with
           | Some (ms, r) => Some (JObject (map_assign [] ms), r)
           | None => None
           end
  | [] => None
  end.
Proof.
  intro H. apply N.leb_gt in H. cbn -[N.leb maxNestingDepth N.add]. now rewrite H.
Qed.

Definition elem_text (d : nat) (y : JValue) : bytes :=
  lit "," ++ newline :: indent (S d) ++ marshal (S d) y.

Definition member_text (d : nat) (kv : bytes * JValue) : bytes :=
  let '(k', y) := kv in
  lit "," ++ newline :: indent (S d) ++ quote_string k' ++ lit ": " ++ marshal (S d) y.

Lemma elems_text_cons (d : nat) (y : JValue) (ys : list JValue) (z : bytes) :
  flat_map (elem_text d) (y :: ys) ++ z
  = ","%char :: newline :: indent (S d) ++ marshal (S d) y ++ flat_map (elem_text d) ys ++ z.
Proof.
  cbn [flat_map]. unfold elem_text at 1. cbn [lit list_ascii_of_string app].
  now rewrite <- !app_assoc.
Qed.

Lemma members_text_cons (d : nat) (k : bytes) (y : JValue)
  (ms : list (bytes * JValue)) (z : bytes) :
  flat_map (member_text d) ((k, y) :: ms) ++ z
  = ","%char :: newline :: indent (S d) ++ dquote :: flat_map escape_char k
    ++ dquote :: ":"%char :: " "%char :: marshal (S d) y ++ flat_map (member_text d) ms ++ z.
Proof.
  cbn [flat_map]. unfold member_text at 1, quote_string.
  cbn [lit list_ascii_of_string app].
  rewrite <- !app_assoc. cbn [app]. rewrite <- !app_assoc. reflexivity.
Qed.

Lemma skip_ws_nonws (c : ascii) (t : bytes) :
  is_ws c = false -> skip_ws (c :: t) = c :: t.
Proof. intro H. simpl. now rewrite H. Qed.

Lemma parse_elems_marshal (d n : nat) (dp : N) (rest : bytes) :
  forall xs x k,
    Forall (fun y => parses y /\ nests_within dp y = true) (x :: xs) ->
    list_sum (map (fun y => vsize y) (x :: xs)) <= n ->
    length (x :: xs) <= k ->
    exists vs,
      parse_elems (parse_value any_number n dp) k
        (newline :: indent (S d) ++ marshal (S d) x
         ++ flat_map (elem_text d) xs ++ newline :: indent d ++ "]"%char :: rest)
      = Some (vs, rest).
Proof.
  induction xs as [|y ys IH]; intros x k HF Hn Hk;
    (destruct k as [|k]; [simpl in Hk; lia|]);
    inversion HF as [|? ? [Hx Nx] HF']; subst;
    cbn [parse_elems];
    rewrite parse_value_skip, skip_ws_line, <- parse_value_skip.
  - destruct (Hx (S d) dp n (newline :: indent d ++ "]"%char :: rest)) as [v' E];
      [simpl in Hn; lia|exact Nx|reflexivity|].
    cbn [flat_map app]. rewrite E, skip_ws_line. cbn. eexists; reflexivity.
  - rewrite elems_text_cons.
    destruct (Hx (S d) dp n (","%char :: newline :: indent (S d) ++ marshal (S d) y
                             ++ flat_map (elem_text d) ys
                             ++ newline :: indent d ++ "]"%char :: rest)) as [v' E];
      [simpl in Hn; lia|exact Nx|reflexivity|].
    rewrite E, (skip_ws_nonws ","%char _ eq_refl). cbv beta iota.
    rewrite Ascii.eqb_refl.
    destruct (IH y k HF') as [vs E'];
      [simpl in Hn |- *; lia|simpl in Hk |- *; lia|].
    rewrite E'. eexists; reflexivity.
Qed.

Lemma skip_ws_ws (c : ascii) (t : bytes) :
  is_ws c = true -> skip_ws (c :: t) = skip_ws t.
Proof. intro H. simpl. now rewrite H. Qed.

Lemma parse_members_marshal (d n : nat) (dp : N) (rest : bytes) :
  forall ms k0 x k,
    Forall (fun kv : bytes * JValue =>
              parses (snd kv) /\ nests_within dp (snd kv) = true) ((k0, x) :: ms) ->
    list_sum (map (fun '(_, y) => vsize y) ((k0, x) :: ms)) <= n ->
    length ((k0, x) :: ms) <= k ->
    exists r,
      parse_members (parse_value any_number n dp) k
        (newline :: indent (S d) ++ dquote :: flat_map escape_char k0
         ++ dquote :: ":"%char :: " "%char :: marshal (S d) x
         ++ flat_map (member_text d) ms ++ newline :: indent d ++ "}"%char :: rest)
      = Some (r, rest).
Proof.
  induction ms as [|[k1 y] ms IH]; intros k0 x k HF Hn Hk;
    (destruct k as [|k]; [simpl in Hk; lia|]);
    inversion HF as [|? ? [Hx Nx] HF']; subst; cbn [snd] in Hx, Nx;
    cbn [parse_members];
    rewrite skip_ws_line, (skip_ws_nonws dquote _ eq_refl); cbv beta iota;
    rewrite Ascii.eqb_refl;
    match goal with
    | |- context [parse_string (flat_map escape_char k0 ++ dquote :: ?R)] =>
        destruct (parse_string_escape k0 R) as [key Ek]; rewrite Ek
    end;
    rewrite (skip_ws_nonws ":"%char _ eq_refl); cbv beta iota;
    rewrite Ascii.eqb_refl;
    rewrite parse_value_skip, (skip_ws_ws " "%char _ eq_refl), <- parse_value_skip.
  - destruct (Hx (S d) dp n (newline :: indent d ++ "}"%char :: rest)) as [v' E];
      [simpl in Hn; lia|exact Nx|reflexivity|].
    cbn [flat_map app]. rewrite E, skip_ws_line. cbn. eexists; reflexivity.
  - rewrite members_text_cons.
    match goal with
    | |- context [parse_value any_number n dp (marshal (S d) x ++ ?R)] =>
        destruct (Hx (S d) dp n R) as [v' E]; [simpl in Hn; lia|exact Nx|reflexivity|]
    end.
    rewrite E, (skip_ws_nonws ","%char _ eq_refl). cbv beta iota.
    rewrite Ascii.eqb_refl.
    destruct (IH k1 y k HF') as [r E'];
      [simpl in Hn |- *; lia|simpl in Hk |- *; lia|].
    rewrite E'. eexists; reflexivity.
Qed.

Lemma marshal_array_text (d : nat) (x : JValue) (xs : list JValue) (rest : bytes) :
  marshal d (JArray (x :: xs)) ++ rest
  = "["%char :: newline :: indent (S d) ++ marshal (S d) x
    ++ flat_map (elem_text d) xs ++ newline :: indent d ++ "]"%char :: rest.
Proof.
  change (marshal d (JArray (x :: xs)))
    with (lit "[" ++ newline :: indent (S d) ++ marshal (S d) x
          ++ flat_map (elem_text d) xs ++ newline :: indent d ++ lit "]").
  cbn [lit list_ascii_of_string app].
  repeat (progress (rewrite <- ?app_assoc; cbn [app])). reflexivity.
Qed.

Lemma marshal_object_text (d : nat) (k : bytes) (x : JValue)
  (ms : list (bytes * JValue)) (rest : bytes) :
  marshal d (JObject ((k, x) :: ms)) ++ rest
  = "{"%char :: newline :: indent (S d) ++ dquote :: flat_map escape_char k
    ++ dquote :: ":"%char :: " "%char :: marshal (S d) x
    ++ flat_map (member_text d) ms ++ newline :: indent d ++ "}"%char :: rest.
Proof.
  change (marshal d (JObject ((k, x) :: ms)))
    with (lit "{" ++ newline :: indent (S d) ++ quote_string k ++ lit ": "
          ++ marshal (S d) x ++ flat_map (member_text d) ms
          ++ newline :: indent d ++ lit "}").
  unfold quote_string. cbn [lit list_ascii_of_string app].
  repeat (progress (rewrite <- ?app_assoc; cbn [app])). reflexivity.
Qed.

(** Every well-formed value parses back from the text marshal writes for
    it, whatever follows that text short of a number byte. *)
Lemma parse_marshal (v : JValue) : wf_value v = true -> parses v.
Proof.
  induction v as [|b|l|s|l IH|m IH] using JValue_ind;
    intros Hwf d dp fuel rest Hf Hd Hr;
    (destruct fuel as [|n]; [simpl in Hf; lia|]).
  - exists JNull. reflexivity.
  - exists (JBool b). destruct b; reflexivity.
  - simpl in Hwf. apply andb_true_iff in Hwf as [Hn Hl].
    eexists. now apply parse_value_number.
  - destruct (parse_string_escape s rest) as [s' E].
    exists (JString s'). cbn [marshal]. unfold quote_string.
    cbn [app]. rewrite <- app_assoc. cbn [app].
    cbn -[parse_string flat_map]. now rewrite E.
  - apply nests_within_array in Hd as [Hd Hnest].
    destruct l as [|x xs].
    { exists (JArray []). cbn [marshal lit list_ascii_of_string app].
      now rewrite parse_value_array. }
    apply wf_value_array in Hwf.
    assert (HF : Forall (fun y => parses y /\ nests_within (dp + 1) y = true) (x :: xs)).
    { rewrite Forall_forall in IH, Hwf, Hnest |- *. intros y Hy. split; auto. }
    simpl in Hf.
    destruct (parse_elems_marshal d n (dp + 1) rest xs x n HF) as [vs E].
    { simpl. lia. }
    { pose proof (length_le_vsizes (x :: xs)). simpl in *. lia. }
    rewrite marshal_array_text, (parse_value_array _ _ _ _ Hd), E, skip_ws_line.
    inversion Hwf as [|? ? Hx _]; subst.
    destruct (marshal_head (S d) x Hx) as (c & t & Hm & Hws & Hb & _).
    rewrite Hm. cbn [app]. rewrite (skip_ws_nonws c _ Hws), Hb.
    eexists; reflexivity.
  - apply nests_within_object in Hd as [Hd Hnest].
    destruct m as [|[k x] ms].
    { exists (JObject []). cbn [marshal lit list_ascii_of_string app].
      now rewrite parse_value_object. }
    apply wf_value_object in Hwf as [_ Hwf].
    assert (HF : Forall (fun kv : bytes * JValue =>
                           parses (snd kv) /\ nests_within (dp + 1) (snd kv) = true)
                        ((k, x) :: ms)).
    { rewrite Forall_forall in IH, Hwf, Hnest |- *. intros y Hy. split; auto. }
    simpl in Hf.
    destruct (parse_members_marshal d n (dp + 1) rest ms k x n HF) as [r E].
    { simpl. lia. }
    { pose proof (length_le_vsizes_members ((k, x) :: ms)). simpl in *. lia. }
    rewrite marshal_object_text, (parse_value_object _ _ _ _ Hd), E, skip_ws_line.
    rewrite (skip_ws_nonws dquote _ eq_refl).
    change (Ascii.eqb dquote "}") with false. cbv beta iota.
    eexists; reflexivity.
Qed.

Lemma vsize_le_marshal (v : JValue) :
  wf_value v = true -> forall d, vsize v <= length (marshal d v).
Proof.
  induction v as [|b|l|s|l IH|m IH] using JValue_ind; intros Hwf d;
    try (simpl; lia).
  - destruct b; simpl; lia.
  - simpl in Hwf. apply andb_true_iff in Hwf as [Hn _].
    destruct (is_number_head l Hn) as (c & t & -> & _). simpl. lia.
  - destruct l as [|x xs]; [simpl; lia|].
    apply wf_value_array in Hwf.
    pose proof (marshal_array_text d x xs []) as E. rewrite app_nil_r in E.
    rewrite E. clear E. cbn [vsize map list_sum fold_right length].
    inversion IH as [|? ? Hx Hxs]; subst.
    inversion Hwf as [|? ? Wx Wxs]; subst.
    rewrite length_app. specialize (Hx Wx (S d)).
    assert (H : list_sum (map (fun y => vsize y) xs)
                <= length (flat_map (elem_text d) xs)).
    { clear Hx IH Hwf. induction Hxs as [|y ys Hy _ IHys]; [simpl; lia|].
      inversion Wxs as [|? ? Wy Wys]; subst.
      cbn [map list_sum fold_right flat_map]. rewrite length_app. unfold elem_text at 1.
      cbn [lit list_ascii_of_string app length]. rewrite length_app.
      specialize (Hy Wy (S d)). specialize (IHys Wys).
      unfold list_sum in *. cbn [fold_right] in *. lia. }
    rewrite length_app, length_app.
    unfold list_sum in *. cbn [fold_right] in *. lia.
  - destruct m as [|[k x] ms]; [simpl; lia|].
    apply wf_value_object in Hwf as [_ Hwf].
    pose proof (marshal_object_text d k x ms []) as E. rewrite app_nil_r in E.
    rewrite E. clear E. cbn [vsize map list_sum fold_right length].
    inversion IH as [|? ? Hx Hxs]; subst. cbn [snd] in Hx.
    inversion Hwf as [|? ? Wx Wxs]; subst. cbn [snd] in Wx.
    rewrite !length_app. cbn [length]. rewrite !length_app. cbn [length].
    specialize (Hx Wx (S d)).
    assert (H : list_sum (map (fun '(_, y) => vsize y) ms)
                <= length (flat_map (member_text d) ms)).
    { clear Hx IH Hwf. induction Hxs as [|[k1 y] ys Hy _ IHys]; [simpl; lia|].
      inversion Wxs as [|? ? Wy Wys]; subst. cbn [snd] in Wy, Hy.
      cbn [map list_sum fold_right flat_map]. rewrite length_app. unfold member_text at 1.
      cbn [lit list_ascii_of_string app length]. rewrite !length_app.
      cbn [length].
      specialize (Hy Wy (S d)). specialize (IHys Wys).
      unfold list_sum in *. cbn [fold_right] in *. lia. }
    rewrite length_app, length_app.
    unfold list_sum in *. cbn [fold_right] in *. lia.
Qed.

Lemma marshal_valid (v : JValue) :
  wf_value v = true -> nests_within 0 v = true -> Valid (marshal 0 v) = true.
Proof.
  intros Hwf Hd. unfold Valid, parse_text.
  destruct (parse_marshal v Hwf 0 0%N (S (length (marshal 0 v))) []) as [v' E].
  - pose proof (vsize_le_marshal v Hwf 0). lia.
  - exact Hd.
  - exact I.
  - rewrite app_nil_r in E. fold any_number. now rewrite E.
Qed.

(** ** Strings held in a parsed value are shorter than the text *)

Fixpoint strs_below (n : nat) (v : JValue) : bool :=
  match v with
  | JString s => length s <? n
  | JArray l => forallb (fun x => strs_below n x) l
  | JObject m => forallb (fun '(_, x) => strs_below n x) m
  | _ => true
  end.

Lemma strs_below_mono (a b : nat) (v : JValue) :
  a <= b -> strs_below a v = true -> strs_below b v = true.
Proof.
  intro Hab. induction v as [|bo|l|s|l IH|m IH] using JValue_ind; simpl; auto.
  - intro H. apply Nat.ltb_lt in H. apply Nat.ltb_lt. lia.
  - rewrite !forallb_forall. rewrite Forall_forall in IH. auto.
  - rewrite !forallb_forall. rewrite Forall_forall in IH.
    intros H [k x] Hin. apply (IH (k, x) Hin). apply (H (k, x) Hin).
Qed.

Lemma skip_ws_length (s : bytes) : length (skip_ws s) <= length s.
Proof.
  induction s as [|c s IH]; simpl; [lia|].
  destruct (is_ws c); simpl; lia.
Qed.

Lemma utf8_length (r : N) : length (utf8 r) <= 4.
Proof.
  unfold utf8.
  destruct (r <? 128)%N; [simpl; lia|].
  destruct (r <? 2048)%N; [simpl; lia|].
  destruct (r <? 65536)%N; simpl; lia.
Qed.

Lemma prepend_Some (pre : bytes) (x : option (bytes * bytes)) (str r : bytes) :
  prepend pre x = Some (str, r) ->
  exists str', x = Some (str', r) /\ str = pre ++ str'.
Proof.
  destruct x as [[s' r']|]; simpl; [|discriminate].
  intro H; injection H as <- <-. eauto.
Qed.

Lemma parse_string_length (n : nat) :
  forall s str r, length s <= n -> parse_string s = Some (str, r) ->
                  length str + length r < length s.
Proof.
  induction n as [|n IH]; intros s str r Hn; destruct s as [|c t];
    try discriminate; [simpl in Hn; lia|].
  simpl in Hn. cbn [parse_string].
  destruct (Ascii.eqb c dquote).
  { intro H; injection H as <- <-. simpl. lia. }
  destruct (Ascii.eqb c bslash).
  { destruct t as [|e t1]; [discriminate|]. simpl in Hn.
    destruct (Ascii.eqb e "u").
    - destruct t1 as [|h1 [|h2 [|h3 [|h4 t2]]]]; try discriminate.
      destruct (hex4 h1 h2 h3 h4) as [cp|]; [|discriminate].
      simpl in Hn.
      destruct (surrogate_pair cp t2) as [dec|].
      + destruct t2 as [|a1 [|a2 [|a3 [|a4 [|a5 [|a6 t3]]]]]]; try discriminate.
        intro H. apply prepend_Some in H as (str' & H & ->).
        apply IH in H; [|simpl in Hn; lia].
        pose proof (utf8_length dec). rewrite length_app. simpl. lia.
      + intro H. apply prepend_Some in H as (str' & H & ->).
        apply IH in H; [|lia].
        pose proof (utf8_length (if is_surrogate cp then 65533%N else cp)).
        rewrite length_app. simpl. lia.
    - destruct (simple_escape e); [|discriminate].
      intro H. apply prepend_Some in H as (str' & H & ->).
      apply IH in H; [|lia]. simpl. lia. }
  destruct (code c <? 32)%N; [discriminate|].
  intro H. apply prepend_Some in H as (str' & H & ->).
  apply IH in H; [|lia]. simpl. lia.
Qed.

Lemma span_length (p : ascii -> bool) (s : bytes) :
  length (snd (span p s)) <= length s.
Proof.
  induction s as [|c s IH]; simpl; [lia|].
  destruct (p c); [|simpl; lia].
  destruct (span p s); simpl in *; lia.
Qed.

Definition bounded (pv : parser) : Prop :=
  forall s v r, pv s = Some (v, r) ->
                length r <= length s /\ strs_below (length s) v = true.

Lemma parse_elems_bounded (pv : parser) :
  bounded pv ->
  forall k s vs r, parse_elems pv k s = Some (vs, r) ->
    length r <= length s /\ Forall (fun v => strs_below (length s) v = true) vs.
Proof.
  intro Hpv. induction k as [|k IH]; intros s vs r; simpl; [discriminate|].
  destruct (pv s) as [[v r1]|] eqn:E; [|discriminate].
  apply Hpv in E as [L1 B1].
  pose proof (skip_ws_length r1) as Lw.
  destruct (skip_ws r1) as [|c r2]; [discriminate|]. simpl in Lw.
  destruct (Ascii.eqb c ",").
  - destruct (parse_elems pv k r2) as [[vs' r3]|] eqn:E'; [|discriminate].
    intro H; injection H as <- <-. apply IH in E' as [L2 B2].
    split; [lia|]. constructor; [exact B1|].
    eapply Forall_impl; [|exact B2]. intros v'. apply strs_below_mono. lia.
  - destruct (Ascii.eqb c "]"); [|discriminate].
    intro H; injection H as <- <-. split; [lia|]. constructor; auto.
Qed.

Lemma parse_members_bounded (pv : parser) :
  bounded pv ->
  forall k s ms r, parse_members pv k s = Some (ms, r) ->
    length r <= length s /\
    Forall (fun kv => strs_below (length s) (snd kv) = true) ms.
Proof.
  intro Hpv. induction k as [|k IH]; intros s ms r; simpl; [discriminate|].
  pose proof (skip_ws_length s) as L0.
  destruct (skip_ws s) as [|q s1]; [discriminate|]. simpl in L0.
  destruct (Ascii.eqb q dquote); [|discriminate].
  destruct (parse_string s1) as [[key s2]|] eqn:Ek; [|discriminate].
  apply (parse_string_length (length s1)) in Ek; [|lia].
  pose proof (skip_ws_length s2) as L2.
  destruct (skip_ws s2) as [|c s3]; [discriminate|]. simpl in L2.
  destruct (Ascii.eqb c ":"); [|discriminate].
  destruct (pv s3) as [[v r1]|] eqn:E; [|discriminate].
  apply Hpv in E as [L3 B3].
  pose proof (skip_ws_length r1) as L4.
  destruct (skip_ws r1) as [|c' r2]; [discriminate|]. simpl in L4.
  assert (B : strs_below (length s) v = true)
    by (eapply strs_below_mono; [|exact B3]; lia).
  destruct (Ascii.eqb c' ",").
  - destruct (parse_members pv k r2) as [[ms' r3]|] eqn:E'; [|discriminate].
    intro H; injection H as <- <-. apply IH in E' as [L5 B5].
    split; [lia|]. constructor; [exact B|].
    eapply Forall_impl; [|exact B5]. intros kv. apply strs_below_mono. lia.
  - destruct (Ascii.eqb c' "}"); [|discriminate].
    intro H; injection H as <- <-. split; [lia|]. constructor; auto.
Qed.

Lemma parse_value_bounded (ok : bytes -> bool) (fuel : nat) :
  forall dp, bounded (parse_value ok fuel dp).
Proof.
  induction fuel as [|n IH]; intros dp s v r; cbn [parse_value]; [discriminate|].
  pose proof (skip_ws_length s) as L0.
  destruct (skip_ws s) as [|c t]; [discriminate|]. simpl in L0.
  destruct (Ascii.eqb c "{").
  { destruct (maxNestingDepth <=? dp)%N; [discriminate|].
    pose proof (skip_ws_length t) as L1.
    destruct (skip_ws t) as [|c' t']; [discriminate|]. simpl in L1.
    destruct (Ascii.eqb c' "}"); [intro H; injection H as <- <-; split; [lia|reflexivity]|].
    destruct (parse_members (parse_value ok n (dp + 1)) n t) as [[ms r']|] eqn:E;
      [|discriminate].
    intro H; injection H as <- <-.
    apply (parse_members_bounded _ (IH _)) in E as [L B]. split; [lia|].
    simpl. apply forallb_forall. intros [k x] Hin.
    apply map_assign_In in Hin as [[]|Hin].
    rewrite Forall_forall in B. specialize (B (k, x) Hin). simpl in B.
    eapply strs_below_mono; [|exact B]. lia. }
  destruct (Ascii.eqb c "[").
  { destruct (maxNestingDepth <=? dp)%N; [discriminate|].
    pose proof (skip_ws_length t) as L1.
    destruct (skip_ws t) as [|c' t']; [discriminate|]. simpl in L1.
    destruct (Ascii.eqb c' "]"); [intro H; injection H as <- <-; split; [lia|reflexivity]|].
    destruct (parse_elems (parse_value ok n (dp + 1)) n t) as [[vs r']|] eqn:E;
      [|discriminate].
    intro H; injection H as <- <-.
    apply (parse_elems_bounded _ (IH _)) in E as [L B]. split; [lia|].
    simpl. apply forallb_forall. intros x Hin.
    rewrite Forall_forall in B. specialize (B x Hin).
    eapply strs_below_mono; [|exact B]. lia. }
  destruct (Ascii.eqb c dquote).
  { destruct (parse_string t) as [[str r']|] eqn:E; [|discriminate].
    intro H; injection H as <- <-.
    apply (parse_string_length (length t)) in E; [|lia].
    split; [lia|]. simpl. apply Nat.ltb_lt. lia. }
  assert (W : forall w v0, parse_word w v0 (c :: t) = Some (v, r) ->
                           strs_below (length s) v0 = true ->
                           length r <= length s /\ strs_below (length s) v = true).
  { intros w v0. unfold parse_word. destruct (HasPrefix (c :: t) w); [|discriminate].
    intro H; injection H as <- <-. intro B. split; [|exact B].
    rewrite length_skipn. cbn [length]. lia. }
  destruct (Ascii.eqb c "t"); [intro H; now apply W in H|].
  destruct (Ascii.eqb c "f"); [intro H; now apply W in H|].
  destruct (Ascii.eqb c "n"); [intro H; now apply W in H|].
  unfold parse_number. pose proof (span_length is_num_char (c :: t)) as Ls.
  destruct (span is_num_char (c :: t)) as [l r'].
  destruct (is_number l); [|discriminate].
  destruct (ok l); [|discriminate].
  intro H; injection H as <- <-. simpl in Ls. split; [simpl; lia|reflexivity].
Qed.

Lemma Unmarshal_strs_below (data : bytes) (v : JValue) :
  Unmarshal data = Some v -> strs_below (length data) v = true.
Proof.
  intro H. apply parse_text_Some in H as [r H]. now apply parse_value_bounded in H.
Qed.

(** ** The parser's fuel

    Beyond the length of the text, the fuel does not matter. *)

Lemma parse_elems_fuel (p q : parser) (L : nat) :
  (forall s v r, p s = Some (v, r) -> length r <= length s) ->
  (forall s, length s <= L -> p s = q s) ->
  forall k k' s, length s <= L -> length s < k -> length s < k' ->
                 parse_elems p k s = parse_elems q k' s.
Proof.
  intros Hp Hpq. induction k as [|k IH]; intros k' s HL Hk Hk'; [lia|].
  destruct k' as [|k']; [lia|]. cbn [parse_elems].
  rewrite <- (Hpq s HL).
  destruct (p s) as [[v r1]|] eqn:E; [|reflexivity].
  apply Hp in E. pose proof (skip_ws_length r1) as Lw.
  destruct (skip_ws r1) as [|c r2]; [reflexivity|]. cbn [length] in Lw.
  destruct (Ascii.eqb c ","); [|reflexivity].
  rewrite (IH k' r2); [reflexivity|lia|lia|lia].
Qed.

Lemma parse_members_fuel (p q : parser) (L : nat) :
  (forall s v r, p s = Some (v, r) -> length r <= length s) ->
  (forall s, length s <= L -> p s = q s) ->
  forall k k' s, length s <= L -> length s < k -> length s < k' ->
                 parse_members p k s = parse_members q k' s.
Proof.
  intros Hp Hpq. induction k as [|k IH]; intros k' s HL Hk Hk'; [lia|].
  destruct k' as [|k']; [lia|]. cbn [parse_members].
  pose proof (skip_ws_length s) as L0.
  destruct (skip_ws s) as [|qc s1]; [reflexivity|]. cbn [length] in L0.
  destruct (Ascii.eqb qc dquote); [|reflexivity].
  destruct (parse_string s1) as [[key s2]|] eqn:Ek; [|reflexivity].
  apply (parse_string_length (length s1)) in Ek; [|lia].
  pose proof (skip_ws_length s2) as L2.
  destruct (skip_ws s2) as [|c s3]; [reflexivity|]. cbn [length] in L2.
  destruct (Ascii.eqb c ":"); [|reflexivity].
  rewrite <- (Hpq s3) by lia.
  destruct (p s3) as [[v r1]|] eqn:E; [|reflexivity].
  apply Hp in E. pose proof (skip_ws_length r1) as Lw.
  destruct (skip_ws r1) as [|c' r2]; [reflexivity|]. cbn [length] in Lw.
  destruct (Ascii.eqb c' ","); [|reflexivity].
  rewrite (IH k' r2); [reflexivity|lia|lia|lia].
Qed.

Lemma parse_value_fuel (ok : bytes -> bool) (L : nat) :
  forall n m d s, length s <= L -> length s < n -> length s < m ->
                  parse_value ok n d s = parse_value ok m d s.
Proof.
  induction L as [|L IH]; intros n m d s HL Hn Hm;
    (destruct n as [|n]; [lia|]); (destruct m as [|m]; [lia|]); cbn [parse_value];
    pose proof (skip_ws_length s) as L0;
    (destruct (skip_ws s) as [|c t]; [reflexivity|]); cbn [length] in L0; [lia|].
  assert (Hb : forall f dp s v r, parse_value ok f dp s = Some (v, r) ->
                                  length r <= length s).
  { intros f dp s0 v r H. now apply parse_value_bounded in H. }
  assert (Hagree : forall s', length s' <= length t ->
                     parse_value ok n (d + 1) s' = parse_value ok m (d + 1) s').
  { intros s' Hs'. apply IH; lia. }
  destruct (Ascii.eqb c "{").
  { destruct (maxNestingDepth <=? d)%N; [reflexivity|].
    destruct (skip_ws t) as [|c' t']; [reflexivity|].
    destruct (Ascii.eqb c' "}"); [reflexivity|].
    rewrite (parse_members_fuel _ _ (length t) (Hb n (d + 1)%N) Hagree n m t);
      [reflexivity|lia|lia|lia]. }
  destruct (Ascii.eqb c "[").
  { destruct (maxNestingDepth <=? d)%N; [reflexivity|].
    destruct (skip_ws t) as [|c' t']; [reflexivity|].
    destruct (Ascii.eqb c' "]"); [reflexivity|].
    rewrite (parse_elems_fuel _ _ (length t) (Hb n (d + 1)%N) Hagree n m t);
      [reflexivity|lia|lia|lia]. }
  reflexivity.
Qed.

(** With any fuel beyond the length of the text, the scanner and the
    decoder answer as [parse_text] does. *)
Lemma parse_text_fuel (ok : bytes -> bool) (data : bytes) (fuel : nat) :
  length data < fuel ->
  parse_text ok data =
  match parse_value ok fuel 0 data with
  | Some (v, rest) => match skip_ws rest with [] => Some v | _ => None end
  | None => None
  end.
Proof.
  intro H. unfold parse_text.
  now rewrite (parse_value_fuel ok (length data) (S (length data)) fuel 0 data) by lia.
Qed.

(** ** The JSON sanitizer returns, and returns valid JSON *)

Lemma mapM_total (A B : Type) (f : A -> outcome B) (Q : B -> Prop) (l : list A) :
  (forall x, In x l -> exists y, f x = Ret y /\ Q y) ->
  exists ys, mapM f l = Ret ys /\ Forall Q ys.
Proof.
  induction l as [|x l IH]; intro H.
  - exists []. split; [reflexivity|constructor].
  - destruct (H x (or_introl eq_refl)) as (y & Ey & Qy).
    destruct IH as (ys & Eys & Qys); [intros z Hz; apply H; now right|].
    exists (y :: ys). simpl. rewrite Ey. simpl. rewrite Eys. simpl. auto.
Qed.

Lemma sanitizeValue_ok (ord : range_order) (config : SanitizerConfig)
  (nested : bytes -> outcome bytes) (N : nat) :
  (forall s, length s < N -> exists r, nested s = Ret r) ->
  forall v, wf_value v = true -> strs_below N v = true ->
    exists r, sanitizeValue ord config nested v = Ret r /\ wf_value r = true
              /\ forall dp, nests_within dp v = true -> nests_within dp r = true.
Proof.
  intro Hn. induction v as [|b|l|s|l IH|m IH] using JValue_ind; intros Hwf Hsb.
  - exists JNull. auto.
  - exists (JBool b). auto.
  - exists (JNumber l). auto.
  - simpl in Hsb. apply Nat.ltb_lt in Hsb. simpl.
    destruct (looksLikeJSON s).
    + destruct (Hn s Hsb) as [r E]. rewrite E. exists (JString r). auto.
    + eexists. repeat split.
  - apply wf_value_array in Hwf. simpl in Hsb. rewrite forallb_forall in Hsb.
    rewrite Forall_forall in IH, Hwf.
    destruct (mapM_total _ _ (fun val => sanitizeValue ord config nested val)
                (fun r => wf_value r = true) l) as (ys & E & Q).
    { intros x Hx. destruct (IH x Hx) as (r & Er & Wr & _); eauto. }
    simpl. rewrite E. exists (JArray ys). split; [reflexivity|].
    split; [now apply wf_value_array|].
    intros dp Hd. apply nests_within_array in Hd as [Hd Hl].
    apply nests_within_array. split; [exact Hd|].
    apply mapM_Ret_Forall2 in E. clear Q.
    induction E as [|x y l' ys' Exy _ IHE]; [constructor|].
    inversion Hl as [|? ? Nx Nl]; subst. constructor.
    + destruct (IH x (or_introl eq_refl)) as (r & Er & _ & Dr);
        [apply Hwf; now left|apply Hsb; now left|].
      rewrite Er in Exy. injection Exy as <-. now apply Dr.
    + apply IHE; auto; intros z Hz; [apply IH|apply Hwf|apply Hsb]; now right.
  - apply wf_value_object in Hwf as [_ Hwf]. simpl in Hsb.
    rewrite forallb_forall in Hsb. rewrite Forall_forall in IH, Hwf.
    pose (F := fun kv : bytes * JValue =>
                 let '(key, val) := kv in
                 x <- (if isSensitiveField config key then Ret (JString (Mask config))
                       else sanitizeValue ord config nested val) ;;
                 Ret (key, x)).
    destruct (mapM_total _ _ F (fun kv => wf_value (snd kv) = true) m)
      as (entries & E & Q).
    { intros [k x] Hx. unfold F. destruct (isSensitiveField config k).
      - eexists. split; reflexivity.
      - destruct (IH (k, x) Hx (Hwf (k, x) Hx) (Hsb (k, x) Hx)) as (r & Er & Wr & _).
        cbn [snd] in Er. rewrite Er. exists (k, r). auto. }
    change (sanitizeValue ord config nested (JObject m))
      with (entries <- mapM F m ;;
            Ret (JObject (map_assign [] (ro_visit ord _ entries)))).
    rewrite E. eexists. split; [reflexivity|]. split.
    + apply wf_value_object. split.
      * now apply map_assign_sorted.
      * apply (map_assign_Forall JValue (fun x => wf_value x = true)).
        rewrite Forall_forall in Q |- *. intros kv Hin. apply Q.
        eapply Permutation_in; [apply ro_perm|exact Hin].
    + intros dp Hd. apply nests_within_object in Hd as [Hd Hm].
      apply nests_within_object. split; [exact Hd|].
      apply (map_assign_Forall JValue (fun x => nests_within (dp + 1) x = true)).
      assert (HE : Forall (fun kv => nests_within (dp + 1) (snd kv) = true) entries).
      { apply mapM_Ret_Forall2 in E. clear Q.
        induction E as [|[k x] [k' y] m' es Exy _ IHE]; [constructor|].
        inversion Hm as [|? ? Nx Nm]; subst. cbn [snd] in Nx. constructor.
        - cbn [snd]. unfold F in Exy. destruct (isSensitiveField config k).
          + injection Exy as _ <-. reflexivity.
          + destruct (IH (k, x) (or_introl eq_refl)) as (r & Er & _ & Dr);
              [apply (Hwf (k, x)); now left|apply (Hsb (k, x)); now left|].
            cbn [snd] in Er. rewrite Er in Exy. injection Exy as _ <-. now apply Dr.
        - apply IHE; auto; intros z Hz; [apply IH|apply Hwf|apply Hsb]; now right. }
      rewrite Forall_forall in HE |- *. intros kv Hin. apply HE.
      eapply Permutation_in; [apply ro_perm|exact Hin].
Qed.

Lemma sanitizeJSON_ok (ord : range_order) (config : SanitizerConfig) (n : nat) :
  forall body, length body < n ->
    exists r, sanitizeJSON ord config n body = Ret r
              /\ (Unmarshal body <> None -> Valid r = true).
Proof.
  induction n as [|n IH]; intros body Hl; [lia|]. cbn [sanitizeJSON].
  destruct (Unmarshal body) as [data|] eqn:E.
  - destruct (sanitizeValue_ok ord config (sanitizeJSON ord config n) (length body))
      with (v := data) as (r & Er & Wr & Dr).
    + intros s Hs. destruct (IH s) as (r & Er & _); [lia|]. eauto.
    + eapply Unmarshal_wf; eauto.
    + now apply Unmarshal_strs_below.
    + rewrite Er. simpl. exists (marshal 0 r). split; [reflexivity|].
      intros _. apply marshal_valid; [exact Wr|].
      apply Dr. eapply Unmarshal_nests; eauto.
  - eexists. split; [reflexivity|]. intro H. now contradiction H.
Qed.

(** What Unmarshal decodes is valid JSON. *)
Lemma parse_value_any (ok : bytes -> bool) (fuel : nat) :
  forall dp s v r, parse_value ok fuel dp s = Some (v, r) ->
                   parse_value any_number fuel dp s = Some (v, r).
Proof.
  assert (HE : forall (p q : parser), (forall s v r, p s = Some (v, r) -> q s = Some (v, r)) ->
             forall k s vs r, parse_elems p k s = Some (vs, r) ->
                              parse_elems q k s = Some (vs, r)).
  { intros p q Hpq. induction k as [|k IHk]; intros s vs r; cbn [parse_elems];
      [discriminate|].
    destruct (p s) as [[v r1]|] eqn:E; [|discriminate].
    rewrite (Hpq _ _ _ E).
    destruct (skip_ws r1) as [|c r2]; [discriminate|].
    destruct (Ascii.eqb c ","); [|auto].
    destruct (parse_elems p k r2) as [[vs' r3]|] eqn:E'; [|discriminate].
    now rewrite (IHk _ _ _ E'). }
  assert (HM : forall (p q : parser), (forall s v r, p s = Some (v, r) -> q s = Some (v, r)) ->
             forall k s ms r, parse_members p k s = Some (ms, r) ->
                              parse_members q k s = Some (ms, r)).
  { intros p q Hpq. induction k as [|k IHk]; intros s ms r; cbn [parse_members];
      [discriminate|].
    destruct (skip_ws s) as [|qc s1]; [discriminate|].
    destruct (Ascii.eqb qc dquote); [|discriminate].
    destruct (parse_string s1) as [[key s2]|]; [|discriminate].
    destruct (skip_ws s2) as [|c s3]; [discriminate|].
    destruct (Ascii.eqb c ":"); [|discriminate].
    destruct (p s3) as [[v r1]|] eqn:E; [|discriminate].
    rewrite (Hpq _ _ _ E).
    destruct (skip_ws r1) as [|c' r2]; [discriminate|].
    destruct (Ascii.eqb c' ","); [|auto].
    destruct (parse_members p k r2) as [[ms' r3]|] eqn:E'; [|discriminate].
    now rewrite (IHk _ _ _ E'). }
  induction fuel as [|n IH]; intros dp s v r; cbn [parse_value]; [discriminate|].
  destruct (skip_ws s) as [|c t]; [discriminate|].
  destruct (Ascii.eqb c "{").
  { destruct (maxNestingDepth <=? dp)%N; [discriminate|].
    destruct (skip_ws t) as [|c' t']; [discriminate|].
    destruct (Ascii.eqb c' "}"); [auto|].
    destruct (parse_members (parse_value ok n (dp + 1)) n t) as [[ms r']|] eqn:E;
      [|discriminate].
    now rewrite (HM _ _ (IH (dp + 1)%N) _ _ _ _ E). }
  destruct (Ascii.eqb c "[").
  { destruct (maxNestingDepth <=? dp)%N; [discriminate|].
    destruct (skip_ws t) as [|c' t']; [discriminate|].
    destruct (Ascii.eqb c' "]"); [auto|].
    destruct (parse_elems (parse_value ok n (dp + 1)) n t) as [[vs r']|] eqn:E;
      [|discriminate].
    now rewrite (HE _ _ (IH (dp + 1)%N) _ _ _ _ E). }
  destruct (Ascii.eqb c dquote); [auto|].
  destruct (Ascii.eqb c "t"); [auto|].
  destruct (Ascii.eqb c "f"); [auto|].
  destruct (Ascii.eqb c "n"); [auto|].
  destruct (parse_number (c :: t)) as [[l r']|]; [|discriminate].
  destruct (ok l); [auto|discriminate].
Qed.

Lemma Unmarshal_Valid (body : bytes) (data : JValue) :
  Unmarshal body = Some data -> Valid body = true.
Proof.
  unfold Unmarshal, Valid, parse_text. intro H.
  destruct (parse_value fits_float64 (S (length body)) 0 body) as [[v r]|] eqn:E;
    [|discriminate].
  apply parse_value_any in E. fold any_number. rewrite E.
  destruct (skip_ws r); [reflexivity|discriminate].
Qed.

Lemma Unmarshal_nonempty (body : bytes) (data : JValue) :
  Unmarshal body = Some data -> body <> [].
Proof. intros H ->. discriminate H. Qed.

(** C1 (as amended): for every configuration, a body that encoding/json
    decodes (valid JSON, nested no deeper than the scanner allows, its
    numbers within the range of float64), on which no body rule's
    condition holds and that reaches the JSON sanitizer (its content type
    is a JSON type, or the body looks like JSON) is answered, given fuel
    beyond the body's length, by syntactically valid JSON. *)
Theorem SanitizeBody_preserves_validity (ord : range_order) (config : SanitizerConfig)
  (fuel : nat) (body contentType : bytes) (data : JValue) :
  Unmarshal body = Some data ->
  (forall r, In r (BodyRules config) -> Condition r contentType body (len body) = false) ->
  isJSON contentType = true \/ looksLikeJSON body = true ->
  length body < fuel ->
  exists out, SanitizeBody ord config fuel body contentType = Ret out
              /\ Valid out = true.
Proof.
  intros Hv Hr Hj Hf. destruct fuel as [|n]; [lia|].
  rewrite (SanitizeBody_no_match ord config n body contentType
             (Unmarshal_nonempty body data Hv) Hr).
  unfold sanitizeByFormat.
  assert (E : isJSON contentType || looksLikeJSON body = true).
  { destruct Hj as [-> | ->]; [reflexivity|apply orb_true_r]. }
  rewrite E.
  destruct (sanitizeJSON_ok ord config (S n) body Hf) as (r & Er & Vr).
  exists r. split; [exact Er|]. apply Vr. now rewrite Hv.
Qed.

Definition scenario1_body : bytes := jq "{'username':'user','password':'secret123'}".

Definition scenario1_data : JValue :=
  JObject [(lit "password", JString (lit "secret123"));
           (lit "username", JString (lit "user"))].

Lemma SanitizeBody_preserves_validity_witness :
  Unmarshal scenario1_body = Some scenario1_data /\
  (forall r, In r (BodyRules DefaultSanitizerConfig) ->
     Condition r (lit "application/json") scenario1_body (len scenario1_body) = false) /\
  (isJSON (lit "application/json") = true \/ looksLikeJSON scenario1_body = true) /\
  length scenario1_body < 50 /\
  exists out,
    SanitizeBody in_key_order DefaultSanitizerConfig 50 scenario1_body
                 (lit "application/json") = Ret out
    /\ Valid out = true.
Proof.
  assert (Hv : Unmarshal scenario1_body = Some scenario1_data) by reflexivity.
  assert (Hr : forall r, In r (BodyRules DefaultSanitizerConfig) ->
     Condition r (lit "application/json") scenario1_body (len scenario1_body) = false).
  { intros r [<-|[<-|[<-|[<-|[]]]]]; reflexivity. }
  assert (Hj : isJSON (lit "application/json") = true \/ looksLikeJSON scenario1_body = true)
    by (left; reflexivity).
  assert (Hf : length scenario1_body < 50) by (simpl; lia).
  repeat split; try assumption.
  exact (SanitizeBody_preserves_validity in_key_order DefaultSanitizerConfig 50
           scenario1_body (lit "application/json") scenario1_data Hv Hr Hj Hf).
Defined.

(** A valid JSON body that the decoder refuses: the second number is
    beyond the range of float64. *)
Definition out_of_range_body : bytes := jq "{'card':4111111111111111,'big':1e999}".

(** C1 as stated fails under the default configuration: a valid JSON body
    sent with a binary content type is answered by the skip message; a
    valid JSON number sent as plain text is replaced by the mask; and a
    valid JSON body sent as JSON that holds a number out of range is
    handed to the pattern detector as raw text, which puts the mask in the
    place of the card number.  None of the answers is JSON. *)
Lemma SanitizeBody_valid_in_invalid_out :
  Valid (lit "{}") = true /\
  SanitizeBody in_key_order DefaultSanitizerConfig 5 (lit "{}") (lit "image/png")
  = Ret (lit "[Binary content - not logged]") /\
  Valid (lit "[Binary content - not logged]") = false /\
  Valid (lit "4111111111111111") = true /\
  SanitizeBody in_key_order DefaultSanitizerConfig 5 (lit "4111111111111111")
               (lit "text/plain")
  = Ret (lit "***REDACTED***") /\
  Valid (lit "***REDACTED***") = false /\
  Valid out_of_range_body = true /\
  SanitizeBody in_key_order DefaultSanitizerConfig 5 out_of_range_body
               (lit "application/json")
  = Ret (jq "{'card':***REDACTED***,'big':1e999}") /\
  Valid (jq "{'card':***REDACTED***,'big':1e999}") = false.
Proof. repeat split; vm_compute; reflexivity. Qed.

(** ** The two implementations on the conformance bodies *)

Lemma mapM_fst (A B C : Type) (f : A * B -> outcome (A * C))
  (l : list (A * B)) (r : list (A * C)) :
  (forall x y, f x = Ret y -> fst y = fst x) ->
  mapM f l = Ret r -> map fst r = map fst l.
Proof.
  intros Hf H. apply mapM_Ret_Forall2 in H.
  induction H as [|x y l r Hx _ IH]; [reflexivity|].
  simpl. rewrite IH. f_equal. now apply Hf.
Qed.

Lemma nr_sanitizeValue_order (o1 o2 : range_order) (config : SanitizerConfigNoRegex)
  (fuel : nat) (n1 n2 : bytes -> outcome bytes) :
  (forall s, n1 s = n2 s) ->
  forall v, wf_value v = true ->
            nr_sanitizeValue o1 config fuel n1 v = nr_sanitizeValue o2 config fuel n2 v.
Proof.
  intro Hn. induction v as [| | | s |l IH|m IH] using JValue_ind; intro Hwf;
    try reflexivity.
  - simpl. now rewrite Hn.
  - apply wf_value_array in Hwf. simpl.
    rewrite (mapM_ext _ _ (fun val => nr_sanitizeValue o1 config fuel n1 val)
                          (fun val => nr_sanitizeValue o2 config fuel n2 val));
      [reflexivity|].
    intros x Hx. rewrite Forall_forall in IH, Hwf. auto.
  - apply wf_value_object in Hwf as [Hs Hwf].
    pose (F := fun (o : range_order) (n : bytes -> outcome bytes)
                   (kv : bytes * JValue) =>
                 let '(key, val) := kv in
                 x <- (if nr_isSensitiveField config key
                       then Ret (JString (nr_Mask config))
                       else nr_sanitizeValue o config fuel n val) ;;
                 Ret (key, x)).
    change (entries <- mapM (F o1 n1) m ;;
            Ret (JObject (map_assign [] (ro_visit o1 _ entries)))
            = entries <- mapM (F o2 n2) m ;;
              Ret (JObject (map_assign [] (ro_visit o2 _ entries)))).
    rewrite (mapM_ext _ _ (F o1 n1) (F o2 n2) m).
    2:{ intros [k x] Hx. rewrite Forall_forall in IH, Hwf.
        pose proof (IH (k, x) Hx (Hwf (k, x) Hx)) as H. cbn [snd] in H.
        unfold F. cbv beta iota. now rewrite H. }
    destruct (mapM (F o2 n2) m) as [entries| |] eqn:E; try reflexivity.
    simpl. apply mapM_fst in E.
    2:{ intros [k x] [k' y]. unfold F.
        destruct (if nr_isSensitiveField config k then _ else _); simpl;
          try discriminate. intro H; now injection H as <- _. }
    assert (ND : NoDup (map fst entries)).
    { rewrite E. now apply keys_sorted_NoDup. }
    now rewrite !map_assign_visit.
Qed.

Lemma nr_sanitizeJSON_order (o1 o2 : range_order) (config : SanitizerConfigNoRegex)
  (fuel : nat) :
  forall body, nr_sanitizeJSON o1 config fuel body = nr_sanitizeJSON o2 config fuel body.
Proof.
  induction fuel as [|n IH]; intro body; simpl; [reflexivity|].
  destruct (Unmarshal body) as [data|] eqn:E; [|reflexivity].
  rewrite (nr_sanitizeValue_order o1 o2 config (S n) _ _ IH data (Unmarshal_wf _ _ E)).
  reflexivity.
Qed.

Lemma nr_sanitizeFormURLEncoded_order (o1 o2 : range_order)
  (config : SanitizerConfigNoRegex) (fuel : nat) (body : bytes) :
  nr_sanitizeFormURLEncoded o1 config fuel body
  = nr_sanitizeFormURLEncoded o2 config fuel body.
Proof.
  unfold nr_sanitizeFormURLEncoded.
  destruct (ParseQuery body) as [values|] eqn:E; [|reflexivity].
  apply ParseQuery_sorted, keys_sorted_NoDup in E.
  match goal with |- bind ?a _ = _ => destruct a as [entries| |] eqn:Em end;
    try reflexivity.
  simpl. apply mapM_fst in Em.
  2:{ intros [k vs] [k' ws]. cbn [fst snd].
      destruct (nr_isSensitiveField config k).
      - intro H; now injection H as <- _.
      - destruct (mapM (nr_sanitizeText config fuel) vs); simpl; try discriminate.
        intro H; now injection H as <- _. }
  rewrite !map_assign_visit; [reflexivity| |]; now rewrite Em.
Qed.

Lemma nr_applyRules_order (o1 o2 : range_order) (config : SanitizerConfigNoRegex)
  (a1 a2 : bytes -> bytes -> outcome bytes) (fuel : nat)
  (rules : list BodyProcessingRule) (body contentType : bytes) :
  (forall b c, a1 b c = a2 b c) ->
  nr_applyRules o1 config a1 fuel rules body contentType
  = nr_applyRules o2 config a2 fuel rules body contentType.
Proof.
  intro Ha. induction rules as [|r rules IH]; simpl.
  - unfold nr_sanitizeByFormat.
    now rewrite (nr_sanitizeJSON_order o1 o2),
                (nr_sanitizeFormURLEncoded_order o1 o2).
  - rewrite IH. unfold nr_truncateBody. now rewrite Ha.
Qed.

Lemma nr_SanitizeBody_deterministic (o1 o2 : range_order)
  (config : SanitizerConfigNoRegex) (fuel : nat) (body contentType : bytes) :
  nr_SanitizeBody o1 config fuel body contentType
  = nr_SanitizeBody o2 config fuel body contentType.
Proof.
  revert body contentType. induction fuel as [|n IH]; intros body contentType; simpl;
    [reflexivity|].
  destruct (length body =? 0); [reflexivity|].
  now apply nr_applyRules_order.
Qed.

Lemma SanitizeBody_any_order (o : range_order) (config : SanitizerConfig)
  (fuel : nat) (body contentType : bytes) :
  SanitizeBody o config fuel body contentType
  = SanitizeBody in_key_order config fuel body contentType.
Proof.
  revert body contentType. induction fuel as [|n IH]; intros body contentType;
    cbn [SanitizeBody]; [reflexivity|].
  destruct (length body =? 0); [reflexivity|].
  apply applyRules_order. exact IH.
Qed.

Definition mask : bytes := lit "***REDACTED***".

(** The bodies of the conformance scenarios 1 to 4, 6 and 7, each with
    its content type and the text both implementations answer. *)
Definition conformance_bodies : list (bytes * bytes * bytes) :=
  [ (jq "{'username':'user','password':'secret123'}", lit "application/json",
     marshal 0 (JObject [(lit "password", JString mask);
                         (lit "username", JString (lit "user"))]));
    (jq "[{'id':1,'token':'tok1'},{'id':2,'token':'tok2'}]", lit "application/json",
     marshal 0 (JArray [JObject [(lit "id", JNumber (lit "1")); (lit "token", JString mask)];
                        JObject [(lit "id", JNumber (lit "2")); (lit "token", JString mask)]]));
    (jq "{'config':'{\'api_key\':\'sk-123\',\'secret\':\'mysecret\'}'}",
     lit "application/json",
     marshal 0 (JObject [(lit "config",
       JString (marshal 0 (JObject [(lit "api_key", JString mask);
                                    (lit "secret", JString mask)])))]));
    (lit "Authorization: Bearer sk-1234567890abcdef", lit "text/plain",
     lit "Authorization: Bearer " ++ mask);
    (repeat "a"%char 1000, lit "text/plain", repeat "a"%char 1000);
    ([], lit "application/json", []) ].

(** C3 (as amended): on the body of each conformance scenario 1 to 4, 6
    and 7, under its content type, the pattern-engine Sanitizer and the
    scan-based SanitizerNoRegex, each under its default configuration,
    return the same text, whatever the orders of map iteration and for
    any fuel from 10 on. *)
Theorem conformance_bodies_agree (o1 o2 : range_order) (k : nat) :
  Forall (fun '(body, contentType, out) =>
            SanitizeBody o1 DefaultSanitizerConfig (10 + k) body contentType = Ret out /\
            nr_SanitizeBody o2 DefaultSanitizerConfigNoRegex (10 + k) body contentType
            = Ret out)
         conformance_bodies.
Proof.
  unfold conformance_bodies.
  repeat (apply Forall_cons; [|]); try apply Forall_nil;
    rewrite (SanitizeBody_any_order o1),
            (nr_SanitizeBody_deterministic o2 in_key_order);
    split; vm_compute; reflexivity.
Qed.

(** Scenario 7 for every content type and configuration: an empty body
    is answered by the empty string. *)
Lemma empty_body_agree (o1 o2 : range_order) (c1 : SanitizerConfig)
  (c2 : SanitizerConfigNoRegex) (fuel : nat) (contentType : bytes) :
  SanitizeBody o1 c1 (S fuel) [] contentType = Ret [] /\
  nr_SanitizeBody o2 c2 (S fuel) [] contentType = Ret [].
Proof. split; reflexivity. Qed.

Definition nr_truncating_config (maxBodySize : Z) (threshold : Z) : SanitizerConfigNoRegex :=
  ConfigNoRegex (nr_SensitiveFields DefaultSanitizerConfigNoRegex)
                (lit "***REDACTED***") maxBodySize
                [ Rule (fun _ _ size => (threshold <? size)%Z) BodyActionTruncate [] ]
                HeaderMaskPartial [] true true true true false true.

(** Scenario 6 with the limit it names: under a truncate rule and a
    maxBodySize of 50, both implementations keep the first fifty bytes of
    the thousand and add the same notice. *)
Lemma truncated_body_agree (k : nat) :
  SanitizeBody in_key_order (truncating_config 50 50) (S k)
               (repeat "a"%char 1000) (lit "text/plain")
  = Ret (repeat "a"%char 50 ++ newline :: lit "... [truncated, total: 1000 bytes]") /\
  nr_SanitizeBody in_key_order (nr_truncating_config 50 50) (S k)
                  (repeat "a"%char 1000) (lit "text/plain")
  = Ret (repeat "a"%char 50 ++ newline :: lit "... [truncated, total: 1000 bytes]").
Proof. split; vm_compute; reflexivity. Qed.

(** C3 as stated fails on scenario 5: only Sanitizer declares
    SanitizeHeaders, so the header set has an answer from one
    implementation and none from the other. *)
Lemma SanitizerNoRegex_declares_no_SanitizeHeaders :
  api_SanitizeHeaders (SanitizerNoRegex_methods in_key_order DefaultSanitizerConfigNoRegex)
  = None /\
  option_map (fun f => map_get (lit "Authorization") (f scenario5_headers))
    (api_SanitizeHeaders (Sanitizer_methods in_key_order DefaultSanitizerConfig))
  = Some (Some (lit "Bear***REDACTED***mnop")).
Proof. split; reflexivity. Qed.

(** ** The interceptor and the streams it reads *)

Lemma ReadAll_clean (r : reader) :
  snd (fst (ReadAll r)) = false ->
  stream_content (Some (NewBuffer (fst (fst (ReadAll r))))) = stream_content (Some r).
Proof.
  intro H. unfold stream_content, NewBuffer. cbn [ReadAll].
  destruct (ReadAll r) as [[d e] r']. cbn [fst snd] in *. subst e.
  now rewrite app_nil_r.
Qed.

(** readAndRestoreBody puts back a stream that was read without error. *)
Lemma readAndRestoreBody_restores (body : option reader) :
  snd (stream_content body) = false ->
  stream_content (snd (readAndRestoreBody body)) = stream_content body.
Proof.
  destruct body as [r|]; [|reflexivity].
  intro H. unfold readAndRestoreBody.
  pose proof (ReadAll_clean r) as Hc.
  unfold stream_content in H.
  destruct (ReadAll r) as [[d e] r'] eqn:E. cbn [fst snd] in *. subst e.
  cbn [snd]. now apply Hc.
Qed.

(** With streams that read without error, a RoundTrip that returns hands
    the wrapped transport the request it was given and returns the
    transport's answer, each body with its content. *)
Lemma RoundTrip_frame (ord : range_order) (URL_String : URL -> bytes) (duration_ms : Z)
  (l : LoggingRoundTripper) (fuel : nat) (req : Request) (ex : Exchange) :
  RoundTrip ord URL_String duration_ms l fuel req = Ret ex ->
  snd (stream_content (ReqBody req)) = false ->
  let sent := ex_sent ex in
  Method sent = Method req /\ ReqURL sent = ReqURL req /\ Host sent = Host req /\
  ReqHeader sent = ReqHeader req /\
  stream_content (ReqBody sent) = stream_content (ReqBody req) /\
  match next l sent with
  | (None, Some e) => ex_resp ex = None /\ ex_err ex = Some e
  | (Some _, Some e) => ex_err ex = Some e
  | (None, None) => ex_resp ex = None /\ ex_err ex = None
  | (Some r, None) =>
      ex_err ex = None /\
      exists r', ex_resp ex = Some r' /\
                 StatusCode r' = StatusCode r /\ Status r' = Status r /\
                 ContentLength r' = ContentLength r /\ RespHeader r' = RespHeader r /\
                 (snd (stream_content (RespBody r)) = false ->
                  stream_content (RespBody r') = stream_content (RespBody r))
  end.
Proof.
  intros H Hreq.
  assert (Hresp : forall req' r a,
             logResponse ord URL_String duration_ms l fuel req' r = Ret a ->
             StatusCode (fst a) = StatusCode r /\ Status (fst a) = Status r /\
             ContentLength (fst a) = ContentLength r /\
             RespHeader (fst a) = RespHeader r /\
             (snd (stream_content (RespBody r)) = false ->
              stream_content (RespBody (fst a)) = stream_content (RespBody r))).
  { intros req' r a Ha. unfold logResponse in Ha.
    destruct (negb (logger l)).
    { injection Ha as <-. cbn [fst]. repeat split; auto. }
    destruct (LogResponseBody (lconfig l)).
    2:{ injection Ha as <-. cbn [fst]. repeat split; auto. }
    destruct (RespBody r) as [rb|] eqn:Eb.
    2:{ injection Ha as <-. cbn [fst]. rewrite Eb. repeat split; auto. }
    pose proof (readAndRestoreBody_restores (Some rb)) as Hr.
    destruct (readAndRestoreBody (Some rb)) as [body restored].
    destruct (body_field _ _ _ _ _ _); simpl in Ha; try discriminate.
    injection Ha as <-. cbn [fst StatusCode Status ContentLength RespHeader RespBody].
    repeat split; auto. }
  assert (Hlog : forall a,
             logRequest ord URL_String l fuel req = Ret a ->
             Method (fst a) = Method req /\ ReqURL (fst a) = ReqURL req /\
             Host (fst a) = Host req /\ ReqHeader (fst a) = ReqHeader req /\
             stream_content (ReqBody (fst a)) = stream_content (ReqBody req)).
  { intros a Ha. unfold logRequest in Ha.
    destruct (negb (logger l)).
    { injection Ha as <-. cbn [fst]. repeat split; auto. }
    destruct (LogRequestBody (lconfig l)).
    2:{ injection Ha as <-. cbn [fst]. repeat split; auto. }
    destruct (ReqBody req) as [rb|] eqn:Eb.
    2:{ injection Ha as <-. cbn [fst]. rewrite Eb. repeat split; auto. }
    pose proof (readAndRestoreBody_restores (Some rb) Hreq) as Hr.
    destruct (readAndRestoreBody (Some rb)) as [body restored].
    destruct (body_field _ _ _ _ _ _); simpl in Ha; try discriminate.
    injection Ha as <-. cbn [fst Method ReqURL Host ReqHeader ReqBody].
    repeat split; auto. }
  unfold RoundTrip in H.
  destruct (match ShouldLog (lconfig l) with Some f => negb (f req) | None => false end).
  - destruct (next l req) as [resp err] eqn:En.
    injection H as <-. cbn [ex_sent ex_resp ex_err]. rewrite En.
    repeat split; auto.
    destruct resp as [r|], err as [e|]; auto.
    split; [reflexivity|]. exists r. repeat split; auto.
  - destruct (logRequest _ _ _ _ _) as [[req' log1]| |] eqn:El; simpl in H;
      try discriminate.
    clear El. pose proof (Hlog _ eq_refl) as El. cbn [fst] in El.
    destruct (next l req') as [resp err] eqn:En.
    destruct err as [e|].
    { injection H as <-. cbn [ex_sent ex_resp ex_err]. rewrite En.
      destruct El as (?&?&?&?&?). repeat split; auto.
      destruct resp; auto. }
    destruct resp as [r|].
    + destruct (logResponse _ _ _ _ _ _ _) as [[r' log2]| |] eqn:Er; simpl in H;
        try discriminate.
      injection H as <-. cbn [ex_sent ex_resp ex_err]. rewrite En.
      apply Hresp in Er. cbn [fst] in Er.
      destruct El as (?&?&?&?&?). repeat split; auto.
      exists r'. split; [reflexivity|exact Er].
    + destruct (logger l); try discriminate.
      injection H as <-. cbn [ex_sent ex_resp ex_err]. rewrite En.
      destruct El as (?&?&?&?&?). repeat split; auto.
Qed.

(** A transport whose answer breaks off while its body is read. *)
Definition broken_answer : RoundTripper :=
  fun _ => (Some (MkResponse 200 (lit "200 OK") (-1)
                    [(lit "Content-Type", [lit "application/json"])]
                    (Some [Data (jq "{'items':[1,2,"); ReadError])),
            None).

Definition logging_transport : LoggingRoundTripper :=
  NewLoggingRoundTripper broken_answer
    (Some (MkLoggingConfig true None true true true None None false)).

(** A request whose body yields some bytes and then a read error. *)
Definition failing_upload : Request :=
  MkRequest (lit "POST")
            (MkURL (lit "https") (lit "api.example.com") (lit "/v1/items") [] [])
            (lit "api.example.com")
            [(lit "Content-Type", [lit "application/json"])]
            (Some [Data (jq "{'name':'a',"); ReadError]).

(** C8 on the code: when reading a body for the log fails,
    readAndRestoreBody returns without putting anything back.  The bytes
    that the stream gave before the error are lost: the wrapped transport
    reads none of the request body, and the caller reads none of the
    body of the response. *)
Lemma RoundTrip_read_error_loses_the_body (ord : range_order)
  (URL_String : URL -> bytes) (duration_ms : Z) (fuel : nat) :
  fst (stream_content (ReqBody failing_upload)) = jq "{'name':'a'," /\
  option_map (fun r => fst (stream_content (RespBody r)))
             (fst (broken_answer failing_upload))
  = Some (jq "{'items':[1,2,") /\
  exists ex,
    RoundTrip ord URL_String duration_ms logging_transport fuel failing_upload = Ret ex /\
    fst (stream_content (ReqBody (ex_sent ex))) = [] /\
    option_map (fun r => fst (stream_content (RespBody r))) (ex_resp ex) = Some [].
Proof.
  split; [reflexivity|]. split; [reflexivity|].
  unfold RoundTrip, logRequest, logResponse. cbn.
  eexists; repeat split; reflexivity.
Qed.

(** ** Parse failures and the rules that end the call *)

(** A body that encoding/json rejects is answered by the pattern detector
    on the raw bytes. *)
Lemma sanitizeJSON_parse_failure (ord : range_order) (config : SanitizerConfig)
  (n : nat) (body : bytes) :
  Unmarshal body = None ->
  sanitizeJSON ord config (S n) body = Ret (sanitizeText config body).
Proof. intro H. simpl. now rewrite H. Qed.

(** So is a form body that url.ParseQuery rejects. *)
Lemma sanitizeFormURLEncoded_parse_failure (ord : range_order) (config : SanitizerConfig)
  (body : bytes) :
  ParseQuery body = None ->
  sanitizeFormURLEncoded ord config body = sanitizeText config body.
Proof. intro H. unfold sanitizeFormURLEncoded. now rewrite H. Qed.

Lemma sanitizeByFormat_returns (ord : range_order) (config : SanitizerConfig)
  (fuel : nat) (body contentType : bytes) :
  length body < fuel ->
  exists out, sanitizeByFormat ord config fuel body contentType = Ret out.
Proof.
  intro Hl. unfold sanitizeByFormat.
  destruct (isJSON contentType || looksLikeJSON body).
  { destruct (sanitizeJSON_ok ord config fuel body Hl) as (r & Er & _). eauto. }
  repeat match goal with |- context [if ?b then _ else _] => destruct b end; eauto.
Qed.

(** With no truncate rule in the configuration, SanitizeBody returns. *)
Lemma SanitizeBody_returns_without_truncate (ord : range_order)
  (config : SanitizerConfig) (fuel : nat) (body contentType : bytes) :
  (forall r, In r (BodyRules config) ->
             bytes_eqb (Action r) BodyActionTruncate = false) ->
  length body < fuel ->
  exists out, SanitizeBody ord config fuel body contentType = Ret out.
Proof.
  intros Hr Hl. destruct fuel as [|n]; [lia|]. cbn [SanitizeBody].
  destruct (length body =? 0); [eauto|].
  induction (BodyRules config) as [|r rules IH]; cbn [applyRules].
  - now apply sanitizeByFormat_returns.
  - assert (IH' := IH (fun r' H => Hr r' (or_intror H))).
    rewrite (Hr r (or_introl eq_refl)).
    repeat match goal with |- context [if ?b then _ else _] => destruct b end;
      eauto.
Qed.

(** * Further properties *)

(** ** Substrings *)

Lemma HasPrefix_app (p suf : bytes) : HasPrefix (p ++ suf) p = true.
Proof.
  induction p as [|x p IH]; [reflexivity|]. simpl. now rewrite Ascii.eqb_refl.
Qed.

Lemma HasPrefix_true (s p : bytes) :
  HasPrefix s p = true -> exists suf, s = p ++ suf.
Proof.
  revert s. induction p as [|x p IH]; intros s H; [exists s; reflexivity|].
  destruct s as [|y s]; [discriminate|]. simpl in H.
  apply andb_true_iff in H as [E H]. apply Ascii.eqb_eq in E. subst y.
  destruct (IH s H) as [suf ->]. now exists suf.
Qed.

Lemma Index_Some (sub : bytes) :
  forall s i, Index s sub = Some i ->
              exists pre suf, s = pre ++ sub ++ suf /\ length pre = i.
Proof.
  induction s as [|c s IH]; intros i; simpl.
  - destruct (HasPrefix [] sub) eqn:E; [|discriminate].
    intro H; injection H as <-. apply HasPrefix_true in E as [suf E].
    exists [], suf. auto.
  - destruct (HasPrefix (c :: s) sub) eqn:E.
    + intro H; injection H as <-. apply HasPrefix_true in E as [suf E].
      exists [], suf. auto.
    + destruct (Index s sub) as [j|]; [|discriminate]. simpl.
      intro H; injection H as <-.
      destruct (IH j eq_refl) as (pre & suf & -> & <-).
      exists (c :: pre), suf. auto.
Qed.

Lemma Index_occurs (sub : bytes) :
  forall pre suf, exists i, Index (pre ++ sub ++ suf) sub = Some i /\ i <= length pre.
Proof.
  induction pre as [|c pre IH]; intro suf.
  - exists 0. split; [|reflexivity]. cbn [app].
    destruct (sub ++ suf) as [|c s] eqn:E.
    + simpl. destruct sub; [reflexivity|discriminate].
    + simpl. rewrite <- E, HasPrefix_app. reflexivity.
  - cbn [app Index].
    destruct (HasPrefix (c :: pre ++ sub ++ suf) sub).
    + exists 0. split; [reflexivity|simpl; lia].
    + destruct (IH suf) as (i & -> & Hi). exists (S i). split; [reflexivity|simpl; lia].
Qed.

Lemma Index_None (sub s : bytes) :
  Index s sub = None -> forall pre suf, s <> pre ++ sub ++ suf.
Proof.
  intros H pre suf ->. destruct (Index_occurs sub pre suf) as (i & E & _).
  rewrite E in H. discriminate.
Qed.

(** strings.Contains finds exactly the substrings. *)
Lemma Contains_iff (s sub : bytes) :
  Contains s sub = true <-> exists pre suf, s = pre ++ sub ++ suf.
Proof.
  unfold Contains. split.
  - destruct (Index s sub) as [i|] eqn:E; [|discriminate]. intros _.
    apply Index_Some in E as (pre & suf & -> & _). eauto.
  - intros (pre & suf & ->).
    destruct (Index_occurs sub pre suf) as (i & -> & _). reflexivity.
Qed.

Lemma ToLower_app (a b : bytes) : ToLower (a ++ b) = ToLower a ++ ToLower b.
Proof. apply map_app. Qed.

Lemma ToLower_length (a : bytes) : length (ToLower a) = length a.
Proof. apply length_map. Qed.

(** ** Field names *)


(** Any name built around a configured name, in any case, is sensitive:
    under the default list, which holds key and pin, so are monkey and
    Shipping. *)
Lemma isSensitiveField_around (config : SanitizerConfig) (sensitive spelled pre suf : bytes) :
  In sensitive (SensitiveFields config) ->
  ToLower spelled = ToLower sensitive ->
  isSensitiveField config (pre ++ spelled ++ suf) = true.
Proof.
  intros Hin E. unfold isSensitiveField. apply existsb_exists.
  exists sensitive. split; [exact Hin|]. apply Contains_iff.
  exists (ToLower pre), (ToLower suf). now rewrite !ToLower_app, E.
Qed.

Lemma isSensitiveField_around_witness :
  isSensitiveField DefaultSanitizerConfig (lit "monkey") = true /\
  isSensitiveField DefaultSanitizerConfig (lit "Shipping") = true.
Proof.
  split.
  - apply (isSensitiveField_around DefaultSanitizerConfig (lit "key") (lit "key")
             (lit "mon") []); [|reflexivity].
    unfold DefaultSanitizerConfig, SensitiveFields. cbn [map]. 
    repeat (first [left; reflexivity | right]).
  - apply (isSensitiveField_around DefaultSanitizerConfig (lit "pin") (lit "pin")
             (lit "Ship") (lit "g")); [|reflexivity].
    unfold DefaultSanitizerConfig, SensitiveFields. cbn [map].
    repeat (first [left; reflexivity | right]).
Defined.

(** ** What the JSON sanitizer does to a value *)

Lemma map_assign_app (V : Type) (m : gomap V) (a b : list (bytes * V)) :
  map_assign (map_assign m a) b = map_assign m (a ++ b).
Proof. unfold map_assign. now rewrite fold_left_app. Qed.

Lemma map_set_below (V : Type) (k : bytes) (v : V) (m : gomap V) :
  key_below V k m -> map_set k v m = (k, v) :: m.
Proof.
  destruct m as [|[k' v'] t]; [reflexivity|]. simpl. now intros ->.
Qed.

(** Assigning the entries of a map to an empty map gives the map back. *)
Lemma map_assign_sorted_id (V : Type) (l : gomap V) :
  keys_sorted l = true -> map_assign [] l = l.
Proof.
  intro Hs.
  rewrite (map_assign_perm V l (rev l) (Permutation_rev l) (keys_sorted_NoDup V l Hs)).
  induction l as [|[k v] l IH]; [reflexivity|].
  apply keys_sorted_cons in Hs as [Hb Hs].
  cbn [rev]. rewrite <- map_assign_app, (IH Hs). cbn.
  now apply map_set_below.
Qed.

Definition is_mask (config : SanitizerConfig) (v : JValue) : bool :=
  match v with
  | JString s => bytes_eqb s (Mask config)
  | _ => false
  end.

(** Every member with a sensitive name holds the mask, at every depth of
    arrays and objects. *)
Fixpoint masked (config : SanitizerConfig) (v : JValue) : bool :=
  match v with
  | JArray l => forallb (fun x => masked config x) l
  | JObject m =>
      forallb (fun '(k, x) => if isSensitiveField config k then is_mask config x
                              else masked config x) m
  | _ => true
  end.

(** [r] is [v] with nothing touched but strings and the members with a
    sensitive name: null, booleans and numbers are the same, a string that
    does not look like JSON is what the pattern detector makes of it, an
    array has the same length, an object the same names in the same
    order. *)
Fixpoint kept (config : SanitizerConfig) (v r : JValue) {struct v} : bool :=
  match v, r with
  | JNull, JNull => true
  | JBool a, JBool b => Bool.eqb a b
  | JNumber a, JNumber b => bytes_eqb a b
  | JString a, JString b =>
      if looksLikeJSON a then true else bytes_eqb b (sanitizeText config a)
  | JArray l, JArray l' =>
      (fix all2 (l l' : list JValue) : bool :=
         match l, l' with
         | [], [] => true
         | x :: t, y :: t' => kept config x y && all2 t t'
         | _, _ => false
         end) l l'
  | JObject m, JObject m' =>
      (fix all2 (m m' : list (bytes * JValue)) : bool :=
         match m, m' with
         | [], [] => true
         | (k, x) :: t, (k', y) :: t' =>
             bytes_eqb k k'
             && (if isSensitiveField config k then true else kept config x y)
             && all2 t t'
         | _, _ => false
         end) m m'
  | _, _ => false
  end.

Lemma mapM_objects_masked (ord : range_order) (config : SanitizerConfig)
  (nested : bytes -> outcome bytes) (m entries : list (bytes * JValue)) :
  Forall (fun kv => forall r, sanitizeValue ord config nested (snd kv) = Ret r ->
                              masked config r = true) m ->
  mapM (fun '(key, val) =>
          x <- (if isSensitiveField config key then Ret (JString (Mask config))
                else sanitizeValue ord config nested val) ;;
          Ret (key, x)) m = Ret entries ->
  Forall (fun '(k, x) => (if isSensitiveField config k then is_mask config x
                          else masked config x) = true) entries.
Proof.
  intros IH E. apply mapM_Ret_Forall2 in E.
  induction E as [|[k x] [k' y] m' es Exy _ IHE]; [constructor|].
  inversion IH as [|? ? Hx Hm]; subst. cbn [snd] in Hx.
  constructor; [|now apply IHE].
  destruct (isSensitiveField config k) eqn:Es.
  - injection Exy as <- <-. rewrite Es. simpl. apply bytes_eqb_refl.
  - destruct (sanitizeValue ord config nested x) as [r| |] eqn:Er; try discriminate.
    simpl in Exy. injection Exy as <- <-. rewrite Es. now apply Hx.
Qed.

(** X2: in what sanitizeValue returns, every member whose name is
    sensitive holds the mask, however deep it lies in arrays and
    objects. *)
Theorem sanitizeValue_masks (ord : range_order) (config : SanitizerConfig)
  (nested : bytes -> outcome bytes) (v r : JValue) :
  sanitizeValue ord config nested v = Ret r -> masked config r = true.
Proof.
  revert r. induction v as [|b|l|s|l IH|m IH] using JValue_ind; intros r H.
  - now injection H as <-.
  - now injection H as <-.
  - now injection H as <-.
  - simpl in H. destruct (looksLikeJSON s).
    + destruct (nested s); try discriminate. now injection H as <-.
    + now injection H as <-.
  - simpl in H.
    destruct (mapM (fun val => sanitizeValue ord config nested val) l)
      as [ys| |] eqn:E; try discriminate.
    injection H as <-. apply mapM_Ret_Forall2 in E.
    simpl. apply forallb_forall. intros y Hy.
    clear - IH E Hy. induction E as [|x y' l' ys' Exy _ IHE]; [easy|].
    inversion IH as [|? ? Hx Hl]; subst.
    destruct Hy as [<-|Hy]; [now apply Hx|now apply IHE].
  - change (sanitizeValue ord config nested (JObject m))
      with (entries <-
              mapM (fun '(key, val) =>
                      x <- (if isSensitiveField config key then Ret (JString (Mask config))
                            else sanitizeValue ord config nested val) ;;
                      Ret (key, x)) m ;;
            Ret (JObject (map_assign [] (ro_visit ord _ entries)))) in H.
    destruct (mapM _ m) as [entries| |] eqn:E; try discriminate.
    injection H as <-.
    pose proof (mapM_objects_masked ord config nested m entries IH E) as HF.
    simpl. apply forallb_forall. intros [k x] Hin.
    apply (map_assign_In JValue) in Hin as [[]|Hin].
    rewrite Forall_forall in HF. apply (HF (k, x)).
    eapply Permutation_in; [apply ro_perm|exact Hin].
Qed.

Definition nested_sample : JValue :=
  JObject [(lit "items", JArray [JObject [(lit "api_key", JNumber (lit "7"));
                                          (lit "qty", JNumber (lit "2"))]]);
           (lit "password", JObject [(lit "hint", JString (lit "x"))])].

Lemma sanitizeValue_masks_witness :
  masked DefaultSanitizerConfig
    (JObject [(lit "items", JArray [JObject [(lit "api_key", JString (lit "***REDACTED***"));
                                             (lit "qty", JNumber (lit "2"))]]);
              (lit "password", JString (lit "***REDACTED***"))]) = true.
Proof.
  apply (sanitizeValue_masks in_reverse_order DefaultSanitizerConfig
           (fun s => Ret s) nested_sample).
  reflexivity.
Defined.

Lemma keys_sorted_map_fst (V W : Type) (a : gomap V) (b : gomap W) :
  map fst a = map fst b -> keys_sorted a = true -> keys_sorted b = true.
Proof.
  revert b. induction a as [|[k v] a IH]; intros [|[k' w] b] E Hs; try discriminate;
    [reflexivity|].
  simpl in E. injection E as <- E.
  destruct a as [|[k1 v1] a], b as [|[k1' w1] b]; try discriminate; [reflexivity|].
  simpl in E. injection E as <- E'.
  simpl in Hs |- *. destruct (bytes_cmp k k1); try discriminate.
  apply (IH ((k1, w1) :: b)); [simpl; now f_equal|exact Hs].
Qed.

(** X3: sanitizeValue touches nothing but strings and the members with a
    sensitive name. *)
Theorem sanitizeValue_keeps (ord : range_order) (config : SanitizerConfig)
  (nested : bytes -> outcome bytes) (v r : JValue) :
  wf_value v = true ->
  sanitizeValue ord config nested v = Ret r -> kept config v r = true.
Proof.
  revert r. induction v as [|b|l|s|l IH|m IH] using JValue_ind; intros r Hwf H.
  - now injection H as <-.
  - injection H as <-. simpl. now destruct b.
  - injection H as <-. simpl. apply bytes_eqb_refl.
  - simpl in H. simpl. destruct (looksLikeJSON s).
    + destruct (nested s); try discriminate. now injection H as <-.
    + injection H as <-. apply bytes_eqb_refl.
  - apply wf_value_array in Hwf. simpl in H.
    destruct (mapM (fun val => sanitizeValue ord config nested val) l)
      as [ys| |] eqn:E; try discriminate.
    injection H as <-. apply mapM_Ret_Forall2 in E.
    cbn [kept]. induction E as [|x y l' ys' Exy _ IHE]; [reflexivity|].
    inversion IH as [|? ? Hx Hl]; subst. inversion Hwf as [|? ? Wx Wl]; subst.
    rewrite (Hx y Wx Exy). simpl. now apply IHE.
  - apply wf_value_object in Hwf as [Hs Hwf].
    change (sanitizeValue ord config nested (JObject m))
      with (entries <-
              mapM (fun '(key, val) =>
                      x <- (if isSensitiveField config key then Ret (JString (Mask config))
                            else sanitizeValue ord config nested val) ;;
                      Ret (key, x)) m ;;
            Ret (JObject (map_assign [] (ro_visit ord _ entries)))) in H.
    destruct (mapM _ m) as [entries| |] eqn:E; try discriminate.
    injection H as <-.
    pose proof (mapM_entries_keys _ _
                  (fun key val => if isSensitiveField config key
                                  then Ret (JString (Mask config))
                                  else sanitizeValue ord config nested val)
                  m entries E) as Hk.
    assert (Hse : keys_sorted entries = true).
    { apply (keys_sorted_map_fst _ _ m entries); [now symmetry|exact Hs]. }
    rewrite map_assign_visit by (now apply keys_sorted_NoDup).
    rewrite (map_assign_sorted_id _ entries Hse).
    apply mapM_Ret_Forall2 in E. clear Hk Hse Hs.
    cbn [kept]. induction E as [|[k x] [k' y] m' es Exy _ IHE]; [reflexivity|].
    inversion IH as [|? ? Hx Hm]; subst. inversion Hwf as [|? ? Wx Wm]; subst.
    cbn [snd] in Hx, Wx.
    destruct (isSensitiveField config k) eqn:Es.
    + injection Exy as <- <-. rewrite bytes_eqb_refl. simpl. now apply IHE.
    + destruct (sanitizeValue ord config nested x) as [r| |] eqn:Er; try discriminate.
      simpl in Exy. injection Exy as <- <-.
      rewrite bytes_eqb_refl, (Hx r Wx eq_refl). simpl. now apply IHE.
Qed.

Lemma sanitizeValue_keeps_witness :
  kept DefaultSanitizerConfig nested_sample
    (JObject [(lit "items", JArray [JObject [(lit "api_key", JString (lit "***REDACTED***"));
                                             (lit "qty", JNumber (lit "2"))]]);
              (lit "password", JString (lit "***REDACTED***"))]) = true.
Proof.
  apply (sanitizeValue_keeps in_reverse_order DefaultSanitizerConfig
           (fun s => Ret s) nested_sample); reflexivity.
Defined.

(** ** MarshalIndent and Unmarshal, there and back *)

Lemma parse_string_quote (s rest : bytes) :
  parse_string (flat_map escape_char s ++ dquote :: rest) = Some (s, rest).
Proof.
  induction s as [|c s IH].
  - reflexivity.
  - cbn [flat_map]. rewrite <- app_assoc.
    ascii_cases c; cbn -[flat_map parse_string app];
      cbn [app parse_string]; cbn -[flat_map parse_string app];
      rewrite IH; reflexivity.
Qed.

(** Every number of the value is one that the decoder takes. *)
Fixpoint numbers_fit (v : JValue) : bool :=
  match v with
  | JNumber l => fits_float64 l
  | JArray l => forallb (fun x => numbers_fit x) l
  | JObject m => forallb (fun '(_, x) => numbers_fit x) m
  | _ => true
  end.

Lemma parse_value_number_fit (n : nat) (dp : N) (l rest : bytes) :
  is_number l = true -> forallb is_num_char l = true -> fits_float64 l = true ->
  follow_ok rest ->
  parse_value fits_float64 (S n) dp (l ++ rest) = Some (JNumber l, rest).
Proof.
  intros Hn Hl Hfit Hr.
  destruct (is_number_head l Hn) as (c & t & -> & Hc).
  pose proof (parse_number_exact (c :: t) rest Hn Hl Hr) as E.
  revert E. cbn [app].
  ascii_cases c; destruct Hc as [Hc|Hc]; try discriminate Hc;
    intro E; cbn -[parse_number N.leb fits_float64]; now rewrite E, Hfit.
Qed.

Definition decodes (v : JValue) : Prop :=
  forall d dp fuel rest,
    vsize v <= fuel -> nests_within dp v = true -> follow_ok rest ->
    parse_value fits_float64 fuel dp (marshal d v ++ rest) = Some (v, rest).

Lemma parse_elems_decodes (d n : nat) (dp : N) (rest : bytes) :
  forall xs x k,
    Forall (fun y => decodes y /\ nests_within dp y = true) (x :: xs) ->
    list_sum (map (fun y => vsize y) (x :: xs)) <= n ->
    length (x :: xs) <= k ->
    parse_elems (parse_value fits_float64 n dp) k
      (newline :: indent (S d) ++ marshal (S d) x
       ++ flat_map (elem_text d) xs ++ newline :: indent d ++ "]"%char :: rest)
    = Some (x :: xs, rest).
Proof.
  induction xs as [|y ys IH]; intros x k HF Hn Hk;
    (destruct k as [|k]; [simpl in Hk; lia|]);
    inversion HF as [|? ? [Hx Nx] HF']; subst;
    cbn [parse_elems];
    rewrite parse_value_skip, skip_ws_line, <- parse_value_skip.
  - cbn [flat_map app].
    rewrite (Hx (S d) dp n (newline :: indent d ++ "]"%char :: rest));
      [|simpl in Hn; lia|exact Nx|reflexivity].
    rewrite skip_ws_line. cbn. reflexivity.
  - rewrite elems_text_cons.
    rewrite (Hx (S d) dp n (","%char :: newline :: indent (S d) ++ marshal (S d) y
                            ++ flat_map (elem_text d) ys
                            ++ newline :: indent d ++ "]"%char :: rest));
      [|simpl in Hn; lia|exact Nx|reflexivity].
    rewrite (skip_ws_nonws ","%char _ eq_refl). cbv beta iota.
    rewrite Ascii.eqb_refl.
    rewrite (IH y k HF'); [reflexivity|simpl in Hn |- *; lia|simpl in Hk |- *; lia].
Qed.

Lemma parse_members_decodes (d n : nat) (dp : N) (rest : bytes) :
  forall ms k0 x k,
    Forall (fun kv : bytes * JValue =>
              decodes (snd kv) /\ nests_within dp (snd kv) = true) ((k0, x) :: ms) ->
    list_sum (map (fun '(_, y) => vsize y) ((k0, x) :: ms)) <= n ->
    length ((k0, x) :: ms) <= k ->
    parse_members (parse_value fits_float64 n dp) k
      (newline :: indent (S d) ++ dquote :: flat_map escape_char k0
       ++ dquote :: ":"%char :: " "%char :: marshal (S d) x
       ++ flat_map (member_text d) ms ++ newline :: indent d ++ "}"%char :: rest)
    = Some ((k0, x) :: ms, rest).
Proof.
  induction ms as [|[k1 y] ms IH]; intros k0 x k HF Hn Hk;
    (destruct k as [|k]; [simpl in Hk; lia|]);
    inversion HF as [|? ? [Hx Nx] HF']; subst; cbn [snd] in Hx, Nx;
    cbn [parse_members];
    rewrite skip_ws_line, (skip_ws_nonws dquote _ eq_refl); cbv beta iota;
    rewrite Ascii.eqb_refl, parse_string_quote;
    rewrite (skip_ws_nonws ":"%char _ eq_refl); cbv beta iota;
    rewrite Ascii.eqb_refl;
    rewrite parse_value_skip, (skip_ws_ws " "%char _ eq_refl), <- parse_value_skip.
  - cbn [flat_map app].
    rewrite (Hx (S d) dp n (newline :: indent d ++ "}"%char :: rest));
      [|simpl in Hn; lia|exact Nx|reflexivity].
    rewrite skip_ws_line. cbn. reflexivity.
  - rewrite members_text_cons.
    match goal with
    | |- context [parse_value fits_float64 n dp (marshal (S d) x ++ ?R)] =>
        rewrite (Hx (S d) dp n R); [|simpl in Hn; lia|exact Nx|reflexivity]
    end.
    rewrite (skip_ws_nonws ","%char _ eq_refl). cbv beta iota.
    rewrite Ascii.eqb_refl.
    rewrite (IH k1 y k HF'); [reflexivity|simpl in Hn |- *; lia|simpl in Hk |- *; lia].
Qed.

Lemma marshal_decodes (v : JValue) :
  wf_value v = true -> numbers_fit v = true -> decodes v.
Proof.
  induction v as [|b|l|s|l IH|m IH] using JValue_ind;
    intros Hwf Hfit d dp fuel rest Hf Hd Hr;
    (destruct fuel as [|n]; [simpl in Hf; lia|]).
  - reflexivity.
  - destruct b; reflexivity.
  - simpl in Hwf. apply andb_true_iff in Hwf as [Hn Hl].
    now apply parse_value_number_fit.
  - cbn [marshal]. unfold quote_string.
    cbn [app]. rewrite <- app_assoc. cbn [app].
    cbn -[parse_string flat_map]. now rewrite parse_string_quote.
  - apply nests_within_array in Hd as [Hd Hnest].
    cbn [numbers_fit] in Hfit. rewrite forallb_forall in Hfit.
    destruct l as [|x xs].
    { cbn [marshal lit list_ascii_of_string app]. now rewrite parse_value_array. }
    apply wf_value_array in Hwf.
    assert (HF : Forall (fun y => decodes y /\ nests_within (dp + 1) y = true) (x :: xs)).
    { rewrite Forall_forall in IH, Hwf, Hnest |- *. intros y Hy. split; auto. }
    simpl in Hf.
    rewrite marshal_array_text, (parse_value_array _ _ _ _ Hd).
    rewrite (parse_elems_decodes d n (dp + 1) rest xs x n HF);
      [|simpl; lia|pose proof (length_le_vsizes (x :: xs)); simpl in *; lia].
    rewrite skip_ws_line.
    inversion Hwf as [|? ? Hx _]; subst.
    destruct (marshal_head (S d) x Hx) as (c & t & Hm & Hws & Hb & _).
    rewrite Hm. cbn [app]. rewrite (skip_ws_nonws c _ Hws), Hb. reflexivity.
  - apply nests_within_object in Hd as [Hd Hnest].
    cbn [numbers_fit] in Hfit. rewrite forallb_forall in Hfit.
    destruct m as [|[k x] ms].
    { cbn [marshal lit list_ascii_of_string app]. now rewrite parse_value_object. }
    apply wf_value_object in Hwf as [Hs Hwf].
    assert (HF : Forall (fun kv : bytes * JValue =>
                           decodes (snd kv) /\ nests_within (dp + 1) (snd kv) = true)
                        ((k, x) :: ms)).
    { rewrite Forall_forall in IH, Hwf, Hnest |- *. intros [k' y] Hy. split; auto.
      apply IH; auto. apply (Hfit (k', y) Hy). }
    simpl in Hf.
    rewrite marshal_object_text, (parse_value_object _ _ _ _ Hd).
    rewrite (parse_members_decodes d n (dp + 1) rest ms k x n HF);
      [|simpl; lia|pose proof (length_le_vsizes_members ((k, x) :: ms)); simpl in *; lia].
    rewrite skip_ws_line, (skip_ws_nonws dquote _ eq_refl).
    change (Ascii.eqb dquote "}") with false. cbv beta iota.
    now rewrite (map_assign_sorted_id _ _ Hs).
Qed.

(** json.Unmarshal gives back the value that json.MarshalIndent wrote. *)
Lemma Unmarshal_marshal (v : JValue) :
  wf_value v = true -> numbers_fit v = true -> nests_within 0 v = true ->
  Unmarshal (marshal 0 v) = Some v.
Proof.
  intros Hwf Hfit Hd. unfold Unmarshal, parse_text.
  pose proof (marshal_decodes v Hwf Hfit 0 0%N (S (length (marshal 0 v))) []) as E.
  rewrite app_nil_r in E. rewrite E; [reflexivity| |exact Hd|exact I].
  pose proof (vsize_le_marshal v Hwf 0). lia.
Qed.

Lemma parse_value_numbers_fit (fuel : nat) :
  forall d s v r, parse_value fits_float64 fuel d s = Some (v, r) ->
                  numbers_fit v = true.
Proof.
  induction fuel as [|n IH]; intros d s v r; cbn [parse_value]; [discriminate|].
  destruct (skip_ws s) as [|c t]; [discriminate|].
  destruct (Ascii.eqb c "{").
  { destruct (maxNestingDepth <=? d)%N; [discriminate|].
    destruct (skip_ws t) as [|c' t']; [discriminate|].
    destruct (Ascii.eqb c' "}"); [intro H; now injection H as <- _|].
    destruct (parse_members (parse_value fits_float64 n (d + 1)) n t)
      as [[ms r']|] eqn:E; [|discriminate].
    intro H; injection H as <- _.
    pose proof (map_assign_Forall JValue (fun x => numbers_fit x = true) ms
                  (parse_members_Forall (fun x => numbers_fit x = true) _ (IH _)
                     _ _ _ _ E)) as HF.
    simpl. apply forallb_forall. intros [k x] Hin.
    rewrite Forall_forall in HF. apply (HF (k, x) Hin). }
  destruct (Ascii.eqb c "[").
  { destruct (maxNestingDepth <=? d)%N; [discriminate|].
    destruct (skip_ws t) as [|c' t']; [discriminate|].
    destruct (Ascii.eqb c' "]"); [intro H; now injection H as <- _|].
    destruct (parse_elems (parse_value fits_float64 n (d + 1)) n t)
      as [[vs r']|] eqn:E; [|discriminate].
    intro H; injection H as <- _.
    pose proof (parse_elems_Forall (fun x => numbers_fit x = true) _ (IH _)
                  _ _ _ _ E) as HF.
    simpl. apply forallb_forall. now apply Forall_forall. }
  destruct (Ascii.eqb c dquote).
  { destruct (parse_string t) as [[str r']|]; [|discriminate].
    intro H; now injection H as <- _. }
  assert (W : forall w v0, numbers_fit v0 = true ->
                           parse_word w v0 (c :: t) = Some (v, r) ->
                           numbers_fit v = true).
  { intros w v0 Hv. unfold parse_word. destruct (HasPrefix (c :: t) w); [|discriminate].
    intro H; now injection H as <- _. }
  destruct (Ascii.eqb c "t"); [now apply W|].
  destruct (Ascii.eqb c "f"); [now apply W|].
  destruct (Ascii.eqb c "n"); [now apply W|].
  destruct (parse_number (c :: t)) as [[l r']|]; [|discriminate].
  destruct (fits_float64 l) eqn:E; [|discriminate].
  intro H; injection H as <- _. exact E.
Qed.

Lemma Unmarshal_numbers_fit (data : bytes) (v : JValue) :
  Unmarshal data = Some v -> numbers_fit v = true.
Proof.
  intro H. apply parse_text_Some in H as [r H]. eapply parse_value_numbers_fit; eauto.
Qed.

Lemma sanitizeValue_numbers_fit (ord : range_order) (config : SanitizerConfig)
  (nested : bytes -> outcome bytes) (v r : JValue) :
  numbers_fit v = true ->
  sanitizeValue ord config nested v = Ret r -> numbers_fit r = true.
Proof.
  revert r. induction v as [|b|l|s|l IH|m IH] using JValue_ind; intros r Hv H.
  - now injection H as <-.
  - now injection H as <-.
  - now injection H as <-.
  - simpl in H. destruct (looksLikeJSON s).
    + destruct (nested s); try discriminate. now injection H as <-.
    + now injection H as <-.
  - simpl in H, Hv. rewrite forallb_forall in Hv.
    destruct (mapM (fun val => sanitizeValue ord config nested val) l)
      as [ys| |] eqn:E; try discriminate.
    injection H as <-. apply mapM_Ret_Forall2 in E.
    simpl. apply forallb_forall. intros y Hy.
    clear - IH E Hy Hv. induction E as [|x y' l' ys' Exy _ IHE]; [easy|].
    inversion IH as [|? ? Hx Hl]; subst.
    destruct Hy as [<-|Hy].
    + apply Hx; [apply Hv; now left|exact Exy].
    + apply IHE; auto. intros z Hz. apply Hv. now right.
  - cbn [numbers_fit] in Hv. rewrite forallb_forall in Hv.
    change (sanitizeValue ord config nested (JObject m))
      with (entries <-
              mapM (fun '(key, val) =>
                      x <- (if isSensitiveField config key then Ret (JString (Mask config))
                            else sanitizeValue ord config nested val) ;;
                      Ret (key, x)) m ;;
            Ret (JObject (map_assign [] (ro_visit ord _ entries)))) in H.
    destruct (mapM _ m) as [entries| |] eqn:E; try discriminate.
    injection H as <-.
    assert (HF : Forall (fun kv => numbers_fit (snd kv) = true) entries).
    { apply mapM_Ret_Forall2 in E.
      induction E as [|[k x] [k' y] m' es Exy _ IHE]; [constructor|].
      inversion IH as [|? ? Hx Hm]; subst. cbn [snd] in Hx.
      constructor.
      - cbn [snd]. destruct (isSensitiveField config k).
        + now injection Exy as _ <-.
        + destruct (sanitizeValue ord config nested x) as [r| |] eqn:Er;
            try discriminate.
          simpl in Exy. injection Exy as _ <-.
          apply Hx; [|reflexivity]. apply (Hv (k, x)). now left.
      - apply IHE; auto. intros z Hz. apply Hv. now right. }
    simpl. apply forallb_forall. intros [k x] Hin.
    apply (map_assign_In JValue) in Hin as [[]|Hin].
    rewrite Forall_forall in HF. apply (HF (k, x)).
    eapply Permutation_in; [apply ro_perm|exact Hin].
Qed.

(** X4: when no rule catches a body that decodes as JSON and is taken for
    JSON, what SanitizeBody returns decodes again, to the very value that
    sanitizeValue made of the decoded body. *)
Theorem SanitizeBody_decodes_to_sanitized (ord : range_order) (config : SanitizerConfig)
  (fuel : nat) (body contentType : bytes) (data : JValue) :
  Unmarshal body = Some data ->
  (forall r, In r (BodyRules config) -> Condition r contentType body (len body) = false) ->
  isJSON contentType = true \/ looksLikeJSON body = true ->
  length body < fuel ->
  exists out r,
    SanitizeBody ord config fuel body contentType = Ret out /\
    sanitizeValue ord config (sanitizeJSON ord config (fuel - 1)) data = Ret r /\
    Unmarshal out = Some r.
Proof.
  intros Hv Hr Hj Hf. destruct fuel as [|n]; [lia|].
  rewrite (SanitizeBody_no_match ord config n body contentType
             (Unmarshal_nonempty body data Hv) Hr).
  unfold sanitizeByFormat.
  assert (E : isJSON contentType || looksLikeJSON body = true).
  { destruct Hj as [-> | ->]; [reflexivity|apply orb_true_r]. }
  rewrite E. cbn [sanitizeJSON]. rewrite Hv.
  replace (S n - 1) with n by lia.
  destruct (sanitizeValue_ok ord config (sanitizeJSON ord config n) (length body))
    with (v := data) as (r & Er & Wr & Dr).
  - intros s Hs. destruct (sanitizeJSON_ok ord config n s) as (x & Ex & _); [lia|]. eauto.
  - eapply Unmarshal_wf; eauto.
  - now apply Unmarshal_strs_below.
  - rewrite Er. cbn. exists (marshal 0 r), r. repeat split.
    apply Unmarshal_marshal; [exact Wr| |].
    + eapply sanitizeValue_numbers_fit; [|exact Er].
      eapply Unmarshal_numbers_fit; eauto.
    + apply Dr. eapply Unmarshal_nests; eauto.
Qed.

Lemma SanitizeBody_decodes_to_sanitized_witness :
  exists out r,
    SanitizeBody in_key_order DefaultSanitizerConfig 50 scenario1_body
                 (lit "application/json") = Ret out /\
    sanitizeValue in_key_order DefaultSanitizerConfig
                  (sanitizeJSON in_key_order DefaultSanitizerConfig (50 - 1))
                  scenario1_data = Ret r /\
    Unmarshal out = Some r.
Proof.
  apply (SanitizeBody_decodes_to_sanitized in_key_order DefaultSanitizerConfig 50
           scenario1_body (lit "application/json") scenario1_data).
  - reflexivity.
  - intros r [<-|[<-|[<-|[<-|[]]]]]; reflexivity.
  - left; reflexivity.
  - simpl; lia.
Defined.

(** ** The rule that decides *)

(** The actions that end SanitizeBody. *)
Definition ends_call (a : BodyAction) : bool :=
  bytes_eqb a BodyActionSkip || bytes_eqb a BodyActionSummarize
  || bytes_eqb a BodyActionTruncate.

(** What a rule with such an action answers. *)
Definition rule_answer (ord : range_order) (config : SanitizerConfig)
  (again : bytes -> bytes -> outcome bytes) (rule : BodyProcessingRule)
  (body contentType : bytes) : outcome bytes :=
  if bytes_eqb (Action rule) BodyActionSkip then
    Ret (match Message rule with [] => lit "[Body not logged]" | m => m end)
  else if bytes_eqb (Action rule) BodyActionSummarize then
    Ret (summarizeBody body contentType (len body))
  else truncateBody config again body contentType.

Lemma applyRules_first_ending (ord : range_order) (config : SanitizerConfig)
  (again : bytes -> bytes -> outcome bytes) (fuel : nat)
  (before : list BodyProcessingRule) (rule : BodyProcessingRule)
  (after : list BodyProcessingRule) (body contentType : bytes) :
  (forall r, In r before ->
             Condition r contentType body (len body) && ends_call (Action r) = false) ->
  Condition rule contentType body (len body) = true ->
  ends_call (Action rule) = true ->
  applyRules ord config again fuel (before ++ rule :: after) body contentType
  = rule_answer ord config again rule body contentType.
Proof.
  intros Hb Hc He. induction before as [|r before IH]; cbn [app applyRules].
  - rewrite Hc. unfold rule_answer, ends_call in *.
    destruct (bytes_eqb (Action rule) BodyActionSkip).
    { destruct (Message rule); reflexivity. }
    destruct (bytes_eqb (Action rule) BodyActionSummarize); [reflexivity|].
    destruct (bytes_eqb (Action rule) BodyActionTruncate); [reflexivity|discriminate].
  - pose proof (Hb r (or_introl eq_refl)) as Hr.
    assert (IH' := IH (fun r' H => Hb r' (or_intror H))).
    destruct (Condition r contentType body (len body)); [|exact IH'].
    simpl in Hr. unfold ends_call in Hr.
    destruct (bytes_eqb (Action r) BodyActionSkip); [discriminate|].
    destruct (bytes_eqb (Action r) BodyActionSummarize); [discriminate|].
    destruct (bytes_eqb (Action r) BodyActionTruncate); [discriminate|].
    exact IH'.
Qed.

(** X5: the first rule whose condition holds and whose action is skip,
    summarize or truncate decides what SanitizeBody returns for a body
    that is not empty; the rules after it and the format of the body play
    no part. *)
Theorem SanitizeBody_first_ending_rule (ord : range_order) (config : SanitizerConfig)
  (fuel : nat) (before : list BodyProcessingRule) (rule : BodyProcessingRule)
  (after : list BodyProcessingRule) (body contentType : bytes) :
  BodyRules config = before ++ rule :: after ->
  (forall r, In r before ->
             Condition r contentType body (len body) && ends_call (Action r) = false) ->
  Condition rule contentType body (len body) = true ->
  ends_call (Action rule) = true ->
  body <> [] ->
  SanitizeBody ord config (S fuel) body contentType
  = rule_answer ord config (SanitizeBody ord config fuel) rule body contentType.
Proof.
  intros Hrules Hb Hc He Hne. cbn [SanitizeBody].
  destruct body as [|c body]; [easy|]. cbn [length Nat.eqb].
  rewrite Hrules. now apply applyRules_first_ending.
Qed.

Lemma SanitizeBody_first_ending_rule_witness :
  SanitizeBody in_key_order DefaultSanitizerConfig 1 (jq "{'a':1}") (lit "image/png")
  = Ret (lit "[Binary content - not logged]").
Proof.
  apply (SanitizeBody_first_ending_rule in_key_order DefaultSanitizerConfig 0 []
           (Rule (fun contentType _ _ => isBinaryContent contentType)
                 BodyActionSkip (lit "[Binary content - not logged]"))
           (tl defaultRules) (jq "{'a':1}") (lit "image/png")).
  - reflexivity.
  - intros r [].
  - reflexivity.
  - reflexivity.
  - discriminate.
Defined.

(** ** The interceptor without a logger, and without bodies *)

(** X6: an interceptor that has no logger (as the one built from a nil
    config) reads nothing and logs nothing: the wrapped transport gets the
    request as it came, and the caller gets the transport's error, or else
    its response. *)
Theorem RoundTrip_without_logger (ord : range_order) (URL_String : URL -> bytes)
  (duration_ms : Z) (l : LoggingRoundTripper) (fuel : nat) (req : Request) :
  logger l = false ->
  exists ex,
    RoundTrip ord URL_String duration_ms l fuel req = Ret ex /\
    ex_sent ex = req /\ ex_log ex = [] /\
    ex_err ex = snd (next l req) /\
    (snd (next l req) = None -> ex_resp ex = fst (next l req)).
Proof.
  intro Hl. unfold RoundTrip, logRequest, logResponse, logError. rewrite Hl. cbn.
  destruct (match ShouldLog (lconfig l) with Some f => negb (f req) | None => false end);
    destruct (next l req) as [resp [e|]]; cbn.
  - eexists; repeat split; discriminate.
  - eexists; repeat split; reflexivity.
  - eexists; repeat split; discriminate.
  - destruct resp as [r|]; eexists; repeat split; reflexivity.
Qed.

Lemma RoundTrip_without_logger_witness :
  exists ex,
    RoundTrip in_key_order (fun _ => []) 0
              (NewLoggingRoundTripper broken_answer None) 0 failing_upload = Ret ex /\
    ex_sent ex = failing_upload /\ ex_log ex = [] /\
    ex_err ex = snd (broken_answer failing_upload) /\
    (snd (broken_answer failing_upload) = None ->
     ex_resp ex = fst (broken_answer failing_upload)).
Proof.
  apply (RoundTrip_without_logger in_key_order (fun _ => []) 0
           (NewLoggingRoundTripper broken_answer None) 0 failing_upload).
  reflexivity.
Defined.

(** X7: after WithoutBodyLogging no body is read, whatever its stream
    does: the wrapped transport gets the request as it came, and a
    response comes back as the transport gave it. *)
Theorem WithoutBodyLogging_leaves_bodies (ord : range_order) (URL_String : URL -> bytes)
  (duration_ms : Z) (l : LoggingRoundTripper) (fuel : nat) (req : Request)
  (ex : Exchange) :
  RoundTrip ord URL_String duration_ms (WithoutBodyLogging l) fuel req = Ret ex ->
  ex_sent ex = req /\
  ex_err ex = snd (next l req) /\
  (snd (next l req) = None -> ex_resp ex = fst (next l req)).
Proof.
  unfold RoundTrip, logRequest, logResponse, logError, WithoutBodyLogging,
    NewLoggingRoundTripper.
  cbn [lconfig next logger sanitizer LogRequestBody LogResponseBody ShouldLog
       HasLogger LogHeaders Verbose].
  destruct (match ShouldLog (lconfig l) with Some f => negb (f req) | None => false end).
  { destruct (next l req) as [resp err]. intro H; injection H as <-. cbn. auto. }
  destruct (negb (HasLogger (lconfig l))) eqn:Hl; cbn [bind].
  - destruct (next l req) as [resp [e|]]; cbn.
    + intro H; injection H as <-. cbn. repeat split; discriminate.
    + destruct resp as [r|]; cbn.
      * intro H; injection H as <-. cbn. auto.
      * apply negb_true_iff in Hl. rewrite Hl.
        intro H; injection H as <-. cbn. auto.
  - destruct (next l req) as [resp [e|]]; cbn.
    + intro H; injection H as <-. cbn. repeat split; discriminate.
    + destruct resp as [r|]; cbn.
      * intro H; injection H as <-. cbn. auto.
      * apply negb_false_iff in Hl. rewrite Hl. discriminate.
Qed.

Lemma WithoutBodyLogging_leaves_bodies_witness :
  exists ex,
    RoundTrip in_key_order (fun _ => lit "https://api.example.com/v1/items") 12
              (WithoutBodyLogging logging_transport) 0 failing_upload = Ret ex /\
    ex_sent ex = failing_upload /\
    ex_resp ex = fst (broken_answer failing_upload).
Proof.
  eexists. split; [reflexivity|].
  destruct (WithoutBodyLogging_leaves_bodies in_key_order
              (fun _ => lit "https://api.example.com/v1/items") 12
              logging_transport 0 failing_upload _ eq_refl) as (Hs & _ & Hr).
  split; [exact Hs|]. apply Hr. reflexivity.
Defined.

(** ** What reaches the log *)

Lemma logRequest_entry (ord : range_order) (URL_String : URL -> bytes)
  (l : LoggingRoundTripper) (fuel : nat) (req : Request)
  (x : Request * list log_entry) :
  logger l = true ->
  logRequest ord URL_String l fuel req = Ret x ->
  exists f1, snd x = [(LInfo, lit "→ HTTP Request", f1)].
Proof.
  intro Hl. unfold logRequest. rewrite Hl. cbn [negb].
  destruct (if LogRequestBody (lconfig l) then ReqBody req else None).
  - destruct (readAndRestoreBody (ReqBody req)) as [body restored].
    destruct (body_field _ _ _ _ _ _); cbn; try discriminate.
    intro H; injection H as <-. eexists; reflexivity.
  - intro H; injection H as <-. eexists; reflexivity.
Qed.

Lemma logResponse_entry (ord : range_order) (URL_String : URL -> bytes)
  (duration_ms : Z) (l : LoggingRoundTripper) (fuel : nat) (req : Request)
  (r : Response) (x : Response * list log_entry) :
  logger l = true ->
  logResponse ord URL_String duration_ms l fuel req r = Ret x ->
  StatusCode (fst x) = StatusCode r /\
  exists f2,
    snd x = [(if (500 <=? StatusCode r)%Z then LError
              else if (400 <=? StatusCode r)%Z then LInfo else LDebug,
              lit "← HTTP Response", f2)].
Proof.
  intro Hl. unfold logResponse. rewrite Hl. cbn [negb].
  destruct (if LogResponseBody (lconfig l) then RespBody r else None).
  - destruct (readAndRestoreBody (RespBody r)) as [body restored].
    destruct (body_field _ _ _ _ _ _); cbn; try discriminate.
    intro H; injection H as <-. split; [reflexivity|]. eexists; reflexivity.
  - intro H; injection H as <-. split; [reflexivity|]. eexists; reflexivity.
Qed.

(** The entries of one exchange: the request, then the error or the
    response at the level its status calls for. *)
Lemma RoundTrip_log_heads (ord : range_order) (URL_String : URL -> bytes)
  (duration_ms : Z) (l : LoggingRoundTripper) (fuel : nat) (req : Request)
  (ex : Exchange) :
  logger l = true ->
  match ShouldLog (lconfig l) with Some f => f req | None => true end = true ->
  RoundTrip ord URL_String duration_ms l fuel req = Ret ex ->
  exists f1 f2,
    ex_log ex =
    [ (LInfo, lit "→ HTTP Request", f1);
      match ex_err ex, ex_resp ex with
      | Some _, _ => (LError, lit "✗ HTTP Request Failed", f2)
      | None, Some r =>
          (if (500 <=? StatusCode r)%Z then LError
           else if (400 <=? StatusCode r)%Z then LInfo else LDebug,
           lit "← HTTP Response", f2)
      | None, None => (LDebug, [], f2)
      end ] /\
    (ex_err ex = None -> ex_resp ex <> None).
Proof.
  intros Hl Hs. unfold RoundTrip.
  replace (match ShouldLog (lconfig l) with Some f => negb (f req) | None => false end)
    with false by (destruct (ShouldLog (lconfig l)); [now rewrite Hs|reflexivity]).
  destruct (logRequest ord URL_String l fuel req) as [[req' log1]| |] eqn:E1;
    cbn [bind]; try discriminate.
  apply (logRequest_entry _ _ _ _ _ _ Hl) in E1 as [f1 E1]. cbn [snd] in E1. subst log1.
  destruct (next l req') as [resp [e|]].
  - unfold logError. rewrite Hl. cbn.
    intro H; injection H as <-. cbn. eexists _, _. split; [reflexivity|discriminate].
  - destruct resp as [r|]; [|rewrite Hl; discriminate].
    destruct (logResponse ord URL_String duration_ms l fuel req' r)
      as [[r' log2]| |] eqn:E2; cbn [bind]; try discriminate.
    apply (logResponse_entry _ _ _ _ _ _ _ _ Hl) in E2 as [Es [f2 E2]].
    cbn [fst snd] in Es, E2. subst log2.
    intro H; injection H as <-. cbn. rewrite Es. eexists _, _.
    split; [reflexivity|discriminate].
Qed.

(** X8: with a SimpleLogger for logger, one exchange writes the request
    line at every level up to INFO, and after it one more line exactly
    when the transport failed or the level lets the response through: a
    status from 500 on at every level up to ERROR, from 400 on up to INFO,
    any other at DEBUG only. *)
Theorem SimpleLogger_lines (ord : range_order) (URL_String : URL -> bytes)
  (duration_ms : Z) (l : LoggingRoundTripper) (fuel : nat) (req : Request)
  (ex : Exchange) (level : LogLevel) (now : bytes) :
  logger l = true ->
  match ShouldLog (lconfig l) with Some f => f req | None => true end = true ->
  RoundTrip ord URL_String duration_ms l fuel req = Ret ex ->
  length (flat_map (SimpleLogger_write level now) (ex_log ex)) =
  (if (level <=? INFO)%Z then 1 else 0) +
  match ex_err ex, ex_resp ex with
  | Some _, _ => if (level <=? ERROR)%Z then 1 else 0
  | None, Some r =>
      if (500 <=? StatusCode r)%Z then (if (level <=? ERROR)%Z then 1 else 0)
      else if (400 <=? StatusCode r)%Z then (if (level <=? INFO)%Z then 1 else 0)
      else (if (level <=? DEBUG)%Z then 1 else 0)
  | None, None => 0
  end.
Proof.
  intros Hl Hs H.
  destruct (RoundTrip_log_heads ord URL_String duration_ms l fuel req ex Hl Hs H)
    as (f1 & f2 & E & Hnn).
  rewrite E. cbn [flat_map]. rewrite app_nil_r, length_app.
  unfold SimpleLogger_write at 1, SimpleLogger_Info.
  f_equal.
  - destruct (level <=? INFO)%Z; reflexivity.
  - destruct (ex_err ex) as [e|].
    + unfold SimpleLogger_write, SimpleLogger_Error.
      destruct (level <=? ERROR)%Z; reflexivity.
    + destruct (ex_resp ex) as [r|]; [|now contradiction (Hnn eq_refl)].
      destruct (500 <=? StatusCode r)%Z.
      * unfold SimpleLogger_write, SimpleLogger_Error.
        destruct (level <=? ERROR)%Z; reflexivity.
      * destruct (400 <=? StatusCode r)%Z.
        -- unfold SimpleLogger_write, SimpleLogger_Info.
           destruct (level <=? INFO)%Z; reflexivity.
        -- unfold SimpleLogger_write, SimpleLogger_Debug.
           destruct (level <=? DEBUG)%Z; reflexivity.
Qed.

(** A transport that answers 200 with a small JSON body. *)
Definition plain_answer : RoundTripper :=
  fun _ => (Some (MkResponse 200 (lit "200 OK") 2
                    [(lit "Content-Type", [lit "application/json"])]
                    (Some [Data (lit "{}")])),
            None).

Definition small_request : Request :=
  MkRequest (lit "GET")
            (MkURL (lit "https") (lit "api.example.com") (lit "/v1/items") [] [])
            (lit "api.example.com") [] None.

Lemma SimpleLogger_lines_witness :
  exists ex,
    RoundTrip in_key_order (fun _ => lit "https://api.example.com/v1/items") 12
      (NewLoggingRoundTripper plain_answer (Some DefaultLoggingConfig)) 10 small_request
    = Ret ex /\
    length (flat_map (SimpleLogger_write INFO (lit "2025-01-01 00:00:00.000")) (ex_log ex)) = 1 /\
    length (flat_map (SimpleLogger_write DEBUG (lit "2025-01-01 00:00:00.000")) (ex_log ex)) = 2.
Proof.
  eexists. split; [reflexivity|]. split.
  - exact (SimpleLogger_lines in_key_order (fun _ => lit "https://api.example.com/v1/items")
             12 (NewLoggingRoundTripper plain_answer (Some DefaultLoggingConfig)) 10
             small_request _ INFO (lit "2025-01-01 00:00:00.000")
             eq_refl eq_refl eq_refl).
  - exact (SimpleLogger_lines in_key_order (fun _ => lit "https://api.example.com/v1/items")
             12 (NewLoggingRoundTripper plain_answer (Some DefaultLoggingConfig)) 10
             small_request _ DEBUG (lit "2025-01-01 00:00:00.000")
             eq_refl eq_refl eq_refl).
Defined.

(** ** Queries that url.ParseQuery refuses *)

Lemma Contains_single (x : ascii) (s : bytes) :
  Contains s [x] = true <-> In x s.
Proof.
  rewrite Contains_iff. split.
  - intros (pre & suf & ->). apply in_or_app. right. now left.
  - intro H. apply in_split in H as (pre & suf & ->). now exists pre, suf.
Qed.

Lemma Split_piece (x sep : ascii) (s : bytes) :
  In x s -> x <> sep -> exists piece, In piece (Split s sep) /\ In x piece.
Proof.
  intros Hin Hne. induction s as [|c s IH]; [easy|]. cbn [Split].
  destruct (Ascii.eqb c sep) eqn:E.
  - apply Ascii.eqb_eq in E. subst c.
    destruct Hin as [->|Hin]; [easy|].
    destruct (IH Hin) as (p & Hp & Hx). exists p. split; [now right|exact Hx].
  - destruct Hin as [->|Hin].
    + destruct (Split s sep) as [|p ps]; eexists; (split; [now left|now left]).
    + destruct (IH Hin) as (p & Hp & Hx).
      destruct (Split s sep) as [|p0 ps]; [easy|].
      destruct Hp as [->|Hp].
      * exists (c :: p). split; [now left|now right].
      * exists p. split; [now right|exact Hx].
Qed.

Lemma parse_pieces_err (pieces : list bytes) :
  forall m, snd (parse_pieces pieces m true) = true.
Proof.
  induction pieces as [|p ps IH]; intro m; cbn [parse_pieces]; [reflexivity|].
  destruct (Contains p _); [apply IH|].
  destruct p as [|c p']; [apply IH|].
  destruct (cut_eq (c :: p')) as [k v].
  destruct (QueryUnescape k); [|apply IH].
  destruct (QueryUnescape v); apply IH.
Qed.

Lemma parse_pieces_semicolon (pieces : list bytes) :
  (exists p, In p pieces /\ Contains p (lit ";") = true) ->
  forall m err, snd (parse_pieces pieces m err) = true.
Proof.
  induction pieces as [|p ps IH]; intros (q & Hin & Hq) m err; [easy|].
  cbn [parse_pieces]. destruct Hin as [->|Hin].
  - rewrite Hq. apply parse_pieces_err.
  - assert (IH' := IH (ex_intro _ q (conj Hin Hq))).
    destruct (Contains p _); [apply IH'|].
    destruct p as [|c p']; [apply IH'|].
    destruct (cut_eq (c :: p')) as [k v].
    destruct (QueryUnescape k); [|apply IH'].
    destruct (QueryUnescape v); apply IH'.
Qed.

Lemma ParseQuery_semicolon (query : bytes) :
  In ";"%char query -> ParseQuery query = None.
Proof.
  intro H. unfold ParseQuery.
  destruct (Split_piece ";" "&" query H) as (p & Hp & Hx); [discriminate|].
  pose proof (parse_pieces_semicolon (Split query "&")
                (ex_intro _ p (conj Hp (proj2 (Contains_single ";" p) Hx))) [] false) as E.
  destruct (parse_pieces (Split query "&") [] false) as [m e]. cbn in E. now subst e.
Qed.

(** X9: a query with a semicolon anywhere in it is refused by
    url.ParseQuery, and sanitizeURL then writes the whole query into the
    log as it is, sensitive parameters included. *)
Theorem sanitizeURL_semicolon (ord : range_order) (URL_String : URL -> bytes)
  (l : LoggingRoundTripper) (u : URL) :
  In ";"%char (RawQuery u) ->
  sanitizeURL ord URL_String l u =
  Scheme u ++ lit "://" ++ UHost u ++ Path u ++ lit "?" ++ RawQuery u
  ++ match Fragment u with [] => [] | f => lit "#" ++ f end.
Proof.
  intro H. unfold sanitizeURL, sanitizeQuery.
  rewrite (ParseQuery_semicolon _ H).
  destruct (RawQuery u) as [|c q] eqn:E; [easy|].
  destruct (Fragment u); rewrite <- ?app_assoc; cbn [app];
    rewrite <- ?app_assoc; cbn [app]; rewrite ?app_nil_r; reflexivity.
Qed.

Lemma sanitizeURL_semicolon_witness :
  sanitizeURL in_key_order (fun _ => []) logging_transport
    (MkURL (lit "https") (lit "api.example.com") (lit "/v1/items")
           (lit "token=abc123;page=2") [])
  = lit "https://api.example.com/v1/items?token=abc123;page=2".
Proof.
  apply (sanitizeURL_semicolon in_key_order (fun _ => []) logging_transport
           (MkURL (lit "https") (lit "api.example.com") (lit "/v1/items")
                  (lit "token=abc123;page=2") [])).
  cbn. tauto.
Defined.

(** ** SanitizerNoRegex on XML *)

Lemma Index_found_before (sub pre suf : bytes) :
  exists i a b, Index (pre ++ sub ++ suf) sub = Some i /\ i <= length pre /\
                pre ++ sub ++ suf = a ++ sub ++ b /\ length a = i.
Proof.
  destruct (Index_occurs sub pre suf) as (i & E & Hi).
  destruct (Index_Some sub _ _ E) as (a & b & Hab & Ha).
  exists i, a, b. auto.
Qed.

Lemma skipn_app_exact (A : Type) (a b : list A) : skipn (length a) (a ++ b) = b.
Proof. induction a; simpl; auto. Qed.

Lemma firstn_app_exact (A : Type) (a b : list A) : firstn (length a) (a ++ b) = a.
Proof. induction a; simpl; f_equal; auto. Qed.

Lemma skipn_add (A : Type) (n m : nat) (l : list A) :
  skipn (n + m) l = skipn m (skipn n l).
Proof.
  revert l. induction n as [|n IH]; intro l; [reflexivity|].
  destruct l; simpl; [now destruct m|apply IH].
Qed.

(** One turn of the loop of replaceXMLTag puts the text back into the
    shape that made it turn. *)
Lemma replaceXMLTag_loop_spins (config : SanitizerConfigNoRegex)
  (openTag closeTag : bytes) (fuel : nat) :
  forall a b c,
    replaceXMLTag_loop config fuel openTag closeTag
      (a ++ openTag ++ b ++ closeTag ++ c) = OutOfFuel.
Proof.
  induction fuel as [|n IH]; intros a b c; [reflexivity|].
  cbn [replaceXMLTag_loop].
  destruct (Index_found_before openTag a (b ++ closeTag ++ c))
    as (i & a' & b' & Ei & Hi & Eab & Ha').
  rewrite Ei.
  (* the close tag lies beyond the start that was found *)
  assert (Hskip : exists x, skipn i (a ++ openTag ++ b ++ closeTag ++ c)
                            = x ++ closeTag ++ c).
  { exists (skipn i (a ++ openTag ++ b)).
    replace (a ++ openTag ++ b ++ closeTag ++ c)
      with ((a ++ openTag ++ b) ++ closeTag ++ c) by now rewrite <- !app_assoc.
    rewrite skipn_app.
    replace (i - length (a ++ openTag ++ b)) with 0
      by (rewrite !length_app; lia).
    reflexivity. }
  destruct Hskip as [x Hx]. rewrite Hx.
  destruct (Index_found_before closeTag x c) as (e & x' & c' & Ee & _ & Exc & Hx').
  rewrite Ee.
  rewrite Eab in Hx |- *.
  unfold slice_to, slice_from.
  assert (L1 : (i + length openTag <=? length (a' ++ openTag ++ b')) = true).
  { apply Nat.leb_le. rewrite !length_app. lia. }
  rewrite L1. cbn [bind].
  assert (Hrest : skipn (i + e) (a' ++ openTag ++ b') = closeTag ++ c').
  { rewrite skipn_add, Hx, Exc, <- Hx'. apply skipn_app_exact. }
  assert (L2 : (i + e <=? length (a' ++ openTag ++ b')) = true).
  { apply Nat.leb_le.
    assert (E0 : length (skipn i (a' ++ openTag ++ b')) = length (x' ++ closeTag ++ c'))
      by now rewrite Hx, Exc.
    rewrite length_skipn, !length_app in E0. rewrite !length_app. lia. }
  rewrite L2. cbn [bind].
  rewrite Hrest.
  replace (firstn (i + length openTag) (a' ++ openTag ++ b')) with (a' ++ openTag).
  2:{ replace (a' ++ openTag ++ b') with ((a' ++ openTag) ++ b')
        by now rewrite <- app_assoc.
      replace (i + length openTag) with (length (a' ++ openTag))
        by (rewrite length_app; lia).
      now rewrite firstn_app_exact. }
  rewrite <- !app_assoc. apply IH.
Qed.

Lemma replaceXMLTag_spins (config : SanitizerConfigNoRegex)
  (fuel : nat) (fieldName before value after : bytes) :
  replaceXMLTag config fuel
    (before ++ (lit "<" ++ fieldName ++ lit ">") ++ value
     ++ (lit "</" ++ fieldName ++ lit ">") ++ after) fieldName
  = OutOfFuel.
Proof. unfold replaceXMLTag. apply replaceXMLTag_loop_spins. Qed.

Lemma fold_left_stuck (A B : Type) (f : outcome A -> B -> outcome A) (l : list B) :
  (forall b, f OutOfFuel b = OutOfFuel) -> fold_left f l OutOfFuel = OutOfFuel.
Proof.
  intro H. induction l as [|b l IH]; [reflexivity|]. simpl. now rewrite H.
Qed.

(** X10: SanitizerNoRegex.SanitizeBody does not return on a body taken
    for XML that holds the tag of the first sensitive field and, further
    on, its closing tag: every turn of the loop of replaceXMLTag finds the
    same pair again. *)
Theorem nr_SanitizeBody_xml_never_returns (ord : range_order)
  (config : SanitizerConfigNoRegex) (fuel : nat) (contentType : bytes)
  (field : bytes) (others : list bytes) (before value after : bytes) :
  let body := before ++ (lit "<" ++ field ++ lit ">") ++ value
              ++ (lit "</" ++ field ++ lit ">") ++ after in
  nr_SensitiveFields config = field :: others ->
  (forall r, In r (nr_BodyRules config) ->
             Condition r contentType body (len body) = false) ->
  isJSON contentType = false -> looksLikeJSON body = false ->
  isXML contentType = true \/ looksLikeXML body = true ->
  nr_SanitizeBody ord config fuel body contentType = OutOfFuel.
Proof.
  intros body Hf Hr Hj Hlj Hx. destruct fuel as [|n]; [reflexivity|].
  cbn [nr_SanitizeBody].
  assert (Hne : (length body =? 0) = false).
  { apply Nat.eqb_neq. unfold body. rewrite !length_app. cbn [length lit list_ascii_of_string].
    lia. }
  rewrite Hne.
  assert (Hrules : forall rules,
             (forall r, In r rules -> Condition r contentType body (len body) = false) ->
             nr_applyRules ord config (nr_SanitizeBody ord config n) (S n) rules
               body contentType
             = nr_sanitizeByFormat ord config (S n) body contentType).
  { induction rules as [|r rules IH]; intro H; [reflexivity|].
    cbn [nr_applyRules]. rewrite (H r (or_introl eq_refl)).
    apply IH. intros r' Hr'. apply H. now right. }
  rewrite (Hrules _ Hr). unfold nr_sanitizeByFormat. rewrite Hj, Hlj. cbn [orb].
  replace (isXML contentType || looksLikeXML body) with true
    by (destruct Hx as [-> | ->]; [reflexivity|now rewrite orb_true_r]).
  unfold nr_sanitizeXML. rewrite Hf. cbn [fold_left bind].
  unfold body at 1. rewrite replaceXMLTag_spins. cbn [bind].
  rewrite fold_left_stuck; reflexivity.
Qed.

Definition password_xml : bytes := lit "<user><password>secret</password></user>".

Lemma nr_SanitizeBody_xml_never_returns_witness :
  nr_SanitizeBody in_key_order DefaultSanitizerConfigNoRegex 1000
                  password_xml (lit "application/xml") = OutOfFuel.
Proof.
  apply (nr_SanitizeBody_xml_never_returns in_key_order DefaultSanitizerConfigNoRegex
           1000 (lit "application/xml") (lit "password")
           (tl (nr_SensitiveFields DefaultSanitizerConfigNoRegex))
           (lit "<user>") (lit "secret") (lit "</user>")).
  - reflexivity.
  - intros r [<-|[<-|[<-|[]]]]; reflexivity.
  - reflexivity.
  - reflexivity.
  - left; reflexivity.
Defined.




(** ** SanitizerNoRegex on text without a marker *)

Lemma Contains_false (s sub : bytes) : Contains s sub = false -> Index s sub = None.
Proof. unfold Contains. now destruct (Index s sub). Qed.

(** X12: the scanning detectors return a text as it is when it holds none
    of their markers: no "bearer " and no API key label in any case, no
    eyJ, no AKIA, and fewer than thirteen digits in all. *)
Theorem nr_sanitizeText_without_markers (config : SanitizerConfigNoRegex)
  (fuel : nat) (text : bytes) :
  Contains (ToLower text) (lit "bearer ") = false ->
  forallb (fun pattern => negb (Contains (ToLower text) pattern)) apiKeyPatterns = true ->
  Contains text (lit "eyJ") = false ->
  Contains text (lit "AKIA") = false ->
  length (extractDigits text) < 13 ->
  nr_sanitizeText config (S fuel) text = Ret text.
Proof.
  intros Hb Ha Hj Hk Hd. unfold nr_sanitizeText.
  assert (E1 : hideBearerTokens config (S fuel) text = Ret text).
  { unfold hideBearerTokens. cbn [bearer_loop skipn]. now rewrite (Contains_false _ _ Hb). }
  assert (E2 : hideAPIKeys config (S fuel) text = Ret text).
  { unfold hideAPIKeys.
    assert (H : forall ps,
               forallb (fun pattern => negb (Contains (ToLower text) pattern)) ps = true ->
               fold_left (fun acc pattern =>
                            st <- acc ;;
                            apikey_loop config (S fuel) pattern text (fst st) (snd st) 0)
                         ps (Ret (text, ToLower text)) = Ret (text, ToLower text)).
    { induction ps as [|p ps IH]; intro Hp; [reflexivity|].
      cbn [forallb] in Hp. apply andb_true_iff in Hp as [Hp Hps].
      apply negb_true_iff in Hp.
      cbn [fold_left bind fst snd apikey_loop skipn].
      rewrite (Contains_false _ _ Hp). now apply IH. }
    now rewrite (H _ Ha). }
  assert (E3 : hideJWTTokens config (S fuel) text = Ret text).
  { unfold hideJWTTokens. cbn [jwt_loop skipn]. now rewrite (Contains_false _ _ Hj). }
  assert (E4 : hideCreditCards config text = text).
  { unfold hideCreditCards.
    replace (length (extractDigits text) - 12) with 0 by lia. reflexivity. }
  assert (E5 : hideAWSKeys config (S fuel) text = Ret text).
  { unfold hideAWSKeys. cbn [aws_loop skipn]. now rewrite (Contains_false _ _ Hk). }
  destruct (EnableBearerTokenDetection config); [rewrite E1|]; cbn [bind];
    (destruct (EnableAPIKeyDetection config); [rewrite E2|]); cbn [bind];
    (destruct (EnableJWTDetection config); [rewrite E3|]); cbn [bind];
    (destruct (EnableCreditCardDetection config); [rewrite E4|]);
    (destruct (EnableAWSKeyDetection config); [exact E5|reflexivity]).
Qed.

Lemma nr_sanitizeText_without_markers_witness :
  nr_sanitizeText DefaultSanitizerConfigNoRegex 1 (lit "order 66 shipped to Berlin")
  = Ret (lit "order 66 shipped to Berlin").
Proof.
  apply (nr_sanitizeText_without_markers DefaultSanitizerConfigNoRegex 0
           (lit "order 66 shipped to Berlin")); try reflexivity.
  cbn. lia.
Defined.

(** ** Two bearer tokens in one text *)

Lemma forallb_skipn (A : Type) (p : A -> bool) (n : nat) (l : list A) :
  forallb p l = true -> forallb p (skipn n l) = true.
Proof.
  revert l. induction n as [|n IH]; intros [|x l] H; auto.
  simpl in H. apply andb_true_iff in H as [_ H]. now apply IH.
Qed.

Lemma scan_while_token (p : ascii -> bool) (pre tok rest : bytes) (k : nat) :
  forallb p tok = true -> k <= length tok ->
  match rest with [] => True | c :: _ => p c = false end ->
  scan_while p (pre ++ tok ++ rest) (length pre + k) = length pre + length tok.
Proof.
  intros Hp Hk Hr. unfold scan_while.
  rewrite skipn_add, skipn_app_exact, skipn_app.
  replace (k - length tok) with 0 by lia. cbn [skipn].
  rewrite (span_exact p (skipn k tok) rest (forallb_skipn _ p k tok Hp) Hr).
  cbn [fst]. rewrite length_skipn. lia.
Qed.

(** X13: hideBearerTokens delimits a token in the text as it came and
    cuts the text as already masked.  After a first token longer than the
    mask, the second "Bearer " therefore takes the end of the first token
    for its own, and when that lies beyond the end of the masked text the
    slice panics: with the mask of 14 bytes, whenever the first token is
    more than 22 bytes longer than the second. *)
Theorem hideBearerTokens_panics (config : SanitizerConfigNoRegex) (fuel : nat)
  (first second : bytes) :
  nr_Mask config = lit "***REDACTED***" ->
  forallb (fun c => negb (isWhitespace c)) first = true ->
  22 + length second < length first ->
  hideBearerTokens config (S (S fuel))
    (lit "Bearer " ++ first ++ newline :: lit "Bearer " ++ second)
  = Panic.
Proof.
  intros Hm Hf Hl. unfold hideBearerTokens.
  set (text := lit "Bearer " ++ first ++ newline :: lit "Bearer " ++ second).
  set (p := fun c => negb (isWhitespace c)).
  assert (S1 : scan_while p text 7 = 7 + length first).
  { apply (scan_while_token p (lit "Bearer ") first
             (newline :: lit "Bearer " ++ second) 0); [exact Hf|lia|reflexivity]. }
  assert (S2 : scan_while p text 29 = 7 + length first).
  { apply (scan_while_token p (lit "Bearer ") first
             (newline :: lit "Bearer " ++ second) 22); [exact Hf|lia|reflexivity]. }
  assert (L0 : length text = 15 + length first + length second).
  { unfold text. repeat (rewrite ?length_app; cbn [length lit list_ascii_of_string app]).
    lia. }
  assert (I1 : Index (skipn 0 (ToLower text)) (lit "bearer ") = Some 0) by reflexivity.
  cbn [bearer_loop]. rewrite I1. cbn [Nat.add].
  fold p. rewrite S1.
  replace (7 <? 7 + length first) with true by (symmetry; apply Nat.ltb_lt; lia).
  unfold slice_to at 1, slice_from at 1.
  replace (7 <=? length text) with true by (symmetry; apply Nat.leb_le; lia).
  replace (7 + length first <=? length text) with true
    by (symmetry; apply Nat.leb_le; lia).
  cbn [bind]. rewrite Hm.
  assert (R1 : firstn 7 text = lit "Bearer ") by reflexivity.
  assert (R2 : skipn (7 + length first) text = newline :: lit "Bearer " ++ second).
  { unfold text. rewrite skipn_add. cbn [skipn lit list_ascii_of_string app].
    apply skipn_app_exact. }
  rewrite R1, R2.
  set (result := lit "Bearer " ++ lit "***REDACTED***" ++ newline :: lit "Bearer " ++ second).
  assert (L1 : length result = 29 + length second).
  { unfold result. repeat (rewrite ?length_app; cbn [length lit list_ascii_of_string app]).
    lia. }
  rewrite ToLower_length, L1.
  replace (29 + length second <=? 7) with false by (symmetry; apply Nat.leb_gt; lia).
  assert (I2 : Index (skipn 7 (ToLower result)) (lit "bearer ") = Some 15) by reflexivity.
  rewrite I2. cbn [Nat.add]. fold p. rewrite S2.
  replace (29 <? 7 + length first) with true by (symmetry; apply Nat.ltb_lt; lia).
  unfold slice_to, slice_from. rewrite L1.
  replace (29 <=? 29 + length second) with true by (symmetry; apply Nat.leb_le; lia).
  replace (7 + length first <=? 29 + length second) with false
    by (symmetry; apply Nat.leb_gt; lia).
  reflexivity.
Qed.

Lemma hideBearerTokens_panics_witness :
  hideBearerTokens DefaultSanitizerConfigNoRegex 2
    (lit "Bearer " ++ lit "sk-1234567890abcdefghijklmnopqrstuv" ++ newline
     :: lit "Bearer " ++ lit "tok2")
  = Panic.
Proof.
  apply (hideBearerTokens_panics DefaultSanitizerConfigNoRegex 0
           (lit "sk-1234567890abcdefghijklmnopqrstuv") (lit "tok2")).
  - reflexivity.
  - reflexivity.
  - cbn. lia.
Defined.

(** ** The validator and errors packages *)

Lemma store_length (h : errors.heap) (p : errors.ptr) (e : errors.AppError) :
  length (errors.store h p e) = length h.
Proof.
  revert p; induction h as [|x t IH]; intros [|p]; simpl; auto.
Qed.

Lemma deref_store (h : errors.heap) (p : errors.ptr) (e : errors.AppError) :
  p < length h -> errors.deref (errors.store h p e) p = Some e.
Proof.
  unfold errors.deref. revert p; induction h as [|x t IH]; intros [|p] Hp; simpl in *;
    try lia; auto. apply IH. lia.
Qed.

Lemma deref_Some (h : errors.heap) (p : errors.ptr) :
  p < length h -> exists a, errors.deref h p = Some a.
Proof.
  intro Hp. unfold errors.deref. destruct (nth_error h p) eqn:E; [eauto|].
  apply nth_error_None in E. lia.
Qed.

Lemma WithDetails_details (h : errors.heap) (p : errors.ptr) (details : gomap bytes) :
  p < length h ->
  fst (errors.WithDetails p details h) = p /\
  length (snd (errors.WithDetails p details h)) = length h /\
  option_map errors.Details (errors.deref (snd (errors.WithDetails p details h)) p)
  = Some (Some details).
Proof.
  intro Hp. unfold errors.WithDetails.
  destruct (deref_Some h p Hp) as [a ->]. cbn [fst snd].
  rewrite store_length, deref_store by assumption. auto.
Qed.

Lemma validation_details_snoc (l : list FieldError) (x : FieldError) :
  validation_details (l ++ [x]) =
  map_set (ToLower (Field x)) (formatFieldError x) (validation_details l).
Proof.
  unfold validation_details. rewrite map_app, <- map_assign_app. reflexivity.
Qed.

(** X14: the details of a failed validation hold, under a lower-cased
    field name, the message of the last error whose field has that
    lower-cased name, and nothing else: an earlier error on a field of the
    same name (in another struct, or differing in case) is not reported. *)
Theorem validation_details_last_wins (validationErrors : list FieldError)
    (field message : bytes) :
  map_get field (validation_details validationErrors) = Some message <->
  exists before e after,
    validationErrors = before ++ e :: after /\
    field = ToLower (Field e) /\
    message = formatFieldError e /\
    (forall e', In e' after -> ToLower (Field e') <> field).
Proof.
  split.
  - revert message.
    induction validationErrors as [|x l IH] using rev_ind; intros message Hg.
    + discriminate.
    + rewrite validation_details_snoc in Hg.
      destruct (bytes_eqb field (ToLower (Field x))) eqn:E.
      * apply bytes_eqb_eq in E. subst field.
        rewrite map_get_set_same in Hg. injection Hg as <-.
        exists l, x, []. repeat split; auto; intros e' [].
      * apply bytes_eqb_neq in E.
        rewrite map_get_set_other in Hg by assumption.
        destruct (IH _ Hg) as (before & e & after & -> & -> & -> & Hafter).
        exists before, e, (after ++ [x]). repeat split.
        -- now rewrite <- app_assoc.
        -- intros e' Hin. apply in_app_or in Hin as [Hin|[<-|[]]]; auto.
  - intros (before & e & after & -> & -> & -> & Hafter).
    unfold validation_details.
    rewrite map_app, <- map_assign_app. cbn [map].
    rewrite map_assign_cons. cbn [fst snd].
    rewrite map_get_assign_notin.
    + apply map_get_set_same.
    + rewrite map_map. cbn [fst]. intro Hin. apply in_map_iff in Hin as (e' & He' & Hin).
      exact (Hafter e' Hin He').
Qed.

(** The Details field read through an error value that is an AppError. *)
Definition error_details (h : errors.heap) (e : errors.err_value) : option (gomap bytes) :=
  match e with
  | errors.AppErrorAt p =>
      match errors.deref h p with
      | Some a => errors.Details a
      | None => None
      end
  | _ => None
  end.

(** X15: every failed validation answers with the one ErrValidation of
    the errors package and writes its details into it, so the error that
    an earlier call returned shows the details of the later call. *)
Theorem Validate_overwrites_earlier_details (h : errors.heap)
  (first second : list FieldError) :
  errors.ErrValidation < length h ->
  let (e1, h1) := Validate (ValidationErrors first) h in
  let (e2, h2) := Validate (ValidationErrors second) h1 in
  error_details h1 e1 = Some (validation_details first) /\
  e2 = e1 /\
  error_details h2 e1 = Some (validation_details second).
Proof.
  intro Hp. cbn [Validate formatValidationError].
  pose proof (WithDetails_details h errors.ErrValidation (validation_details first) Hp)
    as H1.
  destruct (errors.WithDetails errors.ErrValidation (validation_details first) h)
    as [p1 h1].
  cbn [fst snd] in H1. destruct H1 as (-> & Hl1 & Hd1).
  assert (Hp1 : errors.ErrValidation < length h1) by now rewrite Hl1.
  pose proof (WithDetails_details h1 errors.ErrValidation (validation_details second) Hp1)
    as H2.
  destruct (errors.WithDetails errors.ErrValidation (validation_details second) h1)
    as [p2 h2].
  cbn [fst snd] in H2. destruct H2 as (-> & Hl2 & Hd2).
  unfold error_details.
  destruct (errors.deref h1 errors.ErrValidation) as [a1|]; [|discriminate].
  destruct (errors.deref h2 errors.ErrValidation) as [a2|]; [|discriminate].
  cbn [option_map] in Hd1, Hd2. injection Hd1 as ->. injection Hd2 as ->. auto.
Qed.

Definition name_errors : list FieldError :=
  [MkFieldError (lit "Name") (lit "required") [];
   MkFieldError (lit "Email") (lit "email") []].

Definition age_errors : list FieldError :=
  [MkFieldError (lit "Age") (lit "gte") (lit "18")].

Lemma Validate_overwrites_earlier_details_witness :
  errors.ErrValidation < length errors.package_errors /\
  let (e1, h1) := Validate (ValidationErrors name_errors) errors.package_errors in
  let (e2, h2) := Validate (ValidationErrors age_errors) h1 in
  error_details h1 e1 = Some (validation_details name_errors) /\
  e2 = e1 /\
  error_details h2 e1 = Some (validation_details age_errors).
Proof.
  split.
  - vm_compute. lia.
  - apply (Validate_overwrites_earlier_details errors.package_errors
             name_errors age_errors).
    vm_compute. lia.
Defined.

(** ** Form bodies *)


Lemma Split_no_sep (s : bytes) (sep : ascii) : ~ In sep s -> Split s sep = [s].
Proof.
  induction s as [|c s IH]; intro Hn; [reflexivity|]. cbn [Split].
  destruct (Ascii.eqb c sep) eqn:E.
  - apply Ascii.eqb_eq in E. subst c. destruct Hn. now left.
  - rewrite IH; [reflexivity|]. intro H. apply Hn. now right.
Qed.

Lemma Split_app_sep (a b : bytes) (sep : ascii) :
  ~ In sep a -> Split (a ++ sep :: b) sep = a :: Split b sep.
Proof.
  induction a as [|c a IH]; intro Hn; cbn [app Split].
  - now rewrite Ascii.eqb_refl.
  - destruct (Ascii.eqb c sep) eqn:E.
    + apply Ascii.eqb_eq in E. subst c. destruct Hn. now left.
    + rewrite IH; [reflexivity|]. intro H. apply Hn. now right.
Qed.

Lemma Split_Join (l : list bytes) (sep : ascii) :
  l <> [] -> Forall (fun piece => ~ In sep piece) l -> Split (Join l [sep]) sep = l.
Proof.
  induction l as [|x l IH]; intros Hne Hall; [easy|].
  inversion Hall as [|? ? Hx Hl]; subst.
  destruct l as [|y l].
  - cbn [Join]. now apply Split_no_sep.
  - change (Join (x :: y :: l) [sep]) with (x ++ sep :: Join (y :: l) [sep]).
    rewrite Split_app_sep by assumption. f_equal. apply IH; [discriminate|assumption].
Qed.

Lemma Index_char (x : ascii) (k v : bytes) :
  ~ In x k -> Index (k ++ x :: v) [x] = Some (length k).
Proof.
  induction k as [|c k IH]; intro Hn.
  - cbn [app Index HasPrefix length]. now rewrite Ascii.eqb_refl.
  - cbn [app Index HasPrefix length].
    destruct (Ascii.eqb x c) eqn:E.
    + apply Ascii.eqb_eq in E. subst c. destruct Hn. now left.
    + cbn [andb]. rewrite IH; [reflexivity|]. intro H. apply Hn. now right.
Qed.

Lemma Index_char_None (x : ascii) (s : bytes) : ~ In x s -> Index s [x] = None.
Proof.
  induction s as [|c s IH]; intro Hn; [reflexivity|].
  cbn [Index HasPrefix].
  destruct (Ascii.eqb x c) eqn:E.
  - apply Ascii.eqb_eq in E. subst c. destruct Hn. now left.
  - cbn [andb]. rewrite IH; [reflexivity|]. intro H. apply Hn. now right.
Qed.

Lemma cut_eq_pair (k v : bytes) :
  ~ In "="%char k -> cut_eq (k ++ lit "=" ++ v) = (k, v).
Proof.
  intro Hn. unfold cut_eq. change (lit "=" ++ v) with ("="%char :: v).
  change (lit "=") with ["="%char].
  rewrite Index_char by assumption.
  rewrite firstn_app_exact.
  change (S (length k)) with (1 + length k). rewrite Nat.add_comm, skipn_add.
  now rewrite skipn_app_exact.
Qed.

Lemma unreserved_not (x : ascii) (s : bytes) :
  query_unreserved x = false -> forallb query_unreserved s = true -> ~ In x s.
Proof.
  intros Hx Hs Hin. rewrite forallb_forall in Hs. apply Hs in Hin. congruence.
Qed.

Lemma QueryUnescape_unreserved (s : bytes) :
  forallb query_unreserved s = true -> QueryUnescape s = Some s.
Proof.
  induction s as [|c s IH]; intro H; [reflexivity|].
  cbn [forallb] in H. apply andb_true_iff in H as [Hc Hs].
  cbn [QueryUnescape]. rewrite (IH Hs).
  destruct (Ascii.eqb c "%") eqn:E1.
  { apply Ascii.eqb_eq in E1. subst c. discriminate. }
  destruct (Ascii.eqb c "+") eqn:E2.
  { apply Ascii.eqb_eq in E2. subst c. discriminate. }
  reflexivity.
Qed.

Lemma QueryEscape_unreserved (s : bytes) :
  forallb query_unreserved s = true -> QueryEscape s = s.
Proof.
  induction s as [|c s IH]; intro H; [reflexivity|].
  cbn [forallb] in H. apply andb_true_iff in H as [Hc Hs].
  unfold QueryEscape in *. cbn [flat_map]. rewrite Hc, (IH Hs). reflexivity.
Qed.

(** The text of a form field. *)
Definition pair_text (kv : bytes * bytes) : bytes := fst kv ++ lit "=" ++ snd kv.

Definition plain_pair (kv : bytes * bytes) : Prop :=
  forallb query_unreserved (fst kv) = true /\ forallb query_unreserved (snd kv) = true.

Lemma pair_text_clean (x : ascii) (kv : bytes * bytes) :
  query_unreserved x = false -> x <> "="%char -> plain_pair kv -> ~ In x (pair_text kv).
Proof.
  intros Hx Hne [Hk Hv] Hin. unfold pair_text in Hin.
  apply in_app_or in Hin as [Hin|Hin]; [exact (unreserved_not x _ Hx Hk Hin)|].
  apply in_app_or in Hin as [Hin|Hin]; [|exact (unreserved_not x _ Hx Hv Hin)].
  destruct Hin as [E|[]]. now apply Hne.
Qed.

Lemma parse_pieces_pairs (pairs : list (bytes * bytes)) :
  Forall plain_pair pairs -> NoDup (map fst pairs) ->
  forall m, (forall kv, In kv pairs -> map_get (fst kv) m = None) ->
  parse_pieces (map pair_text pairs) m false =
  (map_assign m (map (fun kv => (fst kv, [snd kv])) pairs), false).
Proof.
  induction pairs as [|[k v] pairs IH]; intros Hall ND m Hm; [reflexivity|].
  inversion Hall as [|? ? Hkv Hrest]; subst.
  simpl in ND. inversion ND as [|? ? Hnin ND']; subst.
  cbn [map parse_pieces].
  assert (Hsemi : Contains (pair_text (k, v)) (lit ";") = false).
  { destruct (Contains (pair_text (k, v)) (lit ";")) eqn:E; [|reflexivity].
    apply (Contains_single ";"%char) in E.
    exfalso. revert E. apply pair_text_clean; [reflexivity|discriminate|assumption]. }
  rewrite Hsemi.
  destruct (pair_text (k, v)) as [|c0 p0] eqn:Ep.
  { unfold pair_text in Ep. cbn [fst snd] in Ep. apply app_eq_nil in Ep as [_ Ep].
    discriminate. }
  rewrite <- Ep. unfold pair_text at 1. cbn [fst snd].
  destruct Hkv as [Hk Hv]. cbn [fst snd] in Hk, Hv.
  rewrite cut_eq_pair by (apply unreserved_not; [reflexivity|assumption]).
  rewrite (QueryUnescape_unreserved k Hk), (QueryUnescape_unreserved v Hv).
  unfold values_add.
  pose proof (Hm (k, v) (or_introl eq_refl)) as Hmk. cbn [fst] in Hmk. rewrite Hmk.
  rewrite IH; [reflexivity|assumption|assumption|].
  intros kv Hin. rewrite map_get_set_other.
  - apply Hm. now right.
  - intro E. apply Hnin. rewrite <- E. now apply in_map.
Qed.

Lemma Encode_single (f : bytes -> bytes) (m : list (bytes * bytes)) :
  Encode (map (fun kv => (fst kv, [f (snd kv)])) m) =
  Join (map (fun kv => QueryEscape (fst kv) ++ lit "=" ++ QueryEscape (f (snd kv))) m)
       (lit "&").
Proof.
  unfold Encode. f_equal.
  induction m as [|[k v] m IH]; [reflexivity|].
  cbn [map flat_map fst snd app]. now rewrite IH.
Qed.

(** X16: a form body of fields with distinct names in increasing order,
    names and values made of unreserved characters, comes back field by
    field: a field with a sensitive name gets the query-escaped mask, any
    other field its value after sanitizeText, query-escaped. *)
Theorem sanitizeFormURLEncoded_fields (ord : range_order) (config : SanitizerConfig)
  (pairs : list (bytes * bytes)) :
  Forall plain_pair pairs ->
  keys_sorted pairs = true ->
  sanitizeFormURLEncoded ord config (Join (map pair_text pairs) (lit "&")) =
  Join (map (fun kv =>
               fst kv ++ lit "=" ++
               QueryEscape (if isSensitiveField config (fst kv) then Mask config
                            else sanitizeText config (snd kv)))
            pairs)
       (lit "&").
Proof.
  intros Hall Hs.
  pose proof (keys_sorted_NoDup bytes pairs Hs) as ND.
  set (value_of := fun kv : bytes * bytes =>
                     if isSensitiveField config (fst kv) then Mask config
                     else sanitizeText config (snd kv)).
  assert (Hparse : ParseQuery (Join (map pair_text pairs) (lit "&"))
                   = Some (map (fun kv => (fst kv, [snd kv])) pairs)).
  { unfold ParseQuery. destruct pairs as [|p pairs]; [reflexivity|].
    change (lit "&") with ["&"%char]. rewrite Split_Join.
    - rewrite parse_pieces_pairs by (auto; reflexivity).
      rewrite map_assign_sorted_id; [reflexivity|].
      apply (keys_sorted_map_fst bytes (list bytes) (p :: pairs)); [|exact Hs].
      rewrite map_map. reflexivity.
    - discriminate.
    - apply Forall_forall. intros piece Hin. apply in_map_iff in Hin as (kv & <- & Hin).
      apply pair_text_clean; [reflexivity|discriminate|].
      rewrite Forall_forall in Hall. now apply Hall. }
  unfold sanitizeFormURLEncoded. rewrite Hparse.
  set (g := fun kv : bytes * list bytes =>
              (fst kv, if isSensitiveField config (fst kv) then [Mask config]
                       else map (sanitizeText config) (snd kv))).
  set (values := map (fun kv : bytes * bytes => (fst kv, [snd kv])) pairs).
  assert (Hk : map fst values = map fst pairs).
  { unfold values. rewrite map_map. reflexivity. }
  assert (Hg : map fst (map g values) = map fst pairs).
  { rewrite map_map. unfold g. cbn [fst]. exact Hk. }
  rewrite (map_assign_perm (list bytes) (map g (ro_visit ord _ values)) (map g values)).
  - rewrite map_assign_sorted_id
      by (apply (keys_sorted_map_fst bytes (list bytes) pairs); [now rewrite Hg|exact Hs]).
    assert (E : map g values = map (fun kv => (fst kv, [value_of kv])) pairs).
    { unfold values. rewrite map_map. apply map_ext. intros [k v].
      unfold g, value_of. cbn [fst snd map]. now destruct (isSensitiveField config k). }
    rewrite E.
    assert (E2 : map (fun kv : bytes * bytes => (fst kv, [value_of kv])) pairs
                 = map (fun kv : bytes * bytes => (fst kv, [snd kv]))
                       (map (fun kv => (fst kv, value_of kv)) pairs)).
    { rewrite map_map. reflexivity. }
    rewrite E2, (Encode_single (fun x => x)), map_map. f_equal.
    apply map_ext_in. intros [k v] Hin. cbn [fst snd].
    rewrite Forall_forall in Hall. destruct (Hall _ Hin) as [Hkk _].
    cbn [fst] in Hkk. now rewrite (QueryEscape_unreserved k Hkk).
  - apply Permutation_map. apply ro_perm.
  - rewrite map_map.
    eapply Permutation_NoDup; [|rewrite <- Hk in ND; exact ND].
    apply Permutation_sym.
    change (fun x => fst (g x)) with (fun x : bytes * list bytes => fst x).
    apply Permutation_map. apply ro_perm.
Qed.

Definition login_form : list (bytes * bytes) :=
  [(lit "password", lit "hunter2"); (lit "user", lit "bob")].

Lemma sanitizeFormURLEncoded_fields_witness :
  Forall plain_pair login_form /\ keys_sorted login_form = true /\
  sanitizeFormURLEncoded in_key_order DefaultSanitizerConfig
    (lit "password=hunter2&user=bob")
  = lit "password=%2A%2A%2AREDACTED%2A%2A%2A&user=bob".
Proof.
  assert (Hall : Forall plain_pair login_form).
  { repeat constructor. }
  assert (Hs : keys_sorted login_form = true) by reflexivity.
  split; [exact Hall|split; [exact Hs|]].
  exact (eq_trans
           (sanitizeFormURLEncoded_fields in_key_order DefaultSanitizerConfig
              login_form Hall Hs)
           (eq_refl (lit "password=%2A%2A%2AREDACTED%2A%2A%2A&user=bob"))).
Defined.

(** X17: a form body with a semicolon in it is refused by
    url.ParseQuery; the names of its fields are then not looked at, and
    the body goes through sanitizeText like any plain text. *)
Theorem SanitizeBody_form_with_semicolon (ord : range_order) (config : SanitizerConfig)
  (fuel : nat) (body contentType : bytes) :
  In ";"%char body ->
  (forall rule, In rule (BodyRules config) ->
                Condition rule contentType body (len body) = false) ->
  isJSON contentType || looksLikeJSON body = false ->
  isXML contentType || looksLikeXML body = false ->
  isFormURLEncoded contentType = true ->
  SanitizeBody ord config (S fuel) body contentType = Ret (sanitizeText config body).
Proof.
  intros Hin Hrules HJ HX HF.
  destruct body as [|c body]; [easy|].
  cbn [SanitizeBody length Nat.eqb].
  rewrite applyRules_no_match by assumption.
  unfold sanitizeByFormat. rewrite HJ, HX, HF.
  unfold sanitizeFormURLEncoded. now rewrite (ParseQuery_semicolon _ Hin).
Qed.

Definition semicolon_form : bytes := lit "password=hunter2;user=bob".

Definition form_type : bytes := lit "application/x-www-form-urlencoded".

Lemma SanitizeBody_form_with_semicolon_witness :
  In ";"%char semicolon_form /\
  isFormURLEncoded form_type = true /\
  SanitizeBody in_key_order DefaultSanitizerConfig 1 semicolon_form form_type
  = Ret semicolon_form.
Proof.
  assert (Hin : In ";"%char semicolon_form).
  { unfold semicolon_form. apply (Contains_single ";"%char). reflexivity. }
  split; [exact Hin|split; [reflexivity|]].
  refine (eq_trans
            (SanitizeBody_form_with_semicolon in_key_order DefaultSanitizerConfig 0
               semicolon_form form_type Hin _ eq_refl eq_refl eq_refl)
            _).
  - intros rule Hr.
    repeat (destruct Hr as [<-|Hr]; [reflexivity|]). destruct Hr.
  - vm_compute. reflexivity.
Defined.

(** ** Multipart bodies *)






(** ** The rules of the default configuration *)

(** The bytes that looksLikeBase64 counts. *)
Definition base64_byte (b : ascii) : bool :=
  existsb (Ascii.eqb b) base64Chars || Ascii.eqb b newline || Ascii.eqb b cr.

Lemma looksLikeBase64_sample (body : bytes) :
  1000 < length body ->
  900 < length (filter base64_byte (firstn 1000 body)) ->
  looksLikeBase64 body = true.
Proof.
  intros Hl Hc. unfold looksLikeBase64.
  destruct (length body <? 100) eqn:E1; [apply Nat.ltb_lt in E1; lia|].
  destruct (1000 <? length body) eqn:E2; [|apply Nat.ltb_ge in E2; lia].
  apply Nat.ltb_lt.
  change (filter _ (firstn 1000 body)) with (filter base64_byte (firstn 1000 body)).
  rewrite length_firstn. lia.
Qed.

(** X19: under the default rules a body of more than 1024 bytes is not
    logged at all when more than 900 of its first 1000 bytes are base64
    characters, line feeds or carriage returns, whatever follows them and
    whatever the content type (unless binary, which is not logged
    either). *)
Theorem default_rules_skip_base64_sample (ord : range_order) (config : SanitizerConfig)
  (fuel : nat) (body contentType : bytes) :
  BodyRules config = defaultRules ->
  isBinaryContent contentType = false ->
  1024 < length body ->
  900 < length (filter base64_byte (firstn 1000 body)) ->
  SanitizeBody ord config (S fuel) body contentType
  = Ret (lit "[Base64 encoded data - not logged]").
Proof.
  intros HR HB Hl Hc.
  cbn [SanitizeBody].
  destruct (length body =? 0) eqn:E0; [apply Nat.eqb_eq in E0; lia|].
  rewrite HR. unfold defaultRules. cbn [applyRules Condition Action Message].
  rewrite HB.
  rewrite (looksLikeBase64_sample body) by (assumption || lia).
  assert (Hz : (1024 <? len body)%Z = true).
  { apply Z.ltb_lt. unfold len. lia. }
  rewrite Hz. reflexivity.
Qed.

Definition long_password_body : bytes :=
  jq "{'password':'" ++ repeat "A"%char 1100 ++ jq "','note':'" ++ repeat " "%char 50
  ++ jq "card 4111111111111111'}".

Lemma default_rules_skip_base64_sample_witness :
  isJSON (lit "application/json") = true /\
  Valid long_password_body = true /\
  SanitizeBody in_key_order DefaultSanitizerConfig 1 long_password_body
    (lit "application/json")
  = Ret (lit "[Base64 encoded data - not logged]").
Proof.
  split; [reflexivity|split; [vm_compute; reflexivity|]].
  apply (default_rules_skip_base64_sample in_key_order DefaultSanitizerConfig 0
           long_password_body (lit "application/json")).
  - reflexivity.
  - reflexivity.
  - apply Nat.ltb_lt. vm_compute. reflexivity.
  - apply Nat.ltb_lt. vm_compute. reflexivity.
Defined.

(** ** Sizes *)

Lemma replace_all_absent (x : ascii) (new : bytes) (fuel : nat) :
  forall s, ~ In x s -> replace_all_from fuel s [x] new = s.
Proof.
  induction fuel as [|n IH]; intros s Hn; [reflexivity|].
  destruct s as [|c s]; [reflexivity|]. cbn [replace_all_from HasPrefix].
  destruct (Ascii.eqb x c) eqn:E.
  - apply Ascii.eqb_eq in E. subst c. destruct Hn. now left.
  - cbn [andb]. rewrite IH; [reflexivity|]. intro H. apply Hn. now right.
Qed.

Lemma ReplaceAll_absent (x : ascii) (new s : bytes) :
  ~ In x s -> ReplaceAll s [x] new = s.
Proof. intro H. unfold ReplaceAll. now apply replace_all_absent. Qed.

Definition decimal_char (c : ascii) : bool := is_digit c || Ascii.eqb c "-".

Lemma string_of_uint_decimal (d : Decimal.uint) :
  forallb decimal_char (lit (NilEmpty.string_of_uint d)) = true.
Proof. induction d; cbn; auto. Qed.

Lemma Sprint_int_decimal (n : Z) : forallb decimal_char (Sprint_int n) = true.
Proof.
  unfold Sprint_int, NilZero.string_of_int, NilZero.string_of_uint.
  destruct (Z.to_int n) as [d|d].
  - destruct d; try apply (string_of_uint_decimal (_ d)); reflexivity.
  - change (lit (String "-" ?s)) with ("-"%char :: lit s).
    cbn [lit list_ascii_of_string forallb]. 
    destruct d; try apply (string_of_uint_decimal (_ d)); reflexivity.
Qed.

(** X20: formatInt returns the decimal digits of the number as
    fmt.Sprintf prints them: there is no comma and no point in them for
    the two replacements to act on, so the sizes in the log carry no digit
    grouping. *)
Theorem formatInt_plain_decimal (n : Z) : formatInt n = Sprint_int n.
Proof.
  unfold formatInt.
  pose proof (Sprint_int_decimal n) as H. rewrite forallb_forall in H.
  change (lit ",") with [","%char]. change (lit ".") with ["."%char].
  rewrite (ReplaceAll_absent ","%char).
  - apply ReplaceAll_absent. intro Hin. apply H in Hin. discriminate.
  - intro Hin. apply H in Hin. discriminate.
Qed.
